(** * Syndesmoscope: selection store, viewport controller, layout build

    A shallow embedding of the interaction/state engine of the
    Syndesmoscope explorer:

    - [SelectionContext]  src/contexts/SelectionContext.jsx
    - [UseZoomPan]        the useZoomPan hook (viewport controller)
    - [ZoomTransitions]   the animated transitions of the controller
    - [NodeLinkPane]      simulation build and node drag handlers
    - [KSnakesPane]       value fallback chain, sorting and axis binding
    - [PaneEvents]        pointer wiring and highlight styling of the panes
    - [NodeLinkViewport]  fit to content and zoom filter of the node-link pane
    - [KSnakesLayout], [HopCensusLayout]  plot layout of the vector panes
    - [NetworkContext], [ControlPanel]    dataset loading and switching
    - [D3Zoom], [D3Force], [D3Scale], [D3Array]  the calls these files
      make into the d3 library, with the meaning d3 gives them

    Conventions.  Identifiers ([node_idx], [edge_idx]) are integers [Z].
    A JavaScript [Set] of identifiers is a [gset Z].  JavaScript numbers
    are modelled by exact rationals [Q]: rounding, NaN and the infinities
    of binary64 are outside the model, and [===] on numbers is [Qeq_bool]
    (a division by zero, which the model evaluates to 0, occurs only in
    the translation of a transform whose scale is 0; no statement below
    depends on it).  React state is threaded explicitly: every handler
    is a function from the state before the call to the state after it.
    The calls of the viewport controller that animate ([zoomIn],
    [zoomOut], [resetZoom], [fitToContent]) are given in [UseZoomPan] by
    the transform their transition ends in; the transforms the viewport
    passes through on the way, and calls that arrive while a transition
    is still running, are the subject of [ZoomTransitions]. *)

From Stdlib Require Import ZArith QArith Qminmax Qround Lqa Lia List Permutation Sorted.
From stdpp Require Import gmap list.

Set Warnings "-clear-no-such-hyp".

Local Open Scope Z_scope.

(* ===================================================================== *)
(** ** Selection store (SelectionContext.jsx) *)
(* ===================================================================== *)

Module SelectionContext.

(** The four [useState] cells of [SelectionProvider]. *)
Record state := mkState {
  hoveredNodes  : gset Z;
  hoveredEdges  : gset Z;
  selectedNodes : gset Z;
  selectedEdges : gset Z
}.

(** [useState(new Set())] four times. *)
Definition initial : state := mkState ∅ ∅ ∅ ∅.

Definition setHoveredNodes (v : gset Z) (s : state) : state :=
  mkState v (hoveredEdges s) (selectedNodes s) (selectedEdges s).
Definition setHoveredEdges (v : gset Z) (s : state) : state :=
  mkState (hoveredNodes s) v (selectedNodes s) (selectedEdges s).
Definition setSelectedNodes (f : gset Z → gset Z) (s : state) : state :=
  mkState (hoveredNodes s) (hoveredEdges s) (f (selectedNodes s)) (selectedEdges s).
Definition setSelectedEdges (f : gset Z → gset Z) (s : state) : state :=
  mkState (hoveredNodes s) (hoveredEdges s) (selectedNodes s) (f (selectedEdges s)).

(** [new Set(array)] *)
Definition newSet (a : list Z) : gset Z := list_to_set a.

(* Node hover handlers *)
Definition hoverNode (nodeIdx : Z) : state → state :=
  setHoveredNodes (newSet [nodeIdx]).
Definition hoverNodes (nodeIdxArray : list Z) : state → state :=
  setHoveredNodes (newSet nodeIdxArray).
Definition clearHoveredNodes : state → state :=
  setHoveredNodes (newSet []).

(* Edge hover handlers *)
Definition hoverEdge (edgeIdx : Z) : state → state :=
  setHoveredEdges (newSet [edgeIdx]).
Definition hoverEdges (edgeIdxArray : list Z) : state → state :=
  setHoveredEdges (newSet edgeIdxArray).
Definition clearHoveredEdges : state → state :=
  setHoveredEdges (newSet []).

(* Clear all hover *)
Definition clearHover (s : state) : state :=
  setHoveredEdges (newSet []) (setHoveredNodes (newSet []) s).

(** The updater shared by both toggles:
    [next = new Set(prev); next.has(i) ? next.delete(i) : next.add(i)]. *)
Definition toggle (idx : Z) (prev : gset Z) : gset Z :=
  let next := prev in
  if bool_decide (idx ∈ next) then next ∖ {[idx]} else next ∪ {[idx]}.

(** [array.forEach(idx => next.add(idx))] *)
Definition addAll (a : list Z) (prev : gset Z) : gset Z :=
  fold_left (λ next idx, next ∪ {[idx]}) a prev.

(** [array.forEach(idx => next.delete(idx))] *)
Definition deleteAll (a : list Z) (prev : gset Z) : gset Z :=
  fold_left (λ next idx, next ∖ {[idx]}) a prev.

(* Node selection handlers *)
Definition toggleNodeSelection (nodeIdx : Z) : state → state :=
  setSelectedNodes (toggle nodeIdx).
Definition selectNodes (nodeIdxArray : list Z) : state → state :=
  setSelectedNodes (addAll nodeIdxArray).
Definition deselectNodes (nodeIdxArray : list Z) : state → state :=
  setSelectedNodes (deleteAll nodeIdxArray).
Definition clearSelectedNodes : state → state :=
  setSelectedNodes (λ _, newSet []).

(* Edge selection handlers *)
Definition toggleEdgeSelection (edgeIdx : Z) : state → state :=
  setSelectedEdges (toggle edgeIdx).
Definition selectEdges (edgeIdxArray : list Z) : state → state :=
  setSelectedEdges (addAll edgeIdxArray).
Definition deselectEdges (edgeIdxArray : list Z) : state → state :=
  setSelectedEdges (deleteAll edgeIdxArray).
Definition clearSelectedEdges : state → state :=
  setSelectedEdges (λ _, newSet []).

(* Clear all selections *)
Definition clearAllSelections (s : state) : state :=
  setSelectedEdges (λ _, newSet [])
    (setSelectedNodes (λ _, newSet [])
      (setHoveredEdges (newSet []) (setHoveredNodes (newSet []) s))).

(** [hoveredNodes.has(i) || selectedNodes.has(i)] *)
Definition isNodeHighlighted (nodeIdx : Z) (s : state) : bool :=
  bool_decide (nodeIdx ∈ hoveredNodes s) || bool_decide (nodeIdx ∈ selectedNodes s).

Definition isEdgeHighlighted (edgeIdx : Z) (s : state) : bool :=
  bool_decide (edgeIdx ∈ hoveredEdges s) || bool_decide (edgeIdx ∈ selectedEdges s).

(** Frame conditions: [f] leaves the cell read by [proj] as it was. *)
Definition preserves {A} (proj : state → A) (f : state → state) : Prop :=
  ∀ s, proj (f s) = proj s.

(** [f] writes at most the one named cell. *)
Definition writesOnlyHoveredNodes (f : state → state) : Prop :=
  preserves hoveredEdges f ∧ preserves selectedNodes f ∧ preserves selectedEdges f.
Definition writesOnlyHoveredEdges (f : state → state) : Prop :=
  preserves hoveredNodes f ∧ preserves selectedNodes f ∧ preserves selectedEdges f.
Definition writesOnlySelectedNodes (f : state → state) : Prop :=
  preserves hoveredNodes f ∧ preserves hoveredEdges f ∧ preserves selectedEdges f.
Definition writesOnlySelectedEdges (f : state → state) : Prop :=
  preserves hoveredNodes f ∧ preserves hoveredEdges f ∧ preserves selectedNodes f.

End SelectionContext.

(* ===================================================================== *)
(** ** The d3-zoom entry points used by the hook *)
(* ===================================================================== *)

(** d3 is an external dependency of the repository.  The hook below
    only configures a zoom behaviour and calls [scaleBy] and [transform]
    on it; this module gives those entry points their d3-zoom meaning
    (the [Transform] methods, the extent clamping helpers [scale],
    [translate], [constrain] of the zoom behaviour, and the gesture
    handlers).  Each function gives the transform the call asks the
    element to take; whether it is assigned at once or approached by a
    transition is decided by the caller. *)
Module D3Zoom.
Local Open Scope Q_scope.

Definition Point : Type := Q * Q.
Definition Extent : Type := Point * Point.

(** [new Transform(k, x, y)] *)
Record Transform := mkTransform { k : Q; x : Q; y : Q }.

Definition zoomIdentity : Transform := mkTransform 1 0 0.

(** [transform.scale(s)]: [s === 1 ? this : new Transform(this.k * s, this.x, this.y)] *)
Definition Transform_scale (t : Transform) (s : Q) : Transform :=
  if Qeq_bool s 1 then t else mkTransform (k t * s) (x t) (y t).

(** [transform.translate(dx, dy)] *)
Definition Transform_translate (t : Transform) (dx dy : Q) : Transform :=
  if Qeq_bool dx 0 && Qeq_bool dy 0 then t
  else mkTransform (k t) (x t + k t * dx) (y t + k t * dy).

(** [transform.apply(point)] *)
Definition Transform_apply (t : Transform) (p : Point) : Point :=
  (fst p * k t + x t, snd p * k t + y t).

Definition invertX (t : Transform) (px : Q) : Q := (px - x t) / k t.
Definition invertY (t : Transform) (py : Q) : Q := (py - y t) / k t.

(** [transform.invert(location)] *)
Definition Transform_invert (t : Transform) (p : Point) : Point :=
  (invertX t (fst p), invertY t (snd p)).

(** Two points with equal coordinates. *)
Definition Point_eq (p q : Point) : Prop := fst p == fst q ∧ snd p == snd q.

(** [a || b] on numbers: [a] unless it is zero. *)
Definition num_or (a b : Q) : Q := if Qeq_bool a 0 then b else a.

Section Behavior.
(** A zoom behaviour configured with [.scaleExtent(scaleExtent)] and,
    optionally, [.translateExtent(...)]; left unset the translate extent
    is the whole plane and [constrain] moves nothing. *)
Variable scaleExtent : Q * Q.
Variable translateExtent : option Extent.

(** [scale(transform, k)]: clamp the requested scale to the extent. *)
Definition scale (t : Transform) (k1 : Q) : Transform :=
  let k1 := Qmax (fst scaleExtent) (Qmin (snd scaleExtent) k1) in
  if Qeq_bool k1 (k t) then t else mkTransform k1 (x t) (y t).

(** [translate(transform, p0, p1)]: put content point [p1] under [p0]. *)
Definition translate (t : Transform) (p0 p1 : Point) : Transform :=
  let x1 := fst p0 - fst p1 * k t in
  let y1 := snd p0 - snd p1 * k t in
  if Qeq_bool x1 (x t) && Qeq_bool y1 (y t) then t else mkTransform (k t) x1 y1.

Definition centroid (e : Extent) : Point :=
  ((fst (fst e) + fst (snd e)) / 2, (snd (fst e) + snd (snd e)) / 2).

Definition constrain_axis (d0 d1 : Q) : Q :=
  if negb (Qle_bool d1 d0) then (d0 + d1) / 2
  else num_or (Qmin 0 d0) (Qmax 0 d1).

(** [constrain(transform, extent, translateExtent)] *)
Definition constrain (t : Transform) (e : Extent) : Transform :=
  match translateExtent with
  | None => t
  | Some te =>
      let dx0 := invertX t (fst (fst e)) - fst (fst te) in
      let dx1 := invertX t (fst (snd e)) - fst (snd te) in
      let dy0 := invertY t (snd (fst e)) - snd (fst te) in
      let dy1 := invertY t (snd (snd e)) - snd (snd te) in
      Transform_translate t (constrain_axis dx0 dx1) (constrain_axis dy0 dy1)
  end.

(** [zoom.scaleTo(selection, k)], anchored at the centre of the extent. *)
Definition scaleTo (e : Extent) (t0 : Transform) (k1 : Q) : Transform :=
  let p0 := centroid e in
  let p1 := Transform_invert t0 p0 in
  constrain (translate (scale t0 k1) p0 p1) e.

(** [zoom.scaleBy(selection, k)] *)
Definition scaleBy (e : Extent) (t0 : Transform) (factor : Q) : Transform :=
  scaleTo e t0 (k t0 * factor).

(** [zoom.transform(selection, t)]: explicit assignment; the extents are
    not enforced on this path. *)
Definition transform (t0 new : Transform) : Transform := new.

(** Wheel: [factor] is [2 ** wheelDelta(event)]; [p] is the pointer
    and [p1] the content point the gesture holds under it
    ([g.mouse[1]]: [t.invert(p)] for the transform [t] the element had
    when the wheel gesture began or the pointer last moved). *)
Definition wheeled (e : Extent) (t : Transform) (factor : Q) (p p1 : Point) : Transform :=
  constrain (translate (scale t (k t * factor)) p p1) e.

(** Drag on the background: content point [p1] follows the pointer [p]. *)
Definition mousemoved (e : Extent) (t : Transform) (p p1 : Point) : Transform :=
  constrain (translate t p p1) e.

(** Double click at [p]: zoom in by 2, out by 1/2 with shift. *)
Definition dblclicked (e : Extent) (t0 : Transform) (shiftKey : bool) (p0 : Point) : Transform :=
  let p1 := Transform_invert t0 p0 in
  let k1 := k t0 * (if shiftKey then 1 # 2 else 2) in
  constrain (translate (scale t0 k1) p0 p1) e.

(** Touch move.  With two fingers down the handler requests the
    absolute scale [k1] (the ratio of the finger distance to the
    distance of the content points held under the fingers) and puts
    the content point [l] under [p], the two midpoints; with one finger
    down it only puts the content point [l] it holds under the
    finger [p]. *)
Definition touchmoved (e : Extent) (t : Transform) (k1 : option Q) (p l : Point) : Transform :=
  let t := match k1 with
           | Some k1 => scale t k1
           | None => t
           end in
  constrain (translate t p l) e.

End Behavior.
End D3Zoom.

(* ===================================================================== *)
(** ** Viewport controller (the useZoomPan hook) *)
(* ===================================================================== *)

Module UseZoomPan.
Import D3Zoom.
Local Open Scope Q_scope.

Record Config := mkConfig {
  scaleExtent : Q * Q;
  translateExtent : option Extent;
  zoomStep : Q;
  transitionDuration : Q
}.

Definition DEFAULT_OPTIONS : Config :=
  mkConfig (1 # 10, 4) None (1 # 4) 200.

(** [getBoundingClientRect()] of the svg element. *)
Record Rect := mkRect { width : Q; height : Q }.

(** The [bounds] argument of [fitToContent]. *)
Record Bounds := mkBounds { bx : Q; by_ : Q; bwidth : Q; bheight : Q }.

(** What a raw input event offers to the gesture filter: its type,
    whether its target carries the class [node], [event.ctrlKey] and
    [event.button] (0 is the primary button; a wheel or touch event has
    none, which the filters below read as 0). *)
Inductive EventType := Wheel | MouseDown | DblClick | TouchStart.
Record RawEvent := mkRawEvent {
  type : EventType;
  targetIsNode : bool;
  ctrlKey : bool;
  button : Z
}.

(** State of one mounted hook, for as long as the svg element it is
    attached to lives.  [svgRef] is [None] while [svgRef.current] is
    null, and otherwise holds what [getBoundingClientRect()] of the svg
    returns now; the zoom behaviour is created by the first effect, so
    [zoomBehaviorRef.current] is set in every state a handler can
    observe.  [extent] is the zoom extent d3-zoom reads off the element:
    its [viewBox] when it has one (node-link pane), else its [width] and
    [height] attributes; the panes write these once, when they build the
    svg, from the size the container has at that time.  [transform] is
    the element's zoom transform, which the ["zoom"] listener copies
    into the React state on every zoom event. *)
Record Hook := mkHook {
  config : Config;
  svgRef : option Rect;
  extent : Extent;
  filterFn : option (RawEvent → bool);
  transform : Transform
}.

(** The zoom extent of an svg built [width r] by [height r]:
    [[0,0],[width,height]]. *)
Definition extentOf (r : Rect) : Extent := ((0, 0), (width r, height r)).

(** A hook whose svg, if there is one, has just been built to the size
    [svg] of its container. *)
Definition mount (c : Config) (svg : option Rect) : Hook :=
  mkHook c svg (extentOf (default (mkRect 0 0) svg)) None zoomIdentity.

Definition setTransform (t : Transform) (h : Hook) : Hook :=
  mkHook (config h) (svgRef h) (extent h) (filterFn h) t.

Definition setFilter (f : RawEvent → bool) (h : Hook) : Hook :=
  mkHook (config h) (svgRef h) (extent h) (Some f) (transform h).

(** The panel is resized and nothing rewrites the svg: styled to fill
    its container, the svg gets the bounding rect [r]; its attributes,
    hence the zoom extent, stay as they were built.  (The resize
    observer of the node-link pane, where it is installed, rewrites
    [width], [height] and [viewBox]; that is not this function.) *)
Definition resized (r : Rect) (h : Hook) : Hook :=
  match svgRef h with
  | None => h
  | Some _ => mkHook (config h) (Some r) (extent h) (filterFn h) (transform h)
  end.

(** [zoomIn], [zoomOut], [resetZoom] and [fitToContent] hand their
    request to a transition of [transitionDuration] ms and return at
    once.  The four definitions give the hook state at the end of that
    transition when it starts from [h] and is not interrupted; the
    frames in between are modelled in [ZoomTransitions]. *)
Definition zoomIn (h : Hook) : Hook :=
  match svgRef h with
  | None => h
  | Some _ =>
      setTransform
        (scaleBy (scaleExtent (config h)) (translateExtent (config h))
                 (extent h) (transform h) (1 + zoomStep (config h))) h
  end.

Definition zoomOut (h : Hook) : Hook :=
  match svgRef h with
  | None => h
  | Some _ =>
      setTransform
        (scaleBy (scaleExtent (config h)) (translateExtent (config h))
                 (extent h) (transform h) (1 / (1 + zoomStep (config h)))) h
  end.

Definition resetZoom (h : Hook) : Hook :=
  match svgRef h with
  | None => h
  | Some _ => setTransform (D3Zoom.transform (transform h) zoomIdentity) h
  end.

(** [Math.min(a, b, c)] *)
Definition min3 (a b c : Q) : Q := Qmin (Qmin a b) c.

Definition fitToContent (h : Hook) (bounds : option Bounds) (padding : Q) : Hook :=
  match svgRef h, bounds with
  | Some r, Some b =>
      if Qeq_bool (width r) 0 || Qeq_bool (height r) 0
         || Qeq_bool (bwidth b) 0 || Qeq_bool (bheight b) 0
      then h
      else
        let scale := min3 ((width r - padding * 2) / bwidth b)
                          ((height r - padding * 2) / bheight b)
                          (snd (scaleExtent (config h))) in
        let centerX := bx b + bwidth b / 2 in
        let centerY := by_ b + bheight b / 2 in
        let translateX := width r / 2 - scale * centerX in
        let translateY := height r / 2 - scale * centerY in
        let newTransform :=
          Transform_scale (Transform_translate zoomIdentity translateX translateY) scale in
        setTransform (D3Zoom.transform (transform h) newTransform) h
  | _, _ => h
  end.

Definition setZoomTransform (newTransform : Transform) (h : Hook) : Hook :=
  match svgRef h with
  | None => h
  | Some _ => setTransform (D3Zoom.transform (transform h) newTransform) h
  end.

(** [Math.round(transform.k * 100)] *)
Definition zoomPercent (h : Hook) : Z :=
  Qfloor (D3Zoom.k (transform h) * 100 + (1 # 2)).

(** Continuous gestures, as the zoom behaviour attached to the svg
    handles them. *)
Inductive Gesture :=
| GWheel (factor : Q) (p p1 : Point)
| GPan (p p1 : Point)
| GDblClick (shiftKey : bool) (p : Point)
| GPinch (k1 : Q) (p l : Point)
| GTouchPan (p l : Point).

Definition gestureType (g : Gesture) : EventType :=
  match g with
  | GWheel _ _ _ => Wheel
  | GPan _ _ => MouseDown
  | GDblClick _ _ => DblClick
  | GPinch _ _ _ => TouchStart
  | GTouchPan _ _ => TouchStart
  end.

(** d3-zoom's default filter:
    [(!event.ctrlKey || event.type === 'wheel') && !event.button]. *)
Definition defaultFilter (ev : RawEvent) : bool :=
  (negb (ctrlKey ev) || match type ev with Wheel => true | _ => false end)
  && (button ev =? 0)%Z.

(** An event is handled only when the filter of the zoom behaviour
    accepts it: the one installed through [setFilter], which replaces
    d3's default filter, or else the default filter. *)
Definition accepts (h : Hook) (ev : RawEvent) : bool :=
  match filterFn h with
  | None => defaultFilter ev
  | Some f => f ev
  end.

(** The gesture [g], started by an event on a node or not, with or
    without the control key, with the given mouse button.  The filter
    sees the event that starts the gesture.  A double click is animated
    by d3-zoom over 250 ms; as for the calls above, the definition
    gives the state at the end of that transition. *)
Definition gestureOn (g : Gesture) (onNode ctrl : bool) (btn : Z) (h : Hook) : Hook :=
  match svgRef h with
  | None => h
  | Some _ =>
      if accepts h (mkRawEvent (gestureType g) onNode ctrl btn) then
        let se := scaleExtent (config h) in
        let te := translateExtent (config h) in
        let e := extent h in
        let t := transform h in
        setTransform
          match g with
          | GWheel factor p p1 => wheeled se te e t factor p p1
          | GPan p p1 => mousemoved te e t p p1
          | GDblClick shiftKey p => dblclicked se te e t shiftKey p
          | GPinch k1 p l => touchmoved se te e t (Some k1) p l
          | GTouchPan p l => touchmoved se te e t None p l
          end h
      else h
  end.

(** The same gesture with the primary button and no control key. *)
Definition gesture (g : Gesture) (onNode : bool) (h : Hook) : Hook :=
  gestureOn g onNode false 0 h.

(** Everything that can happen to a mounted controller. *)
Inductive Op :=
| OpZoomIn
| OpZoomOut
| OpReset
| OpFit (bounds : option Bounds) (padding : Q)
| OpSetTransform (t : Transform)
| OpSetFilter (f : RawEvent → bool)
| OpGesture (g : Gesture) (onNode : bool).

Definition step (h : Hook) (o : Op) : Hook :=
  match o with
  | OpZoomIn => zoomIn h
  | OpZoomOut => zoomOut h
  | OpReset => resetZoom h
  | OpFit b p => fitToContent h b p
  | OpSetTransform t => setZoomTransform t h
  | OpSetFilter f => setFilter f h
  | OpGesture g onNode => gesture g onNode h
  end.

Definition run (ops : list Op) (h : Hook) : Hook := fold_left step ops h.

(** The invariant of the specification: scale within [scaleExtent]. *)
Definition scaleWithinExtent (h : Hook) : Prop :=
  fst (scaleExtent (config h)) <= D3Zoom.k (transform h)
  ∧ D3Zoom.k (transform h) <= snd (scaleExtent (config h)).

Definition isPan (g : Gesture) : bool :=
  match g with
  | GPan _ _ | GTouchPan _ _ => true
  | _ => false
  end.

End UseZoomPan.

(* ===================================================================== *)
(** ** Animated transitions of the viewport controller *)
(* ===================================================================== *)

(** [zoomIn], [zoomOut], [resetZoom], [fitToContent] and a double click
    do not assign their transform: they schedule a d3 transition on the
    svg and return.  The transition starts on a later timer tick and
    interrupts the one that is running; from then on every tick assigns
    an interpolated transform to the element, and the ["zoom"] listener
    of the hook copies each of them into the React state
    (useZoomPan, [.on("zoom", ...)]).  Calls and gestures may arrive at
    any time in between.

    When a transition starts, d3-zoom's [schedule] reads
    [a = this.__zoom], takes the target [b] (for [scaleBy] computed
    from [a]; for [zoom.transform] and the double click the transform
    that was passed), the larger side [w] of the zoom extent and
    [i = interpolateZoom(a.invert(p).concat(w / a.k),
                         b.invert(p).concat(w / b.k))];
    the tick at [t < 1] assigns the transform of scale [w / i(t)[2]]
    and the last tick assigns [b] itself.  [d3.interpolateZoom] is made
    of [exp], [log], [cosh] and [tanh]: the frames are not rational in
    the input and the model does not compute them.  It keeps two facts
    about the view width [i(t)[2]], which hold when [w], [a.k] and [b.k]
    are positive:
    - if [a] and [b] show the same content point under [p] (a [scaleBy]
      with no translate extent, anchored at the centre of the zoom
      extent), the width is [w0 * exp(t * log(w1 / w0))], between
      [w0 = w / a.k] and [w1 = w / b.k]; so the scale of the frame lies
      between [a.k] and [b.k];
    - otherwise the width is [w0 * cosh(r0) / cosh(rho * t * S + r0)]:
      it is positive and, [cosh] being convex, at least the smaller of
      the values [w0] and [w1] it takes at the two ends; so the scale
      of the frame is positive and at most the larger of [a.k] and
      [b.k].  It can be smaller than both: the path zooms out on the
      way when the two views are far apart.
    A [EvFrame] event carries the transform of one tick.  [isFrame]
    admits every transform within these bounds, and any transform at
    all when [w], [a.k] or [b.k] is not positive. *)
Module ZoomTransitions.
Import D3Zoom UseZoomPan.
Local Open Scope Q_scope.

(** [w = Math.max(e[1][0] - e[0][0], e[1][1] - e[0][1])] *)
Definition viewSize (e : Extent) : Q :=
  Qmax (fst (snd e) - fst (fst e)) (snd (snd e) - snd (fst e)).

(** What a call hands to [schedule]: a factor for [scaleBy], read
    against the transform the element has when the transition starts,
    or a transform. *)
Inductive Request :=
| ScaleBy (factor : Q)
| MoveTo (t : Transform).

(** A running transition: [a], [b] and whether they are anchored at
    the same content point. *)
Record Transition := mkTransition {
  source : Transform;
  target : Transform;
  anchored : bool
}.

(** The hook, the transitions scheduled on its svg that have not
    started (oldest first) and the transition that is running. *)
Record State := mkState {
  hook : Hook;
  scheduled : list Request;
  active : option Transition
}.

Definition mounted (c : Config) (svg : option Rect) : State :=
  mkState (mount c svg) [] None.

Definition schedule (q : Request) (s : State) : State :=
  mkState (hook s) (scheduled s ++ [q]) (active s).

(** The tween of [schedule], initialised when the transition starts. *)
Definition begin (h : Hook) (q : Request) : Transition :=
  let a := transform h in
  match q with
  | ScaleBy f =>
      mkTransition a
        (scaleBy (scaleExtent (config h)) (translateExtent (config h)) (extent h) a f)
        (match translateExtent (config h) with None => true | Some _ => false end)
  | MoveTo t => mkTransition a (D3Zoom.transform a t) false
  end.

Definition positive (v : Q) : bool := negb (Qle_bool v 0).

Definition isFrame (w : Q) (tr : Transition) (t : Transform) : bool :=
  let ka := k (source tr) in
  let kb := k (target tr) in
  if positive w && positive ka && positive kb then
    if anchored tr
    then Qle_bool (Qmin ka kb) (k t) && Qle_bool (k t) (Qmax ka kb)
    else positive (k t) && Qle_bool (k t) (Qmax ka kb)
  else true.

(** The guard of [fitToContent]: no svg, no bounds or a zero side. *)
Definition fitReturnsEarly (h : Hook) (bounds : option Bounds) : bool :=
  match svgRef h, bounds with
  | Some r, Some b =>
      Qeq_bool (width r) 0 || Qeq_bool (height r) 0
      || Qeq_bool (bwidth b) 0 || Qeq_bool (bheight b) 0
  | _, _ => true
  end.

(** Whether the zoom behaviour handles the event that starts [g]. *)
Definition handled (h : Hook) (g : Gesture) (onNode ctrl : bool) (btn : Z) : bool :=
  match svgRef h with
  | None => false
  | Some _ => accepts h (mkRawEvent (gestureType g) onNode ctrl btn)
  end.

(** What can happen to a mounted controller, one event of the browser's
    event loop at a time.  [EvStart] is the timer tick on which the
    oldest scheduled transition starts, [EvFrame] a later tick of the
    running transition and [EvEnd] its last tick.  [EvInput] is one
    wheel, mouse-move or touch-move event of a gesture, or a double
    click; [first] tells whether it begins its gesture: d3-zoom
    interrupts the transitions of the element when a wheel, drag or
    touch gesture begins, not on the events that continue it. *)
Inductive Event :=
| EvZoomIn
| EvZoomOut
| EvReset
| EvFit (bounds : option Bounds) (padding : Q)
| EvStart
| EvFrame (t : Transform)
| EvEnd
| EvInput (g : Gesture) (onNode ctrl : bool) (btn : Z) (first : bool)
| EvAssign (t : Transform)
| EvSetFilter (f : RawEvent → bool)
| EvResized (r : Rect).

(** [None]: the event cannot occur in this state (a tick with no
    transition to run, or a frame outside the bounds above). *)
Definition step (s : State) (ev : Event) : option State :=
  let h := hook s in
  match ev with
  | EvZoomIn =>
      Some match svgRef h with
           | None => s
           | Some _ => schedule (ScaleBy (1 + zoomStep (config h))) s
           end
  | EvZoomOut =>
      Some match svgRef h with
           | None => s
           | Some _ => schedule (ScaleBy (1 / (1 + zoomStep (config h)))) s
           end
  | EvReset =>
      Some match svgRef h with
           | None => s
           | Some _ => schedule (MoveTo zoomIdentity) s
           end
  | EvFit bounds padding =>
      Some (if fitReturnsEarly h bounds then s
            else schedule (MoveTo (transform (fitToContent h bounds padding))) s)
  | EvStart =>
      match scheduled s with
      | [] => None
      | q :: rest => Some (mkState h rest (Some (begin h q)))
      end
  | EvFrame t =>
      match active s with
      | None => None
      | Some tr =>
          if isFrame (viewSize (extent h)) tr t
          then Some (mkState (setTransform t h) (scheduled s) (active s))
          else None
      end
  | EvEnd =>
      match active s with
      | None => None
      | Some tr => Some (mkState (setTransform (target tr) h) (scheduled s) None)
      end
  | EvInput g onNode ctrl btn first =>
      Some (if handled h g onNode ctrl btn then
              let h' := gestureOn g onNode ctrl btn h in
              match g with
              | GDblClick _ _ => schedule (MoveTo (transform h')) s
              | _ => if first then mkState h' [] None
                     else mkState h' (scheduled s) (active s)
              end
            else s)
  | EvAssign t =>
      Some match svgRef h with
           | None => s
           | Some _ => mkState (setZoomTransform t h) [] None
           end
  | EvSetFilter f => Some (mkState (setFilter f h) (scheduled s) (active s))
  | EvResized r => Some (mkState (resized r h) (scheduled s) (active s))
  end.

Fixpoint run (evs : list Event) (s : State) : option State :=
  match evs with
  | [] => Some s
  | ev :: evs => match step s ev with
                 | None => None
                 | Some s' => run evs s'
                 end
  end.

(** Scale within the extent [se]; scale positive and at most the upper
    end of [se]. *)
Definition within (se : Q * Q) (t : Transform) : Prop :=
  fst se <= k t ∧ k t <= snd se.

Definition capped (se : Q * Q) (t : Transform) : Prop :=
  0 < k t ∧ k t <= snd se.

Definition isScaleBy (q : Request) : Prop :=
  match q with
  | ScaleBy _ => True
  | MoveTo _ => False
  end.

Definition cappedRequest (se : Q * Q) (q : Request) : Prop :=
  match q with
  | ScaleBy _ => True
  | MoveTo t => capped se t
  end.

(** What zoom steps and wheel, drag and pinch input maintain: the
    scale is within the extent, only [scaleBy] requests wait, and the
    running transition is anchored and joins two scales of the
    extent. *)
Definition steady (se : Q * Q) (s : State) : Prop :=
  within se (transform (hook s))
  ∧ Forall isScaleBy (scheduled s)
  ∧ match active s with
    | None => True
    | Some tr => anchored tr = true ∧ within se (source tr) ∧ within se (target tr)
    end.

(** What every event but [fitToContent] and the direct assignment
    maintains. *)
Definition bounded (se : Q * Q) (s : State) : Prop :=
  capped se (transform (hook s))
  ∧ Forall (cappedRequest se) (scheduled s)
  ∧ match active s with
    | None => True
    | Some tr => capped se (source tr) ∧ capped se (target tr)
    end.

(** Zoom steps, their ticks, and wheel, drag and pinch input. *)
Definition isZoomStepOrInput (ev : Event) : bool :=
  match ev with
  | EvReset | EvFit _ _ | EvAssign _ => false
  | EvInput (GDblClick _ _) _ _ _ _ => false
  | _ => true
  end.

(** Everything but [fitToContent] and the direct assignment. *)
Definition isClamping (ev : Event) : bool :=
  match ev with
  | EvFit _ _ | EvAssign _ => false
  | _ => true
  end.

End ZoomTransitions.

(* ===================================================================== *)
(** ** The d3-force entry points used by the node-link pane *)
(* ===================================================================== *)

(** As for d3-zoom: the pane hands its node and edge arrays to
    [d3.forceSimulation] and [d3.forceLink]; this module gives the build
    step its d3-force meaning.  A reference to a node object is
    represented by the position of that object in the simulation's node
    array (the [index] d3 assigns to it). *)
Module D3Force.
Local Open Scope Q_scope.

(** A simulation node: the pane's clone of the dataset node, completed
    by [forceSimulation]. *)
Record SimNode := mkSimNode {
  node_idx : Z;
  x : Q; y : Q;
  vx : Q; vy : Q;
  fx : option Q; fy : option Q
}.

(** A link before initialisation carries identifiers ... *)
Record RawLink := mkRawLink { raw_edge_idx : Z; raw_source : Z; raw_target : Z }.

(** ... and node references afterwards. *)
Record Link := mkLink { edge_idx : Z; source : nat; target : nat }.

(** [throw new Error("node not found: " + nodeId)] *)
Inductive Error := NodeNotFound (nodeId : Z).

(** [new Map(nodes.map((d, i) => [id(d), d]))]: entries are set in array
    order, so of two nodes with one identifier the later one is kept. *)
Definition nodeById (id : SimNode → Z) (nodes : list SimNode) : gmap Z nat :=
  fold_left (λ (m : gmap Z nat) (p : nat * SimNode), <[id (snd p) := fst p]> m)
            (imap pair nodes) ∅.

(** [find(nodeById, nodeId)] *)
Definition find (m : gmap Z nat) (nodeId : Z) : Error + nat :=
  match m !! nodeId with
  | Some n => inr n
  | None => inl (NodeNotFound nodeId)
  end.

(** The loop of the link force's [initialize]: resolve [source], then
    [target], of every link in order; the first miss throws. *)
Fixpoint resolveLinks (m : gmap Z nat) (links : list RawLink) : Error + list Link :=
  match links with
  | [] => inr []
  | l :: rest =>
      match find m (raw_source l) with
      | inl e => inl e
      | inr s =>
          match find m (raw_target l) with
          | inl e => inl e
          | inr t =>
              match resolveLinks m rest with
              | inl e => inl e
              | inr rest' => inr (mkLink (raw_edge_idx l) s t :: rest')
              end
          end
      end
  end.

Record Simulation := mkSimulation {
  nodes : list SimNode;
  links : list Link;
  alpha : Q;
  alphaTarget : Q;
  running : bool;
  center : Q * Q
}.

(** [simulation.alphaTarget(a)] *)
Definition set_alphaTarget (a : Q) (s : Simulation) : Simulation :=
  mkSimulation (nodes s) (links s) (alpha s) a (running s) (center s).

(** [simulation.alpha(a)] *)
Definition set_alpha (a : Q) (s : Simulation) : Simulation :=
  mkSimulation (nodes s) (links s) a (alphaTarget s) (running s) (center s).

(** [simulation.restart()] *)
Definition restart (s : Simulation) : Simulation :=
  mkSimulation (nodes s) (links s) (alpha s) (alphaTarget s) true (center s).

(** [simulation.stop()] *)
Definition stop (s : Simulation) : Simulation :=
  mkSimulation (nodes s) (links s) (alpha s) (alphaTarget s) false (center s).

(** [simulation.force('center', d3.forceCenter(cx, cy))] *)
Definition set_center (c : Q * Q) (s : Simulation) : Simulation :=
  mkSimulation (nodes s) (links s) (alpha s) (alphaTarget s) (running s) c.

Definition set_nodes (ns : list SimNode) (s : Simulation) : Simulation :=
  mkSimulation ns (links s) (alpha s) (alphaTarget s) (running s) (center s).

(** [forceSimulation(nodes).force('link', forceLink(edges).id(id))...]:
    a running simulation with alpha 1 and alpha target 0, unless the
    link force cannot resolve an identifier. *)
Definition forceSimulation (id : SimNode → Z) (ns : list SimNode)
    (edges : list RawLink) (c : Q * Q) : Error + Simulation :=
  match resolveLinks (nodeById id ns) edges with
  | inl e => inl e
  | inr ls => inr (mkSimulation ns ls 1 0 true c)
  end.

End D3Force.

(* ===================================================================== *)
(** ** Node-link pane: simulation build and drag handlers *)
(* ===================================================================== *)

Module NodeLinkPane.
Import D3Force.
Local Open Scope Q_scope.

(** Dataset records as the loader supplies them.  Further attributes of
    a node are copied by the spread [...d] and play no role here. *)
Record NodeRef := mkNodeRef { ref_node_idx : Z }.
Record EdgeRef := mkEdgeRef { ref_edge_idx : Z; ref_source : Z; ref_target : Z }.
Record Data := mkData { data_nodes : list NodeRef; data_edges : list EdgeRef }.

(** [container.getBoundingClientRect()] *)
Record Rect := mkRect { width : Q; height : Q }.

(** [data.nodes.map(d => ({...d, x: Math.random() * width,
    y: Math.random() * height}))]; [random] is the stream of
    [Math.random()] results, two draws per node. *)
Definition prepareNodes (random : nat → Q) (r : Rect) (ns : list NodeRef) : list SimNode :=
  imap (λ i d,
          mkSimNode (ref_node_idx d)
                    (random (2 * i)%nat * width r)
                    (random (2 * i + 1)%nat * height r)
                    0 0 None None) ns.

(** [data.edges.map(d => ({...d}))] *)
Definition prepareEdges (es : list EdgeRef) : list RawLink :=
  map (λ d, mkRawLink (ref_edge_idx d) (ref_source d) (ref_target d)) es.

Inductive Outcome :=
| Skipped
| Built (sim : Simulation)
| Threw (e : Error).

(** The "Initialize D3 visualization" effect, as far as the simulation
    is concerned. *)
Definition buildSimulation (random : nat → Q) (container : option Rect)
    (data : option Data) : Outcome :=
  match container, data with
  | Some r, Some d =>
      if Qeq_bool (width r) 0 || Qeq_bool (height r) 0 then Skipped
      else
        let nodes := prepareNodes random r (data_nodes d) in
        let edges := prepareEdges (data_edges d) in
        match forceSimulation node_idx nodes edges (width r / 2, height r / 2) with
        | inr sim => Built sim
        | inl e => Threw e
        end
  | _, _ => Skipped
  end.

(** The identifiers present in the node list. *)
Definition nodeIds (d : Data) : list Z := map ref_node_idx (data_nodes d).

(** An edge whose two identifiers are both present. *)
Definition resolves (d : Data) (e : EdgeRef) : Prop :=
  ref_source e ∈ nodeIds d ∧ ref_target e ∈ nodeIds d.

#[global] Instance resolves_dec (d : Data) (e : EdgeRef) : Decision (resolves d e) :=
  and_dec (decide (ref_source e ∈ nodeIds d)) (decide (ref_target e ∈ nodeIds d)).

(** What a resolved link says about the graph: its edge identifier and
    the identifiers of the two node objects it points to. *)
Definition connectivity (sim : Simulation) (l : Link) : option EdgeRef :=
  match nodes sim !! source l, nodes sim !! target l with
  | Some s, Some t => Some (mkEdgeRef (edge_idx l) (node_idx s) (node_idx t))
  | _, _ => None
  end.

(** The drag event: [active] counts the other drag gestures in
    progress, [subject] is the dragged node object, [ev_x], [ev_y] the
    pointer. *)
Record DragEvent := mkDragEvent { active : nat; subject : nat; ev_x : Q; ev_y : Q }.

Definition set_fx (v : option Q) (n : SimNode) : SimNode :=
  mkSimNode (node_idx n) (x n) (y n) (vx n) (vy n) v (fy n).
Definition set_fy (v : option Q) (n : SimNode) : SimNode :=
  mkSimNode (node_idx n) (x n) (y n) (vx n) (vy n) (fx n) v.

(** Assignment through the shared node object [event.subject]. *)
Definition updateSubject (f : SimNode → SimNode) (event : DragEvent)
    (sim : Simulation) : Simulation :=
  set_nodes (alter f (subject event) (nodes sim)) sim.

Definition dragstarted (event : DragEvent) (sim : Simulation) : Simulation :=
  let sim := if Nat.eqb (active event) 0
             then restart (set_alphaTarget (3 # 10) sim) else sim in
  let sim := updateSubject (λ n, set_fx (Some (x n)) n) event sim in
  updateSubject (λ n, set_fy (Some (y n)) n) event sim.

Definition dragged (event : DragEvent) (sim : Simulation) : Simulation :=
  let sim := updateSubject (set_fx (Some (ev_x event))) event sim in
  updateSubject (set_fy (Some (ev_y event))) event sim.

Definition dragended (event : DragEvent) (sim : Simulation) : Simulation :=
  let sim := if Nat.eqb (active event) 0
             then set_alphaTarget 0 sim else sim in
  let sim := updateSubject (set_fx None) event sim in
  updateSubject (set_fy None) event sim.

(** The resize observer: new centre, [alpha(0.3).restart()]. *)
Definition resized (r : Rect) (sim : Simulation) : Simulation :=
  if negb (Qle_bool (width r) 0) && negb (Qle_bool (height r) 0)
  then restart (set_alpha (3 # 10) (set_center (width r / 2, height r / 2) sim))
  else sim.

End NodeLinkPane.

(* ===================================================================== *)
(** ** k-Snakes pane: value chain, sorting, axis binding *)
(* ===================================================================== *)

(** [d3.scaleLinear().domain([d0, d1]).range([r0, r1])] and [d3.max]. *)
Module D3Scale.
Local Open Scope Q_scope.

(** [normalize(a, b)]: [(b -= a) ? x => (x - a) / b : constant(0.5)] *)
Definition normalize (a b x : Q) : Q :=
  if Qeq_bool (b - a) 0 then 1 # 2 else (x - a) / (b - a).

(** [interpolateNumber(a, b)(t)] *)
Definition interpolate (a b t : Q) : Q := a * (1 - t) + b * t.

(** The two-point piecewise map [bimap]; a linear scale does not clamp. *)
Definition scaleLinear (domain range : Q * Q) (v : Q) : Q :=
  let '(d0, d1) := domain in
  let '(r0, r1) := range in
  if negb (Qle_bool d0 d1)
  then interpolate r1 r0 (normalize d1 d0 v)
  else interpolate r0 r1 (normalize d0 d1 v).

(** [d3.max(array, accessor)] on a non-empty array of numbers; [None]
    stands for [undefined] on the empty array. *)
Definition max {A} (f : A → Q) (l : list A) : option Q :=
  match l with
  | [] => None
  | a :: l' => Some (fold_left (λ m b, if negb (Qle_bool (f b) m) then f b else m) l' (f a))
  end.

End D3Scale.

Module KSnakesPane.
Local Open Scope Q_scope.

(** A node of the k-snakes dataset; an absent attribute is [None]
    ([undefined]). *)
Record KNode := mkKNode { node_idx : Z; degree : option Q; k : option Q }.

(** Truthiness of a numeric attribute: defined and not zero. *)
Definition truthy (v : option Q) : bool :=
  match v with
  | Some q => negb (Qeq_bool q 0)
  | None => false
  end.

(** [a || b] *)
Definition or_ (a b : option Q) : option Q := if truthy a then a else b.

(** Numeric reading of the result of a chain that ends in a number. *)
Definition toNumber (v : option Q) : Q :=
  match v with
  | Some q => q
  | None => 0
  end.

(** [d.degree || d.k || 0] *)
Definition value (d : KNode) : Q := toNumber (or_ (or_ (degree d) (k d)) (Some 0)).

(** [d.degree || d.k || 1], used for the y domain only. *)
Definition value1 (d : KNode) : Q := toNumber (or_ (or_ (degree d) (k d)) (Some 1)).

(** The comparator [(a, b) => value(a) - value(b)]. *)
Definition compareNodes (a b : KNode) : Q := value a - value b.

(** The order the comparator sorts by. *)
Definition byValue (a b : KNode) : Prop := value a <= value b.

(** [Array.prototype.sort] is a stable sort; with a comparator that is
    consistent, as a difference of numbers is, its result is the one of
    stable insertion: [a] goes before the first element that the
    comparator puts strictly after it. *)
Fixpoint insertSorted (cmp : KNode → KNode → Q) (a : KNode) (l : list KNode) : list KNode :=
  match l with
  | [] => [a]
  | b :: l' => if Qle_bool (cmp a b) 0 then a :: b :: l' else b :: insertSorted cmp a l'
  end.

Fixpoint sort (cmp : KNode → KNode → Q) (l : list KNode) : list KNode :=
  match l with
  | [] => []
  | a :: l' => insertSorted cmp a (sort cmp l')
  end.

(** [[...data.nodes].sort(...)] *)
Definition sortedNodes (ns : list KNode) : list KNode := sort compareNodes ns.

Record Rect := mkRect { width : Q; height : Q }.

Definition nodePadding : Q := 20.

(** [Math.min(a, b)] *)
Definition plotSize (r : Rect) : Q :=
  let availableWidth := width r - 50 - 20 in
  let availableHeight := height r - 20 - 40 in
  Qmin availableWidth availableHeight.

Definition xScale (r : Rect) (ns : list KNode) : Q → Q :=
  let innerWidth := plotSize r in
  D3Scale.scaleLinear (0, inject_Z (Z.of_nat (length ns)) - 1)
                      (nodePadding, innerWidth - nodePadding).

Definition yScale (r : Rect) (ns : list KNode) : Q → Q :=
  let innerHeight := plotSize r in
  let maxK := toNumber (D3Scale.max value1 ns) in
  D3Scale.scaleLinear (0, maxK) (innerHeight - nodePadding, nodePadding).

(** One [circle.snake-node]: the datum the join bound to it and its
    attributes. *)
Record Circle := mkCircle {
  datum : KNode;
  data_node_idx : Z;
  cx : Q; cy : Q;
  r : Q
}.

(** The selection join [.data(sortedNodes).join('circle')]: one circle
    per sorted node, in order, [cx] bound to the index and [cy] to the
    value. *)
Definition snakeNodes (rect : Rect) (ns : list KNode) : list Circle :=
  let baseRadius := plotSize rect / 200 in
  imap (λ i d,
          mkCircle d (node_idx d)
                   (xScale rect ns (inject_Z (Z.of_nat i)))
                   (yScale rect ns (value d))
                   baseRadius)
       (sortedNodes ns).

(** Reading the picture: of two circles, the one further left never
    carries the larger value. *)
Definition ascendingAlongX (circles : list Circle) : Prop :=
  ∀ c1 c2, c1 ∈ circles → c2 ∈ circles →
           cx c1 < cx c2 → value (datum c1) <= value (datum c2).

(** The "Initialize visualization" effect: nothing is drawn without
    data, in an empty container or for an empty node list. *)
Definition render (container : option Rect) (data : option (list KNode)) : list Circle :=
  match container, data with
  | Some rect, Some ns =>
      if Qeq_bool (width rect) 0 || Qeq_bool (height rect) 0 then []
      else match ns with
           | [] => []
           | _ => snakeNodes rect ns
           end
  | _, _ => []
  end.

End KSnakesPane.

(* ===================================================================== *)
(** ** Pointer wiring and highlight styling of the panes *)
(* ===================================================================== *)

Module PaneEvents.
Import SelectionContext.

(** The pointer events the node-link pane listens to on its circles and
    lines; the k-snakes and hop-census panes listen to the node events
    only. *)
Inductive PointerEvent :=
| NodeEnter (nodeIdx : Z)
| NodeLeave
| NodeClick (nodeIdx : Z)
| EdgeEnter (edgeIdx : Z)
| EdgeLeave
| EdgeClick (edgeIdx : Z).

(** [mouseenter -> hoverNode], [mouseleave -> clearHover],
    [click -> toggleNodeSelection], and likewise for edges. *)
Definition handle (s : state) (ev : PointerEvent) : state :=
  match ev with
  | NodeEnter i => hoverNode i s
  | NodeLeave => clearHover s
  | NodeClick i => toggleNodeSelection i s
  | EdgeEnter i => hoverEdge i s
  | EdgeLeave => clearHover s
  | EdgeClick i => toggleEdgeSelection i s
  end.

Definition handleAll (evs : list PointerEvent) (s : state) : state :=
  fold_left handle evs s.

Definition isClick (ev : PointerEvent) : bool :=
  match ev with
  | NodeClick _ | EdgeClick _ => true
  | _ => false
  end.









Definition snakeRaised (s : state) (nodeIdx : Z) : bool :=
  bool_decide (nodeIdx ∈ selectedNodes s) || bool_decide (nodeIdx ∈ hoveredNodes s).

(** The radius of the k-snakes circles is not a function of the store
    alone.  Each run of the highlight effect reads the base radius off
    the svg, [firstNode.empty() ? 4 : +firstNode.attr('r')] for the
    first [.snake-node] in document order, writes [baseRadius * 1.5] or
    [baseRadius] to every circle, and [raise()] moves the highlighted
    circles, in order, behind the others of their group.
    [highlightSnakes] is one run, from the circles in document order
    before it to the circles in document order after it. *)
Definition snakeBaseRadius (circles : list KSnakesPane.Circle) : Q :=
  match circles with
  | [] => 4%Q
  | firstNode :: _ => KSnakesPane.r firstNode
  end.

Definition setRadius (v : Q) (c : KSnakesPane.Circle) : KSnakesPane.Circle :=
  KSnakesPane.mkCircle (KSnakesPane.datum c) (KSnakesPane.data_node_idx c)
                       (KSnakesPane.cx c) (KSnakesPane.cy c) v.

Definition highlightSnakes (s : state) (circles : list KSnakesPane.Circle)
    : list KSnakesPane.Circle :=
  let baseRadius := snakeBaseRadius circles in
  let hoverRadius := (baseRadius * (15 # 10))%Q in
  let raised c := snakeRaised s (KSnakesPane.data_node_idx c) in
  let sized := map (λ c, setRadius (if raised c then hoverRadius else baseRadius) c) circles in
  List.filter (λ c, negb (raised c)) sized ++ List.filter raised sized.

(** The effect runs once for every store of a sequence. *)
Definition highlightRuns (stores : list state) (circles : list KSnakesPane.Circle)
    : list KSnakesPane.Circle :=
  fold_left (λ cs s, highlightSnakes s cs) stores circles.





End PaneEvents.

(* ===================================================================== *)
(** ** Node-link pane: fit to content and the zoom filter *)
(* ===================================================================== *)

(** [d3.min(array)] and [d3.max(array)] on arrays of numbers; [None]
    stands for [undefined] on the empty array. *)
Module D3Array.
Local Open Scope Q_scope.

Definition min (l : list Q) : option Q :=
  match l with
  | [] => None
  | a :: l' => Some (fold_left (λ m b, if negb (Qle_bool m b) then b else m) l' a)
  end.

Definition max (l : list Q) : option Q := D3Scale.max (λ v, v) l.

End D3Array.

Module NodeLinkViewport.
Local Open Scope Q_scope.

(** The pane's two refs that matter here: its viewport hook and
    [simulationRef.current]. *)
Record Pane := mkPane {
  hook : UseZoomPan.Hook;
  simulationRef : option D3Force.Simulation
}.

(** The pane calls [useZoomPan(svgRef, { scaleExtent: [0.1, 4] })]. *)
Definition options : UseZoomPan.Config :=
  UseZoomPan.mkConfig (1 # 10, 4)
                      (UseZoomPan.translateExtent UseZoomPan.DEFAULT_OPTIONS)
                      (UseZoomPan.zoomStep UseZoomPan.DEFAULT_OPTIONS)
                      (UseZoomPan.transitionDuration UseZoomPan.DEFAULT_OPTIONS).

(** A number read out of [d3.min] / [d3.max]; on the non-empty arrays
    used below the result is always defined. *)
Definition num (v : option Q) : Q :=
  match v with
  | Some q => q
  | None => 0
  end.

(** The bounding box [handleFitContent] builds around the nodes. *)
Definition nodeBounds (nodes : list D3Force.SimNode) : UseZoomPan.Bounds :=
  let padding := 20 in
  let xs := map D3Force.x nodes in
  let ys := map D3Force.y nodes in
  UseZoomPan.mkBounds
    (num (D3Array.min xs) - padding)
    (num (D3Array.min ys) - padding)
    ((num (D3Array.max xs) - num (D3Array.min xs)) + padding * 2)
    ((num (D3Array.max ys) - num (D3Array.min ys)) + padding * 2).

Definition handleFitContent (p : Pane) : Pane :=
  match simulationRef p with
  | None => p
  | Some simulation =>
      match D3Force.nodes simulation with
      | [] => p
      | nodes => mkPane (UseZoomPan.fitToContent (hook p) (Some (nodeBounds nodes)) 0)
                        (simulationRef p)
      end
  end.

(** The filter the pane installs with [setFilter]: wheel events always
    pass, other events pass unless they start on a [.node] element. *)
Definition zoomFilter (event : UseZoomPan.RawEvent) : bool :=
  match UseZoomPan.type event with
  | UseZoomPan.Wheel => true
  | _ => if UseZoomPan.targetIsNode event then false else true
  end.

(** Two node records that differ at most in their pin. *)
Definition samePlace (n n' : D3Force.SimNode) : Prop :=
  D3Force.node_idx n' = D3Force.node_idx n
  ∧ D3Force.x n' = D3Force.x n ∧ D3Force.y n' = D3Force.y n
  ∧ D3Force.vx n' = D3Force.vx n ∧ D3Force.vy n' = D3Force.vy n.

End NodeLinkViewport.

(* ===================================================================== *)
(** ** k-snakes pane: layout of the square plot *)
(* ===================================================================== *)

Module KSnakesLayout.
Import KSnakesPane.
Local Open Scope Q_scope.

Record Margin := mkMargin { top : Q; right : Q; bottom : Q; left : Q }.

Definition baseMargin : Margin := mkMargin 20 20 40 50.

Definition availableWidth (rect : Rect) : Q := width rect - left baseMargin - right baseMargin.
Definition availableHeight (rect : Rect) : Q := height rect - top baseMargin - bottom baseMargin.

(** The margins after centring the square plot. *)
Definition margin (rect : Rect) : Margin :=
  let extraHorizontal := availableWidth rect - plotSize rect in
  let extraVertical := availableHeight rect - plotSize rect in
  mkMargin (top baseMargin + extraVertical / 2)
           (right baseMargin + extraHorizontal / 2)
           (bottom baseMargin + extraVertical / 2)
           (left baseMargin + extraHorizontal / 2).

(** [boundsRef.current], the rectangle handed to [fitToContent]. *)
Definition bounds (rect : Rect) : UseZoomPan.Bounds :=
  UseZoomPan.mkBounds (left (margin rect)) (top (margin rect)) (plotSize rect) (plotSize rect).

(** The pane calls [useZoomPan(svgRef, { scaleExtent: [0.5, 4] })]. *)
Definition options : UseZoomPan.Config :=
  UseZoomPan.mkConfig (1 # 2, 4)
                      (UseZoomPan.translateExtent UseZoomPan.DEFAULT_OPTIONS)
                      (UseZoomPan.zoomStep UseZoomPan.DEFAULT_OPTIONS)
                      (UseZoomPan.transitionDuration UseZoomPan.DEFAULT_OPTIONS).

(** [handleFitContent]: fit to [boundsRef.current] when it is set. *)
Definition handleFitContent (h : UseZoomPan.Hook) (boundsRef : option UseZoomPan.Bounds)
    : UseZoomPan.Hook :=
  match boundsRef with
  | Some b => UseZoomPan.fitToContent h (Some b) 0
  | None => h
  end.

End KSnakesLayout.

(** The hop-census pane: same hook options and [handleFitContent]; its
    plot fills what the fixed margins leave. *)
Module HopCensusLayout.
Import KSnakesPane.
Local Open Scope Q_scope.

Definition margin : KSnakesLayout.Margin := KSnakesLayout.mkMargin 20 20 40 50.

Definition innerWidth (rect : Rect) : Q :=
  width rect - KSnakesLayout.left margin - KSnakesLayout.right margin.
Definition innerHeight (rect : Rect) : Q :=
  height rect - KSnakesLayout.top margin - KSnakesLayout.bottom margin.

(** [boundsRef.current] *)
Definition bounds (rect : Rect) : UseZoomPan.Bounds :=
  UseZoomPan.mkBounds (KSnakesLayout.left margin) (KSnakesLayout.top margin)
                      (innerWidth rect) (innerHeight rect).

End HopCensusLayout.

(* ===================================================================== *)
(** ** Network context and the control panel *)
(* ===================================================================== *)

From Stdlib Require String.

Module NetworkContext.
Import Stdlib.Strings.String.
Local Open Scope string_scope.

Record NetworkMeta := mkNetworkMeta {
  id : String.string;
  name : String.string;
  nodes : Z;
  edges : Z
}.

Definition AVAILABLE_NETWORKS : list NetworkMeta :=
  [ mkNetworkMeta "karate-club" "Karate Club" 34 78;
    mkNetworkMeta "les-miserables" "Les Misérables" 77 254;
    mkNetworkMeta "game-thrones" "Game of Thrones" 107 352;
    mkNetworkMeta "tree-7-binomial" "Binomial Tree" 128 127;
    mkNetworkMeta "grid-14-by-14" "Square Grid" 196 364;
    mkNetworkMeta "network-science" "Network Science" 379 914;
    mkNetworkMeta "fibonacci-sunflower" "Fibonacci Sunflower" 987 2924;
    mkNetworkMeta "polblogs" "Political Blogs" 1222 16714;
    mkNetworkMeta "stanford-bunny" "Stanford Bunny" 2503 7048 ].

Section Provider.
(** The type of a parsed JSON payload. *)
Variable Json : Type.

(** [{ nodeLink, kSnakes }]; a file whose response was not ok is
    [null]. *)
Record NetworkData := mkNetworkData {
  nodeLink : option Json;
  kSnakes : option Json
}.

Record state := mkState {
  currentNetworkId : option String.string;
  networkData : option NetworkData;
  isLoading : bool;
  error : option String.string
}.

Definition initial : state := mkState None None false None.

(** What [await Promise.all([...])] gives: the three parsed files, each
    [null] when its response was not ok, or a rejection whose
    [message] may be missing. *)
Inductive Settled :=
| Fulfilled (nodeLink hopCensus kSnakes : option Json)
| Rejected (message : option String.string).

(** [AVAILABLE_NETWORKS.find(n => n.id === currentNetworkId) || null] *)
Definition findNetwork (table : list NetworkMeta) (networkId : option String.string)
    : option NetworkMeta :=
  match networkId with
  | None => None
  | Some i => List.find (λ n, String.eqb (id n) i) table
  end.

Definition currentNetwork (s : state) : option NetworkMeta :=
  findNetwork AVAILABLE_NETWORKS (currentNetworkId s).

(** [networkId === currentNetworkId && networkData] *)
Definition alreadyLoaded (networkId : String.string) (s : state) : bool :=
  match currentNetworkId s, networkData s with
  | Some i, Some _ => String.eqb networkId i
  | _, _ => false
  end.

(** [err.message || 'Failed to load network data'] *)
Definition errorMessage (message : option String.string) : String.string :=
  match message with
  | Some m => if String.eqb m "" then "Failed to load network data" else m
  | None => "Failed to load network data"
  end.

(** [loadNetwork] up to its [await]: nothing for a network that is
    already loaded, otherwise the loading flag is raised and the error
    cleared. *)
Definition loadNetwork_begin (networkId : String.string) (s : state) : state :=
  if alreadyLoaded networkId s then s
  else mkState (currentNetworkId s) (networkData s) true None.

(** [loadNetwork] to its end, [settled] being the outcome of the three
    fetches. *)
Definition loadNetwork (networkId : String.string) (settled : Settled) (s : state) : state :=
  if alreadyLoaded networkId s then s
  else
    let s := loadNetwork_begin networkId s in
    match settled with
    | Fulfilled nl _ ks =>
        mkState (Some networkId) (Some (mkNetworkData nl ks)) false (error s)
    | Rejected message =>
        mkState (currentNetworkId s) None false (Some (errorMessage message))
    end.

Definition clearNetwork (s : state) : state :=
  mkState None None (isLoading s) None.

End Provider.
End NetworkContext.

Module ControlPanel.
Import Stdlib.Strings.String.
Local Open Scope string_scope.

Section Panel.
Variable Json : Type.

(** The two contexts the panel reads and writes. *)
Record App := mkApp {
  selection : SelectionContext.state;
  network : NetworkContext.state Json
}.

(** [handleNetworkChange]: [value] is the chosen option's value. *)
Definition handleNetworkChange (value : String.string)
    (settled : NetworkContext.Settled Json) (app : App) : App :=
  if String.eqb value "" then app
  else mkApp (SelectionContext.clearAllSelections (selection app))
             (NetworkContext.loadNetwork Json value settled (network app)).

(** [selectedNodes.size > 0 || selectedEdges.size > 0] *)
Definition hasSelections (s : SelectionContext.state) : bool :=
  Nat.ltb 0 (size (SelectionContext.selectedNodes s))
  || Nat.ltb 0 (size (SelectionContext.selectedEdges s)).

(** The network the mount effect asks for. *)
Definition defaultNetworkId : String.string := "karate-club".

(** The mount effect: with no current network, load ['karate-club']. *)
Definition autoLoad (settled : NetworkContext.Settled Json) (app : App) : App :=
  match NetworkContext.currentNetworkId Json (network app) with
  | Some i =>
      if String.eqb i "" then
        mkApp (selection app)
              (NetworkContext.loadNetwork Json defaultNetworkId settled (network app))
      else app
  | None =>
      mkApp (selection app)
            (NetworkContext.loadNetwork Json defaultNetworkId settled (network app))
  end.

End Panel.
End ControlPanel.

(* ===================================================================== *)
(** * Properties of the selection store *)
(* ===================================================================== *)

Section SelectionFacts.
Import SelectionContext.

Lemma newSet_nil : newSet [] = ∅.
Proof. reflexivity. Qed.

Lemma toggle_present (i : Z) (s : gset Z) : i ∈ s → toggle i s = s ∖ {[i]}.
Proof. intros Hi. unfold toggle. by rewrite bool_decide_eq_true_2. Qed.

Lemma toggle_absent (i : Z) (s : gset Z) : i ∉ s → toggle i s = s ∪ {[i]}.
Proof. intros Hi. unfold toggle. by rewrite bool_decide_eq_false_2. Qed.

Lemma toggle_elem_of (i j : Z) (s : gset Z) :
  j ∈ toggle i s ↔ (j = i ∧ i ∉ s) ∨ (j ≠ i ∧ j ∈ s).
Proof.
  destruct (decide (i ∈ s)) as [Hi|Hi].
  - rewrite toggle_present by done. set_solver.
  - rewrite toggle_absent by done.
    destruct (decide (j = i)); set_solver.
Qed.

Lemma toggle_changes (i : Z) (s : gset Z) : toggle i s ≠ s.
Proof.
  intros Heq. pose proof (toggle_elem_of i i s) as H. rewrite Heq in H.
  destruct (decide (i ∈ s)); naive_solver.
Qed.

Lemma toggle_toggle (i : Z) (s : gset Z) : toggle i (toggle i s) = s.
Proof.
  apply set_eq. intros j. rewrite !toggle_elem_of.
  destruct (decide (j = i)) as [->|]; destruct (decide (i ∈ s)); naive_solver.
Qed.

Lemma addAll_elem_of (a : list Z) (s : gset Z) (j : Z) :
  j ∈ addAll a s ↔ j ∈ s ∨ j ∈ a.
Proof.
  unfold addAll. revert s. induction a as [|b a IH]; intros s; simpl.
  - set_solver.
  - rewrite IH. set_solver.
Qed.

Lemma deleteAll_elem_of (a : list Z) (s : gset Z) (j : Z) :
  j ∈ deleteAll a s ↔ j ∈ s ∧ j ∉ a.
Proof.
  unfold deleteAll. revert s. induction a as [|b a IH]; intros s; simpl.
  - set_solver.
  - rewrite IH. set_solver.
Qed.

End SelectionFacts.

(** C4 (as the code has it): [hoverNodes ids] replaces the hovered-node
    set by exactly the set of [ids], whatever it held before, and leaves
    the hovered-edge set as it was; in particular hovering [a, b] and
    then [c] leaves exactly [{c}], and hovering the empty list empties
    the hovered-node set only.  [clearHover] empties the hovered-node
    and the hovered-edge set together.  Edges are symmetric. *)
Theorem hover_replaces_wholesale :
  (∀ (ids : list Z) (s : SelectionContext.state),
      SelectionContext.hoveredNodes (SelectionContext.hoverNodes ids s) = list_to_set ids
      ∧ SelectionContext.hoveredEdges (SelectionContext.hoverNodes ids s)
        = SelectionContext.hoveredEdges s)
  ∧ (∀ (ids : list Z) (s : SelectionContext.state),
      SelectionContext.hoveredEdges (SelectionContext.hoverEdges ids s) = list_to_set ids
      ∧ SelectionContext.hoveredNodes (SelectionContext.hoverEdges ids s)
        = SelectionContext.hoveredNodes s)
  ∧ (∀ (a b c : Z) (s : SelectionContext.state),
      SelectionContext.hoveredNodes
        (SelectionContext.hoverNodes [c] (SelectionContext.hoverNodes [a; b] s)) = {[c]})
  ∧ (∀ s : SelectionContext.state,
      SelectionContext.hoveredNodes (SelectionContext.hoverNodes [] s) = ∅)
  ∧ (∀ s : SelectionContext.state,
      SelectionContext.hoveredNodes (SelectionContext.clearHover s) = ∅
      ∧ SelectionContext.hoveredEdges (SelectionContext.clearHover s) = ∅).
Proof.
  repeat split; try reflexivity.
  intros a b c s. simpl. unfold SelectionContext.newSet. set_solver.
Qed.

(** C4, as stated, fails: after an edge has been hovered, hovering the
    empty set of nodes leaves that edge in the hovered-edge set, so it
    does not empty both hovered sets. *)
Lemma hover_empty_keeps_hovered_edges :
  ¬ (∀ s : SelectionContext.state,
       SelectionContext.hoveredNodes (SelectionContext.hoverNodes [] s) = ∅
       ∧ SelectionContext.hoveredEdges (SelectionContext.hoverNodes [] s) = ∅).
Proof.
  intros H.
  destruct (H (SelectionContext.hoverEdge 7 SelectionContext.initial)) as [_ He].
  simpl in He. unfold SelectionContext.newSet in He.
  assert (Hin : (7 : Z) ∈ (∅ : gset Z)) by (rewrite <- He; set_solver).
  set_solver.
Qed.

(** C5: [toggleNodeSelection i] removes [i] when it is selected and
    adds it when it is not, touching no other identifier; the selected
    set after the call always differs from the one before; and two
    calls in succession restore the store.  The same holds for
    [toggleEdgeSelection]. *)
Theorem toggleSelection_flips_and_is_involutive (i : Z) (s : SelectionContext.state) :
  let sn := SelectionContext.selectedNodes in
  let se := SelectionContext.selectedEdges in
  let tn := SelectionContext.toggleNodeSelection i in
  let te := SelectionContext.toggleEdgeSelection i in
  (sn (tn s) = if bool_decide (i ∈ sn s) then sn s ∖ {[i]} else sn s ∪ {[i]})
  ∧ (i ∈ sn (tn s) ↔ i ∉ sn s)
  ∧ (∀ j, j ≠ i → (j ∈ sn (tn s) ↔ j ∈ sn s))
  ∧ sn (tn s) ≠ sn s
  ∧ tn (tn s) = s
  ∧ (se (te s) = if bool_decide (i ∈ se s) then se s ∖ {[i]} else se s ∪ {[i]})
  ∧ (i ∈ se (te s) ↔ i ∉ se s)
  ∧ (∀ j, j ≠ i → (j ∈ se (te s) ↔ j ∈ se s))
  ∧ se (te s) ≠ se s
  ∧ te (te s) = s.
Proof.
  destruct s as [hn he sn0 se0]. cbn.
  pose proof (toggle_elem_of i) as Hmem.
  pose proof (toggle_changes i) as Hne.
  pose proof (toggle_toggle i) as Hinv.
  repeat split; try (intros ?); try done.
  all: try (rewrite Hmem in *; naive_solver).
  all: try (by eapply Hne).
  all: unfold SelectionContext.toggleNodeSelection, SelectionContext.toggleEdgeSelection,
         SelectionContext.setSelectedNodes, SelectionContext.setSelectedEdges; cbn;
       by rewrite Hinv.
Qed.

(** C8: [isNodeHighlighted i] is true exactly when [i] is in the union
    of the hovered-node and the selected-node set, and likewise
    [isEdgeHighlighted] for the edge sets; once both sets of a kind are
    empty, in particular after [clearAllSelections], nothing of that
    kind is highlighted. *)
Theorem isHighlighted_iff_hovered_or_selected :
  (∀ (i : Z) (s : SelectionContext.state),
      SelectionContext.isNodeHighlighted i s = true
      ↔ i ∈ SelectionContext.hoveredNodes s ∪ SelectionContext.selectedNodes s)
  ∧ (∀ (i : Z) (s : SelectionContext.state),
      SelectionContext.isEdgeHighlighted i s = true
      ↔ i ∈ SelectionContext.hoveredEdges s ∪ SelectionContext.selectedEdges s)
  ∧ (∀ (i : Z) (s : SelectionContext.state),
      SelectionContext.isNodeHighlighted i (SelectionContext.clearAllSelections s) = false
      ∧ SelectionContext.isEdgeHighlighted i (SelectionContext.clearAllSelections s) = false)
  ∧ (∀ (i : Z) (s : SelectionContext.state),
      SelectionContext.isNodeHighlighted i
        (SelectionContext.clearSelectedNodes (SelectionContext.clearHoveredNodes s)) = false
      ∧ SelectionContext.isEdgeHighlighted i
        (SelectionContext.clearSelectedEdges (SelectionContext.clearHoveredEdges s)) = false)
  ∧ (∀ (i : Z) (s : SelectionContext.state),
      SelectionContext.hoveredNodes s = ∅ → SelectionContext.selectedNodes s = ∅ →
      SelectionContext.isNodeHighlighted i s = false)
  ∧ (∀ (i : Z) (s : SelectionContext.state),
      SelectionContext.hoveredEdges s = ∅ → SelectionContext.selectedEdges s = ∅ →
      SelectionContext.isEdgeHighlighted i s = false).
Proof.
  assert (Hor : ∀ (i : Z) (a b : gset Z),
             bool_decide (i ∈ a) || bool_decide (i ∈ b) = true ↔ i ∈ a ∪ b).
  { intros i a b. rewrite orb_true_iff, !bool_decide_eq_true. set_solver. }
  split_and!.
  - intros i s. apply Hor.
  - intros i s. apply Hor.
  - intros i s. split; reflexivity.
  - intros i s. split; reflexivity.
  - intros i s Hh Hs. unfold SelectionContext.isNodeHighlighted.
    rewrite Hh, Hs. reflexivity.
  - intros i s Hh Hs. unfold SelectionContext.isEdgeHighlighted.
    rewrite Hh, Hs. reflexivity.
Qed.

(** C9: every node-scoped operation leaves both edge sets unchanged and
    every edge-scoped operation leaves both node sets unchanged; no
    hover operation changes a selected set and no selection operation
    changes a hovered set.  Put together: each of the fourteen handlers
    writes one of the four sets and leaves the other three as they
    were. *)
Theorem handlers_write_only_their_own_set :
  (∀ i, SelectionContext.writesOnlyHoveredNodes (SelectionContext.hoverNode i))
  ∧ (∀ a, SelectionContext.writesOnlyHoveredNodes (SelectionContext.hoverNodes a))
  ∧ SelectionContext.writesOnlyHoveredNodes SelectionContext.clearHoveredNodes
  ∧ (∀ i, SelectionContext.writesOnlySelectedNodes (SelectionContext.toggleNodeSelection i))
  ∧ (∀ a, SelectionContext.writesOnlySelectedNodes (SelectionContext.selectNodes a))
  ∧ (∀ a, SelectionContext.writesOnlySelectedNodes (SelectionContext.deselectNodes a))
  ∧ SelectionContext.writesOnlySelectedNodes SelectionContext.clearSelectedNodes
  ∧ (∀ i, SelectionContext.writesOnlyHoveredEdges (SelectionContext.hoverEdge i))
  ∧ (∀ a, SelectionContext.writesOnlyHoveredEdges (SelectionContext.hoverEdges a))
  ∧ SelectionContext.writesOnlyHoveredEdges SelectionContext.clearHoveredEdges
  ∧ (∀ i, SelectionContext.writesOnlySelectedEdges (SelectionContext.toggleEdgeSelection i))
  ∧ (∀ a, SelectionContext.writesOnlySelectedEdges (SelectionContext.selectEdges a))
  ∧ (∀ a, SelectionContext.writesOnlySelectedEdges (SelectionContext.deselectEdges a))
  ∧ SelectionContext.writesOnlySelectedEdges SelectionContext.clearSelectedEdges.
Proof.
  split_and!; try intros ?; (split_and!; intros s; reflexivity).
Qed.

(* ===================================================================== *)
(** * Properties of the viewport controller *)
(* ===================================================================== *)

Section ZoomFacts.
Import D3Zoom.
Local Open Scope Q_scope.

Lemma Qeq_bool_false_ne (a b : Q) : ¬ a == b → Qeq_bool a b = false.
Proof.
  intros Hne. destruct (Qeq_bool a b) eqn:E; [|reflexivity].
  apply Qeq_bool_iff in E. contradiction.
Qed.

Lemma Qeq_bool_false_lt (a : Q) : 0 < a → Qeq_bool a 0 = false.
Proof.
  intros Ha. destruct (Qeq_bool a 0) eqn:E; [|reflexivity].
  apply Qeq_bool_iff in E. lra.
Qed.

(** The transform [zoomIdentity.translate(tx, ty).scale(s)], whichever
    shortcuts the two methods take. *)
Lemma identity_translate_scale (tx ty s : Q) :
  let t := Transform_scale (Transform_translate zoomIdentity tx ty) s in
  k t == s ∧ x t == tx ∧ y t == ty.
Proof.
  unfold Transform_scale, Transform_translate.
  destruct (Qeq_bool s 1) eqn:Es;
    destruct (Qeq_bool tx 0 && Qeq_bool ty 0) eqn:Et; cbn.
  all: try (apply Qeq_bool_iff in Es).
  all: try (apply andb_true_iff in Et; destruct Et as [Ex Ey];
            apply Qeq_bool_iff in Ex; apply Qeq_bool_iff in Ey).
  all: repeat split; lra.
Qed.

Lemma min3_le_r (a b c : Q) : UseZoomPan.min3 a b c <= c.
Proof. unfold UseZoomPan.min3. apply Q.le_min_r. Qed.

Lemma scale_k_eq (se : Q * Q) (t : Transform) (k1 : Q) :
  k (scale se t k1) == Qmax (fst se) (Qmin (snd se) k1).
Proof.
  unfold scale.
  destruct (Qeq_bool (Qmax (fst se) (Qmin (snd se) k1)) (k t)) eqn:E; cbn.
  - apply Qeq_bool_iff in E. lra.
  - reflexivity.
Qed.

Lemma clamp_lower (lo hi k1 : Q) : lo <= Qmax lo (Qmin hi k1).
Proof. apply Q.le_max_l. Qed.

Lemma clamp_upper (lo hi k1 : Q) : lo <= hi → Qmax lo (Qmin hi k1) <= hi.
Proof. intros H. apply Q.max_lub; [exact H | apply Q.le_min_l]. Qed.

Lemma scale_k_bounds (se : Q * Q) (t : Transform) (k1 : Q) :
  fst se <= snd se →
  fst se <= k (scale se t k1) ∧ k (scale se t k1) <= snd se.
Proof.
  intros H. rewrite scale_k_eq. split; [apply clamp_lower | by apply clamp_upper].
Qed.

Lemma translate_k (t : Transform) (p0 p1 : Point) : k (translate t p0 p1) = k t.
Proof. unfold translate. by destruct (_ && _). Qed.

Lemma Transform_translate_k (t : Transform) (dx dy : Q) :
  k (Transform_translate t dx dy) = k t.
Proof. unfold Transform_translate. by destruct (_ && _). Qed.

Lemma constrain_k (te : option Extent) (t : Transform) (e : Extent) :
  k (constrain te t e) = k t.
Proof. unfold constrain. destruct te; [apply Transform_translate_k | reflexivity]. Qed.

Lemma scaleBy_k_bounds (se : Q * Q) (te : option Extent) (e : Extent)
    (t : Transform) (f : Q) :
  fst se <= snd se →
  fst se <= k (scaleBy se te e t f) ∧ k (scaleBy se te e t f) <= snd se.
Proof.
  intros H. unfold scaleBy, scaleTo. rewrite constrain_k, translate_k.
  by apply scale_k_bounds.
Qed.

Lemma gesture_k_bounds (se : Q * Q) (te : option Extent) (e : Extent)
    (t : Transform) (g : UseZoomPan.Gesture) :
  fst se <= snd se →
  let t' := match g with
            | UseZoomPan.GWheel factor p p1 => wheeled se te e t factor p p1
            | UseZoomPan.GPan p p1 => mousemoved te e t p p1
            | UseZoomPan.GDblClick shiftKey p => dblclicked se te e t shiftKey p
            | UseZoomPan.GPinch k1 p l => touchmoved se te e t (Some k1) p l
            | UseZoomPan.GTouchPan p l => touchmoved se te e t None p l
            end in
  (fst se <= k t → fst se <= k t') ∧ (k t <= snd se → k t' <= snd se).
Proof.
  intros H. destruct g; cbn;
    unfold wheeled, mousemoved, dblclicked, touchmoved;
    rewrite constrain_k, translate_k;
    try (pose proof (scale_k_bounds se t) as Hs; split; intros _; by apply Hs);
    done.
Qed.

End ZoomFacts.

Section ControllerFacts.
Import D3Zoom UseZoomPan.
Local Open Scope Q_scope.

Lemma step_config (h : Hook) (o : Op) : config (step h o) = config h.
Proof.
  destruct o; cbn;
    unfold zoomIn, zoomOut, resetZoom, fitToContent, setZoomTransform, gesture, gestureOn,
      setFilter;
    repeat case_match; reflexivity.
Qed.

Lemma run_config (ops : list Op) (h : Hook) : config (run ops h) = config h.
Proof.
  revert h. induction ops as [|o ops IH]; intros h; [reflexivity|].
  cbn. unfold run in IH. rewrite IH. apply step_config.
Qed.

(** [fitToContent] returns early or installs a scale capped by the
    upper end of the extent. *)
Lemma fitToContent_target_upper (h : Hook) (b : option Bounds) (p : Q) :
  fitToContent h b p = h
  ∨ k (transform (fitToContent h b p)) <= snd (scaleExtent (config h)).
Proof.
  unfold fitToContent.
  destruct (svgRef h) as [r|]; [|by left].
  destruct b as [b|]; [|by left].
  destruct (_ || _); [by left|]. right.
  unfold setTransform, D3Zoom.transform. cbn [transform config].
  match goal with
  | |- k (Transform_scale (Transform_translate _ ?tx ?ty) ?s) <= _ =>
      destruct (identity_translate_scale tx ty s) as [-> _]
  end.
  apply min3_le_r.
Qed.

Lemma zoomIn_k (h : Hook) (r : Rect) :
  svgRef h = Some r →
  k (transform (zoomIn h))
  == Qmax (fst (scaleExtent (config h)))
          (Qmin (snd (scaleExtent (config h)))
                (k (transform h) * (1 + zoomStep (config h)))).
Proof.
  intros Hsvg. unfold zoomIn. rewrite Hsvg. cbn [setTransform transform].
  unfold scaleBy, scaleTo. rewrite constrain_k, translate_k. apply scale_k_eq.
Qed.

Lemma zoomOut_k (h : Hook) (r : Rect) :
  svgRef h = Some r →
  k (transform (zoomOut h))
  == Qmax (fst (scaleExtent (config h)))
          (Qmin (snd (scaleExtent (config h)))
                (k (transform h) * (1 / (1 + zoomStep (config h))))).
Proof.
  intros Hsvg. unfold zoomOut. rewrite Hsvg. cbn [setTransform transform].
  unfold scaleBy, scaleTo. rewrite constrain_k, translate_k. apply scale_k_eq.
Qed.

Lemma zoomIn_config (h : Hook) : config (zoomIn h) = config h.
Proof. exact (step_config h OpZoomIn). Qed.

Lemma zoomOut_config (h : Hook) : config (zoomOut h) = config h.
Proof. exact (step_config h OpZoomOut). Qed.

(** A gesture is ignored or installs the transform of its handler. *)
Lemma gestureOn_cases (g : Gesture) (onNode ctrl : bool) (btn : Z) (h : Hook) :
  gestureOn g onNode ctrl btn h = h
  ∨ gestureOn g onNode ctrl btn h
    = setTransform
        match g with
        | GWheel factor p p1 =>
            wheeled (scaleExtent (config h)) (translateExtent (config h)) (extent h)
                    (transform h) factor p p1
        | GPan p p1 => mousemoved (translateExtent (config h)) (extent h) (transform h) p p1
        | GDblClick shiftKey p =>
            dblclicked (scaleExtent (config h)) (translateExtent (config h)) (extent h)
                       (transform h) shiftKey p
        | GPinch k1 p l =>
            touchmoved (scaleExtent (config h)) (translateExtent (config h)) (extent h)
                       (transform h) (Some k1) p l
        | GTouchPan p l =>
            touchmoved (scaleExtent (config h)) (translateExtent (config h)) (extent h)
                       (transform h) None p l
        end h.
Proof.
  unfold gestureOn. destruct (svgRef h); [|by left].
  destruct (accepts _ _); [by right | by left].
Qed.

Lemma gestureOn_config (g : Gesture) (onNode ctrl : bool) (btn : Z) (h : Hook) :
  config (gestureOn g onNode ctrl btn h) = config h.
Proof. destruct (gestureOn_cases g onNode ctrl btn h) as [-> | ->]; reflexivity. Qed.

End ControllerFacts.

(** C2 (as the code has it): take a controller attached to an svg, with
    a scale extent [[min, max]] where [min <= max], showing any
    transform of scale [k] whatever (a frame of a running transition
    included).  The transform zoomIn installs has scale
    [max(min, min(max, k * (1 + zoomStep)))] and the one zoomOut
    installs has scale [max(min, min(max, k / (1 + zoomStep)))]; both
    lie within the extent, so no number of zoomIn steps ends above
    [max] and no number of zoomOut steps ends below [min].  A wheel
    step, double click or pinch is either ignored (the filter rejects
    it) or installs a scale within the extent; a drag, with the mouse
    or one finger, keeps the scale.
    reset installs the identity, of scale 1, whatever the extent;
    [fitToContent] returns early or installs a scale that is at most
    [max] (it is not raised to [min]); [setZoomTransform] installs the
    given transform as it is.  For the animated calls (zoomIn, zoomOut,
    reset, fitToContent, double click) the transform installed is the
    one their transition ends in; the interpolated transforms shown on
    the way are not the subject of this statement. *)
Theorem zoom_steps_and_gestures_install_clamped_scales
    (h : UseZoomPan.Hook) (r : UseZoomPan.Rect) :
  let lo := fst (UseZoomPan.scaleExtent (UseZoomPan.config h)) in
  let hi := snd (UseZoomPan.scaleExtent (UseZoomPan.config h)) in
  let step := (1 + UseZoomPan.zoomStep (UseZoomPan.config h))%Q in
  let kt := D3Zoom.k (UseZoomPan.transform h) in
  UseZoomPan.svgRef h = Some r →
  (lo <= hi)%Q →
  (D3Zoom.k (UseZoomPan.transform (UseZoomPan.zoomIn h)) == Qmax lo (Qmin hi (kt * step)))%Q
  ∧ (D3Zoom.k (UseZoomPan.transform (UseZoomPan.zoomOut h))
     == Qmax lo (Qmin hi (kt * (1 / step))))%Q
  ∧ UseZoomPan.scaleWithinExtent (UseZoomPan.zoomIn h)
  ∧ UseZoomPan.scaleWithinExtent (UseZoomPan.zoomOut h)
  ∧ (∀ g onNode ctrl btn,
       UseZoomPan.isPan g = false →
       UseZoomPan.gestureOn g onNode ctrl btn h = h
       ∨ UseZoomPan.scaleWithinExtent (UseZoomPan.gestureOn g onNode ctrl btn h))
  ∧ (∀ g onNode ctrl btn,
       UseZoomPan.isPan g = true →
       D3Zoom.k (UseZoomPan.transform (UseZoomPan.gestureOn g onNode ctrl btn h)) = kt)
  ∧ UseZoomPan.transform (UseZoomPan.resetZoom h) = D3Zoom.zoomIdentity
  ∧ (∀ b p,
       UseZoomPan.fitToContent h b p = h
       ∨ (D3Zoom.k (UseZoomPan.transform (UseZoomPan.fitToContent h b p)) <= hi)%Q)
  ∧ (∀ t, UseZoomPan.transform (UseZoomPan.setZoomTransform t h) = t).
Proof.
  intros lo hi step kt Hsvg Hle.
  assert (Hin : ∀ v, (lo <= Qmax lo (Qmin hi v) ∧ Qmax lo (Qmin hi v) <= hi)%Q).
  { intros v. split; [apply clamp_lower | by apply clamp_upper]. }
  pose proof (zoomIn_k h r Hsvg) as Hzi.
  pose proof (zoomOut_k h r Hsvg) as Hzo.
  fold lo hi step kt in Hzi, Hzo.
  split_and!.
  - exact Hzi.
  - exact Hzo.
  - unfold UseZoomPan.scaleWithinExtent.
    rewrite zoomIn_config. fold lo hi.
    rewrite Hzi. apply Hin.
  - unfold UseZoomPan.scaleWithinExtent.
    rewrite zoomOut_config. fold lo hi.
    rewrite Hzo. apply Hin.
  - intros g onNode ctrl btn Hg.
    destruct (gestureOn_cases g onNode ctrl btn h) as [Hsame | Hdone]; [by left | right].
    unfold UseZoomPan.scaleWithinExtent. rewrite gestureOn_config. fold lo hi.
    rewrite Hdone. cbn [UseZoomPan.transform UseZoomPan.setTransform].
    destruct g; try discriminate Hg;
      unfold D3Zoom.wheeled, D3Zoom.dblclicked, D3Zoom.touchmoved;
      rewrite constrain_k, translate_k, scale_k_eq; apply Hin.
  - intros g onNode ctrl btn Hg.
    destruct (gestureOn_cases g onNode ctrl btn h) as [-> | ->]; [reflexivity|].
    cbn [UseZoomPan.transform UseZoomPan.setTransform].
    destruct g; try discriminate Hg;
      unfold D3Zoom.mousemoved, D3Zoom.touchmoved; by rewrite constrain_k, translate_k.
  - unfold UseZoomPan.resetZoom. by rewrite Hsvg.
  - intros b p. apply fitToContent_target_upper.
  - intros t. unfold UseZoomPan.setZoomTransform. by rewrite Hsvg.
Qed.

(** C2 on the node-link pane, extent [0.1, 4], 300 x 200: from the
    transform of scale 4 that eight zoomIn steps from the identity end
    in, panned to x = -255.9, one more zoomIn installs scale 4 again
    (4 * 1.25 = 5 unclamped), within the extent. *)
Lemma zoom_steps_and_gestures_install_clamped_scales_witness :
  let h := UseZoomPan.setTransform (D3Zoom.mkTransform 4 (-2559 # 10) 0)
             (UseZoomPan.mount UseZoomPan.DEFAULT_OPTIONS
                (Some (UseZoomPan.mkRect 300 200))) in
  (D3Zoom.k (UseZoomPan.transform (UseZoomPan.zoomIn h)) == 4)%Q
  ∧ UseZoomPan.scaleWithinExtent (UseZoomPan.zoomIn h).
Proof.
  intros h.
  destruct (zoom_steps_and_gestures_install_clamped_scales h (UseZoomPan.mkRect 300 200)
              eq_refl ltac:(vm_compute; discriminate)) as (Hk & _ & Hin & _).
  split; [|exact Hin].
  eapply Qeq_trans; [exact Hk|]. vm_compute. reflexivity.
Defined.

(** C2, as stated, fails: on the default extent [0.1, 4], fitting a
    10000 x 10000 content rectangle into a 200 x 200 surface sets the
    scale to 0.02, below the lower end of the extent; and a direct
    assignment of scale 10 is kept although it is above the upper
    end. *)
Lemma fitToContent_leaves_scale_extent :
  ¬ UseZoomPan.scaleWithinExtent
      (UseZoomPan.run
         [UseZoomPan.OpFit (Some (UseZoomPan.mkBounds 0 0 10000 10000)) 0]
         (UseZoomPan.mount UseZoomPan.DEFAULT_OPTIONS (Some (UseZoomPan.mkRect 200 200))))
  ∧ ¬ UseZoomPan.scaleWithinExtent
      (UseZoomPan.run
         [UseZoomPan.OpSetTransform (D3Zoom.mkTransform 10 0 0)]
         (UseZoomPan.mount UseZoomPan.DEFAULT_OPTIONS (Some (UseZoomPan.mkRect 200 200)))).
Proof.
  split.
  - intros [Hl _]. vm_compute in Hl. by apply Hl.
  - intros [_ Hu]. vm_compute in Hu. by apply Hu.
Qed.

(** C3: on a surface [W x H] and bounds of positive width and height,
    [fitToContent] installs the transform whose scale is
    [min((W - 2p) / width, (H - 2p) / height, scaleExtent.max)] and
    whose translation is [W/2 - scale * (x + width/2)],
    [H/2 - scale * (y + height/2)]; this transform sends the centre of
    the bounds to the centre of the surface. *)
Theorem fitToContent_scale_and_centering
    (h : UseZoomPan.Hook) (r : UseZoomPan.Rect) (b : UseZoomPan.Bounds) (p : Q) :
  UseZoomPan.svgRef h = Some r →
  (0 < UseZoomPan.width r)%Q → (0 < UseZoomPan.height r)%Q →
  (0 < UseZoomPan.bwidth b)%Q → (0 < UseZoomPan.bheight b)%Q →
  let W := UseZoomPan.width r in
  let H := UseZoomPan.height r in
  let scale :=
    UseZoomPan.min3 ((W - 2 * p) / UseZoomPan.bwidth b)
                    ((H - 2 * p) / UseZoomPan.bheight b)
                    (snd (UseZoomPan.scaleExtent (UseZoomPan.config h))) in
  let centerX := (UseZoomPan.bx b + UseZoomPan.bwidth b / 2)%Q in
  let centerY := (UseZoomPan.by_ b + UseZoomPan.bheight b / 2)%Q in
  let t := UseZoomPan.transform (UseZoomPan.fitToContent h (Some b) p) in
  (D3Zoom.k t == scale)%Q
  ∧ (D3Zoom.x t == W / 2 - scale * centerX)%Q
  ∧ (D3Zoom.y t == H / 2 - scale * centerY)%Q
  ∧ D3Zoom.Point_eq (D3Zoom.Transform_apply t (centerX, centerY)) (W / 2, H / 2)%Q.
Proof.
  intros Hsvg HW HH Hbw Hbh W H scale centerX centerY t.
  assert (Hscale : (scale ==
            UseZoomPan.min3 ((W - p * 2) / UseZoomPan.bwidth b)
                            ((H - p * 2) / UseZoomPan.bheight b)
                            (snd (UseZoomPan.scaleExtent (UseZoomPan.config h))))%Q).
  { unfold scale, UseZoomPan.min3.
    apply Q.min_compat; [|reflexivity].
    apply Q.min_compat; apply Qmult_comp; try reflexivity; ring. }
  assert (Ht : (D3Zoom.k t == scale ∧ D3Zoom.x t == W / 2 - scale * centerX
                ∧ D3Zoom.y t == H / 2 - scale * centerY)%Q).
  { unfold t, UseZoomPan.fitToContent. rewrite Hsvg.
    rewrite (Qeq_bool_false_lt _ HW), (Qeq_bool_false_lt _ HH),
            (Qeq_bool_false_lt _ Hbw), (Qeq_bool_false_lt _ Hbh).
    cbn [orb]. unfold UseZoomPan.setTransform, D3Zoom.transform.
    cbn [UseZoomPan.transform].
    match goal with
    | |- (D3Zoom.k (D3Zoom.Transform_scale (D3Zoom.Transform_translate _ ?tx ?ty) ?s) == _
          ∧ _)%Q =>
        destruct (identity_translate_scale tx ty s) as (-> & -> & ->)
    end.
    fold W H centerX centerY. rewrite <- Hscale. repeat split; reflexivity. }
  destruct Ht as (Hk & Hx & Hy).
  repeat split; try assumption; unfold D3Zoom.Transform_apply; cbn [fst snd].
  - rewrite Hk, Hx. ring.
  - rewrite Hk, Hy. ring.
Qed.

(** C3 at the specification's example: bounds [{0, 0, 100, 50}] on a
    200 x 200 surface with padding 0 and maximal scale 4 give scale 2,
    and the point (50, 25) is sent to (100, 100). *)
Lemma fitToContent_scale_and_centering_witness :
  let h := UseZoomPan.mount UseZoomPan.DEFAULT_OPTIONS (Some (UseZoomPan.mkRect 200 200)) in
  let t := UseZoomPan.transform
             (UseZoomPan.fitToContent h (Some (UseZoomPan.mkBounds 0 0 100 50)) 0) in
  (D3Zoom.k t == 2)%Q
  ∧ D3Zoom.Point_eq (D3Zoom.Transform_apply t (50, 25)%Q) (100, 100)%Q.
Proof.
  intros h t.
  destruct (fitToContent_scale_and_centering h (UseZoomPan.mkRect 200 200)
              (UseZoomPan.mkBounds 0 0 100 50) 0 eq_refl
              ltac:(reflexivity) ltac:(reflexivity) ltac:(reflexivity) ltac:(reflexivity))
    as (Hk & _ & _ & Hx & Hy).
  fold h t in Hk, Hx, Hy.
  split; [|split].
  - eapply Qeq_trans; [exact Hk | vm_compute; reflexivity].
  - eapply Qeq_trans; [|eapply Qeq_trans; [exact Hx|]]; vm_compute; reflexivity.
  - eapply Qeq_trans; [|eapply Qeq_trans; [exact Hy|]]; vm_compute; reflexivity.
Defined.

(** C6: [fitToContent] is a silent no-op whenever the bounds have zero
    width or zero height or the surface has zero width or zero height:
    the hook state, and with it the viewport transform, is returned
    unchanged. *)
Theorem fitToContent_degenerate_is_noop
    (h : UseZoomPan.Hook) (b : UseZoomPan.Bounds) (p : Q) :
  ((UseZoomPan.bwidth b == 0)%Q ∨ (UseZoomPan.bheight b == 0)%Q
   ∨ ∃ r, UseZoomPan.svgRef h = Some r
          ∧ ((UseZoomPan.width r == 0)%Q ∨ (UseZoomPan.height r == 0)%Q)) →
  UseZoomPan.fitToContent h (Some b) p = h.
Proof.
  intros Hdeg. unfold UseZoomPan.fitToContent.
  destruct (UseZoomPan.svgRef h) as [r|]; [|reflexivity].
  assert (Hguard : Qeq_bool (UseZoomPan.width r) 0 || Qeq_bool (UseZoomPan.height r) 0
                   || Qeq_bool (UseZoomPan.bwidth b) 0 || Qeq_bool (UseZoomPan.bheight b) 0
                   = true).
  { rewrite !orb_true_iff, !Qeq_bool_iff.
    destruct Hdeg as [Hw | [Hh | (r' & Hr & [Hw | Hh])]]; try (injection Hr as <-); tauto. }
  by rewrite Hguard.
Qed.

(** C6 at the specification's example: after two zoomIn steps,
    [fitToContent({x:0, y:0, width:0, height:10})] changes nothing. *)
Lemma fitToContent_degenerate_is_noop_witness :
  let h := UseZoomPan.zoomIn
             (UseZoomPan.zoomIn
                (UseZoomPan.mount UseZoomPan.DEFAULT_OPTIONS
                   (Some (UseZoomPan.mkRect 200 200)))) in
  UseZoomPan.fitToContent h (Some (UseZoomPan.mkBounds 0 0 0 10)) 0 = h.
Proof.
  intros h.
  apply (fitToContent_degenerate_is_noop h (UseZoomPan.mkBounds 0 0 0 10) 0).
  left. reflexivity.
Defined.

(* ===================================================================== *)
(** * Properties of the node-link pane *)
(* ===================================================================== *)

Section ForceFacts.
Import D3Force.

Lemma nodeById_snoc (id : SimNode → Z) (ns : list SimNode) (n : SimNode) :
  nodeById id (ns ++ [n]) = <[id n := length ns]> (nodeById id ns).
Proof.
  unfold nodeById. rewrite imap_app, fold_left_app. cbn.
  by rewrite Nat.add_0_r.
Qed.

(** An identifier found in the map leads to a node carrying it. *)
Lemma nodeById_sound (id : SimNode → Z) (ns : list SimNode) (z : Z) (i : nat) :
  nodeById id ns !! z = Some i → ∃ n, ns !! i = Some n ∧ id n = z.
Proof.
  revert i. induction ns as [|n ns IH] using rev_ind; intros i.
  - unfold nodeById. cbn. by rewrite lookup_empty.
  - rewrite nodeById_snoc. destruct (decide (id n = z)) as [Heq|Hne].
    + rewrite Heq, lookup_insert_eq. intros [= <-].
      exists n. split; [|exact Heq].
      by rewrite lookup_app_r, Nat.sub_diag.
    + rewrite lookup_insert_ne by done. intros Hi.
      destruct (IH i Hi) as (n' & Hn' & Hid). exists n'. split; [|exact Hid].
      by apply lookup_app_l_Some.
Qed.

(** Every identifier carried by a node is found. *)
Lemma nodeById_complete (id : SimNode → Z) (ns : list SimNode) (z : Z) :
  z ∈ map id ns → is_Some (nodeById id ns !! z).
Proof.
  induction ns as [|n ns IH] using rev_ind.
  - intros H. by apply elem_of_nil in H.
  - rewrite map_app, elem_of_app, nodeById_snoc. cbn. intros [H|H].
    + destruct (decide (id n = z)) as [Heq|Hne].
      * rewrite Heq, lookup_insert_eq. by eexists.
      * rewrite lookup_insert_ne by done. by apply IH.
    + apply list_elem_of_singleton in H. rewrite <- H, lookup_insert_eq. by eexists.
Qed.

Lemma nodeById_None (id : SimNode → Z) (ns : list SimNode) (z : Z) :
  z ∉ map id ns → nodeById id ns !! z = None.
Proof.
  intros Hz. destruct (nodeById id ns !! z) as [i|] eqn:E; [|reflexivity].
  destruct (nodeById_sound _ _ _ _ E) as (n & Hn & Hid). exfalso. apply Hz.
  rewrite <- Hid. apply (list_elem_of_fmap_2 id). by eapply list_elem_of_lookup_2.
Qed.

(** A successful resolution answers link by link, in order. *)
Lemma resolveLinks_inr (m : gmap Z nat) (ls : list RawLink) (rs : list Link) :
  resolveLinks m ls = inr rs →
  Forall2 (λ l r, edge_idx r = raw_edge_idx l
                  ∧ m !! raw_source l = Some (source r)
                  ∧ m !! raw_target l = Some (target r)) ls rs.
Proof.
  revert rs. induction ls as [|l ls IH]; intros rs; cbn.
  - intros [= <-]. constructor.
  - unfold find.
    destruct (m !! raw_source l) as [s|] eqn:Es; [|discriminate].
    destruct (m !! raw_target l) as [t|] eqn:Et; [|discriminate].
    destruct (resolveLinks m ls) as [e|rs'] eqn:Er; [discriminate|].
    intros [= <-]. constructor; [by cbn | by apply IH].
Qed.

Lemma resolveLinks_total (m : gmap Z nat) (ls : list RawLink) :
  Forall (λ l, is_Some (m !! raw_source l) ∧ is_Some (m !! raw_target l)) ls →
  ∃ rs, resolveLinks m ls = inr rs.
Proof.
  induction 1 as [|l ls [[s Hs] [t Ht]] _ [rs IH]]; cbn.
  - by eexists.
  - unfold find. rewrite Hs, Ht, IH. by eexists.
Qed.

Lemma resolveLinks_throws (m : gmap Z nat) (ls : list RawLink) :
  Exists (λ l, m !! raw_source l = None ∨ m !! raw_target l = None) ls →
  ∃ z, resolveLinks m ls = inl (NodeNotFound z) ∧ m !! z = None.
Proof.
  induction ls as [|l ls IH]; intros Hex; [by apply Exists_nil in Hex|].
  cbn. unfold find.
  destruct (m !! raw_source l) as [s|] eqn:Es; [|by eexists].
  destruct (m !! raw_target l) as [t|] eqn:Et; [|by eexists].
  apply Exists_cons in Hex as [[H|H]|Hex]; [congruence | congruence |].
  destruct (IH Hex) as (z & -> & Hz). by eexists.
Qed.

End ForceFacts.

Section BuildFacts.
Import D3Force NodeLinkPane.

Lemma prepareNodes_ids (random : nat → Q) (r : Rect) (ns : list NodeRef) :
  map node_idx (prepareNodes random r ns) = map ref_node_idx ns.
Proof.
  apply list_eq. intros i. unfold prepareNodes.
  change (map node_idx) with (fmap (M:=list) node_idx).
  change (map ref_node_idx) with (fmap (M:=list) ref_node_idx).
  rewrite !list_lookup_fmap, list_lookup_imap.
  by destruct (ns !! i).
Qed.

Lemma prepareEdges_lookup (es : list EdgeRef) :
  Forall2 (λ e l, raw_edge_idx l = ref_edge_idx e ∧ raw_source l = ref_source e
                  ∧ raw_target l = ref_target e) es (prepareEdges es).
Proof. induction es; constructor; auto. Qed.

End BuildFacts.

Section BuildResults.
Import D3Force NodeLinkPane.

(** Reading a resolved link list back through the node array gives the
    edge list it was resolved from. *)
Lemma connectivity_of_resolved (sim : Simulation) (es : list EdgeRef) (rs : list Link) :
  Forall2 (λ l r, edge_idx r = raw_edge_idx l
                  ∧ nodeById node_idx (nodes sim) !! raw_source l = Some (source r)
                  ∧ nodeById node_idx (nodes sim) !! raw_target l = Some (target r))
          (prepareEdges es) rs →
  connectivity sim <$> rs = Some <$> es.
Proof.
  revert rs. induction es as [|e es IH]; intros rs H; cbn in H.
  - apply Forall2_nil_inv_l in H. by subst.
  - apply Forall2_cons_inv_l in H as (r & rs' & (Hi & Hs & Ht) & Hrest & ->).
    cbn. f_equal; [|by apply IH].
    apply nodeById_sound in Hs as (s & Hs & Hsid).
    apply nodeById_sound in Ht as (t & Ht & Htid).
    unfold connectivity. rewrite Hs, Ht, Hi, Hsid, Htid. by destruct e.
Qed.

Lemma build_when_all_resolve (random : nat → Q) (r : Rect) (d : Data) :
  ¬ (width r == 0)%Q → ¬ (height r == 0)%Q →
  Forall (resolves d) (data_edges d) →
  ∃ sim, buildSimulation random (Some r) (Some d) = Built sim
         ∧ map node_idx (nodes sim) = nodeIds d
         ∧ connectivity sim <$> links sim = Some <$> data_edges d.
Proof.
  intros Hw Hh Hall. unfold buildSimulation.
  apply Qeq_bool_false_ne in Hw, Hh. rewrite Hw, Hh. cbn [orb].
  unfold forceSimulation.
  set (ns := prepareNodes random r (data_nodes d)).
  destruct (resolveLinks_total (nodeById node_idx ns) (prepareEdges (data_edges d)))
    as [rs Hrs].
  { unfold prepareEdges. rewrite Forall_map. eapply Forall_impl; [exact Hall|].
    intros e [Hs Ht]. cbn.
    split; apply nodeById_complete; unfold ns; by rewrite prepareNodes_ids. }
  rewrite Hrs. eexists. split; [reflexivity|]. cbn [nodes links]. split.
  - apply prepareNodes_ids.
  - apply connectivity_of_resolved. cbn [nodes]. by apply resolveLinks_inr.
Qed.

Lemma build_when_some_unresolved (random : nat → Q) (r : Rect) (d : Data) :
  ¬ (width r == 0)%Q → ¬ (height r == 0)%Q →
  Exists (λ e, ¬ resolves d e) (data_edges d) →
  ∃ z, buildSimulation random (Some r) (Some d) = Threw (NodeNotFound z)
       ∧ z ∉ nodeIds d.
Proof.
  intros Hw Hh Hex. unfold buildSimulation.
  apply Qeq_bool_false_ne in Hw, Hh. rewrite Hw, Hh. cbn [orb].
  unfold forceSimulation.
  set (ns := prepareNodes random r (data_nodes d)).
  destruct (resolveLinks_throws (nodeById node_idx ns) (prepareEdges (data_edges d)))
    as (z & Hz & Hnone).
  { unfold prepareEdges. rewrite Exists_map. eapply Exists_impl; [exact Hex|].
    intros e Hne. cbn.
    destruct (decide (ref_source e ∈ nodeIds d)) as [Hs|Hs].
    - right. apply nodeById_None. unfold ns. rewrite prepareNodes_ids.
      intros Ht. apply Hne. by split.
    - left. apply nodeById_None. unfold ns. by rewrite prepareNodes_ids. }
  rewrite Hz. exists z. split; [reflexivity|].
  intros Hin. unfold nodeIds in Hin.
  rewrite <- (prepareNodes_ids random r) in Hin. fold ns in Hin.
  apply nodeById_complete in Hin. rewrite Hnone in Hin. by destruct Hin.
Qed.

End BuildResults.

(** C1 (as the code has it): in a container of non-zero size,
    - if every edge's source and target identifier is present in the
      node list, the build succeeds, the simulation holds one node per
      dataset node with the same identifiers in the same order, and the
      resolved links, read back through the node objects they point to,
      are exactly the input edges (none dropped, none added, none
      rewired);
    - if some edge has an identifier that is not present, the build
      does not filter it: the link force throws "node not found" for an
      identifier missing from the node list and no simulation is built;
    - hence whenever a simulation is built, every input edge resolved,
      and every link in it comes from an input edge with both
      identifiers present: an edge with an unresolved identifier never
      appears in a resolved edge set. *)
Theorem build_resolves_all_edges_or_throws
    (random : nat → Q) (r : NodeLinkPane.Rect) (d : NodeLinkPane.Data) :
  ¬ (NodeLinkPane.width r == 0)%Q → ¬ (NodeLinkPane.height r == 0)%Q →
  (Forall (NodeLinkPane.resolves d) (NodeLinkPane.data_edges d) →
     ∃ sim, NodeLinkPane.buildSimulation random (Some r) (Some d) = NodeLinkPane.Built sim
            ∧ map D3Force.node_idx (D3Force.nodes sim) = NodeLinkPane.nodeIds d
            ∧ NodeLinkPane.connectivity sim <$> D3Force.links sim
              = Some <$> NodeLinkPane.data_edges d)
  ∧ (Exists (λ e, ¬ NodeLinkPane.resolves d e) (NodeLinkPane.data_edges d) →
     ∃ z, NodeLinkPane.buildSimulation random (Some r) (Some d)
          = NodeLinkPane.Threw (D3Force.NodeNotFound z)
          ∧ z ∉ NodeLinkPane.nodeIds d)
  ∧ (∀ sim, NodeLinkPane.buildSimulation random (Some r) (Some d) = NodeLinkPane.Built sim →
       Forall (NodeLinkPane.resolves d) (NodeLinkPane.data_edges d)
       ∧ ∀ l, l ∈ D3Force.links sim →
              ∃ e, e ∈ NodeLinkPane.data_edges d ∧ NodeLinkPane.resolves d e
                   ∧ NodeLinkPane.connectivity sim l = Some e).
Proof.
  intros Hw Hh. split_and!.
  - by apply build_when_all_resolve.
  - by apply build_when_some_unresolved.
  - intros sim Hsim.
    destruct (decide (Forall (NodeLinkPane.resolves d) (NodeLinkPane.data_edges d)))
      as [Hall|Hnot].
    + split; [exact Hall|]. intros l Hl.
      destruct (build_when_all_resolve random r d Hw Hh Hall) as (sim' & Hsim' & _ & Hconn).
      rewrite Hsim in Hsim'. injection Hsim' as <-.
      apply list_elem_of_lookup in Hl as [i Hi].
      assert (Hlk : (NodeLinkPane.connectivity sim <$> D3Force.links sim) !! i
                    = Some (NodeLinkPane.connectivity sim l))
        by (by rewrite list_lookup_fmap, Hi).
      rewrite Hconn, list_lookup_fmap in Hlk.
      destruct (NodeLinkPane.data_edges d !! i) as [e|] eqn:He; [|discriminate].
      injection Hlk as Hlk. exists e. split_and!.
      * by eapply list_elem_of_lookup_2.
      * rewrite Forall_forall in Hall. apply Hall. by eapply list_elem_of_lookup_2.
      * done.
    + apply not_Forall_Exists in Hnot; [|apply _].
      destruct (build_when_some_unresolved random r d Hw Hh Hnot) as (z & Hz & _).
      congruence.
Qed.

(** C1 on a triangle 0-1-2 whose three edges resolve: the simulation is
    built and its links read back as the three input edges. *)
Lemma build_resolves_all_edges_or_throws_witness :
  let d := NodeLinkPane.mkData
             [NodeLinkPane.mkNodeRef 0; NodeLinkPane.mkNodeRef 1; NodeLinkPane.mkNodeRef 2]
             [NodeLinkPane.mkEdgeRef 0 0 1; NodeLinkPane.mkEdgeRef 1 1 2;
              NodeLinkPane.mkEdgeRef 2 2 0] in
  ∃ sim, NodeLinkPane.buildSimulation (λ _, (1 # 2)%Q)
           (Some (NodeLinkPane.mkRect 200 200)) (Some d) = NodeLinkPane.Built sim
         ∧ NodeLinkPane.connectivity sim <$> D3Force.links sim
           = Some <$> NodeLinkPane.data_edges d.
Proof.
  intros d.
  destruct (build_resolves_all_edges_or_throws (λ _, (1 # 2)%Q)
              (NodeLinkPane.mkRect 200 200) d
              ltac:(intros H; discriminate H) ltac:(intros H; discriminate H))
    as (Hok & _ & _).
  destruct Hok as (sim & Hsim & _ & Hconn).
  - repeat constructor.
    all: repeat first [apply list_elem_of_here | apply list_elem_of_further].
  - exists sim. split; assumption.
Defined.

(** C1, as stated, fails: with nodes 0 and 1 and the edges 0-1 and 0-5,
    the build does not come up with the valid edge 0-1 only; it throws
    "node not found: 5" and no simulation is built. *)
Lemma build_aborts_on_unresolved_edge :
  let d := NodeLinkPane.mkData
             [NodeLinkPane.mkNodeRef 0; NodeLinkPane.mkNodeRef 1]
             [NodeLinkPane.mkEdgeRef 0 0 1; NodeLinkPane.mkEdgeRef 1 0 5] in
  NodeLinkPane.buildSimulation (λ _, (1 # 2)%Q)
    (Some (NodeLinkPane.mkRect 200 200)) (Some d)
  = NodeLinkPane.Threw (D3Force.NodeNotFound 5)
  ∧ ¬ ∃ sim, NodeLinkPane.buildSimulation (λ _, (1 # 2)%Q)
               (Some (NodeLinkPane.mkRect 200 200)) (Some d) = NodeLinkPane.Built sim.
Proof.
  intros d.
  assert (H : NodeLinkPane.buildSimulation (λ _, (1 # 2)%Q)
                (Some (NodeLinkPane.mkRect 200 200)) (Some d)
              = NodeLinkPane.Threw (D3Force.NodeNotFound 5)) by (vm_compute; reflexivity).
  split; [exact H|]. intros [sim Hsim]. rewrite H in Hsim. discriminate Hsim.
Qed.

(** C7: when the drag-start handler returns, the dragged node is pinned
    where it is ([fx = x], [fy = y], position untouched); when the
    drag-end handler returns, the pin is cleared ([fx], [fy] null).
    The drag-end handler sets the alpha target to 0 exactly when no
    other drag is active ([event.active] is 0) and leaves it alone
    otherwise; symmetrically drag-start raises it to 0.3 and restarts
    the simulation only when no other drag is active. *)
Theorem drag_pins_then_releases
    (event : NodeLinkPane.DragEvent) (sim : D3Force.Simulation) (n : D3Force.SimNode) :
  D3Force.nodes sim !! NodeLinkPane.subject event = Some n →
  (∃ n', D3Force.nodes (NodeLinkPane.dragstarted event sim) !! NodeLinkPane.subject event
         = Some n'
         ∧ D3Force.fx n' = Some (D3Force.x n') ∧ D3Force.fy n' = Some (D3Force.y n')
         ∧ D3Force.x n' = D3Force.x n ∧ D3Force.y n' = D3Force.y n)
  ∧ (∃ n', D3Force.nodes (NodeLinkPane.dragended event sim) !! NodeLinkPane.subject event
         = Some n'
         ∧ D3Force.fx n' = None ∧ D3Force.fy n' = None
         ∧ D3Force.x n' = D3Force.x n ∧ D3Force.y n' = D3Force.y n)
  ∧ (NodeLinkPane.active event = 0%nat →
       D3Force.alphaTarget (NodeLinkPane.dragended event sim) = 0%Q
       ∧ D3Force.alphaTarget (NodeLinkPane.dragstarted event sim) = (3 # 10)%Q
       ∧ D3Force.running (NodeLinkPane.dragstarted event sim) = true)
  ∧ (NodeLinkPane.active event ≠ 0%nat →
       D3Force.alphaTarget (NodeLinkPane.dragended event sim) = D3Force.alphaTarget sim
       ∧ D3Force.alphaTarget (NodeLinkPane.dragstarted event sim) = D3Force.alphaTarget sim
       ∧ D3Force.running (NodeLinkPane.dragstarted event sim) = D3Force.running sim).
Proof.
  intros Hn.
  unfold NodeLinkPane.dragstarted, NodeLinkPane.dragended, NodeLinkPane.updateSubject.
  split_and!.
  - eexists. split.
    + cbn [D3Force.nodes D3Force.set_nodes].
      rewrite !list_lookup_alter_eq.
      destruct (NodeLinkPane.active event =? 0)%nat; cbn [D3Force.nodes D3Force.restart
        D3Force.set_alphaTarget]; rewrite Hn; reflexivity.
    + by cbn.
  - eexists. split.
    + cbn [D3Force.nodes D3Force.set_nodes].
      rewrite !list_lookup_alter_eq.
      destruct (NodeLinkPane.active event =? 0)%nat; cbn [D3Force.nodes
        D3Force.set_alphaTarget]; rewrite Hn; reflexivity.
    + by cbn.
  - intros ->. by cbn.
  - intros Hne. apply Nat.eqb_neq in Hne. rewrite Hne. by cbn.
Qed.

(** C7 on a two-node simulation: dragging node 1 pins it at its
    position (7, 9) and releasing it clears the pin. *)
Lemma drag_pins_then_releases_witness :
  let n0 := D3Force.mkSimNode 10 (3 # 1) (4 # 1) 0 0 None None in
  let n1 := D3Force.mkSimNode 11 (7 # 1) (9 # 1) 0 0 None None in
  let sim := D3Force.mkSimulation [n0; n1] [] 1 0 true (100, 100)%Q in
  let event := NodeLinkPane.mkDragEvent 0 1 (50 # 1) (60 # 1) in
  D3Force.nodes (NodeLinkPane.dragstarted event sim) !! 1%nat
  = Some (D3Force.mkSimNode 11 (7 # 1) (9 # 1) 0 0 (Some (7 # 1)%Q) (Some (9 # 1)%Q))
  ∧ D3Force.nodes (NodeLinkPane.dragended event (NodeLinkPane.dragstarted event sim)) !! 1%nat
    = Some n1.
Proof.
  intros n0 n1 sim event.
  destruct (drag_pins_then_releases event sim n1 eq_refl) as ((a & Ha & _) & _).
  destruct (drag_pins_then_releases event (NodeLinkPane.dragstarted event sim) a Ha)
    as (_ & (b & Hb & _) & _).
  split.
  - etransitivity; [exact Ha|]. vm_compute in Ha. injection Ha as <-. reflexivity.
  - etransitivity; [exact Hb|]. vm_compute in Hb. injection Hb as <-. reflexivity.
Defined.

(* ===================================================================== *)
(** * Properties of the k-snakes pane *)
(* ===================================================================== *)

Section KSnakesFacts.
Import KSnakesPane.
Local Open Scope Q_scope.

Lemma compareNodes_le (a b : KNode) :
  Qle_bool (compareNodes a b) 0 = true ↔ value a <= value b.
Proof. rewrite Qle_bool_iff. unfold compareNodes. split; intros; lra. Qed.

Lemma value_chain (d : KNode) :
  value d = if truthy (degree d) then toNumber (degree d)
            else if truthy (k d) then toNumber (k d) else 0.
Proof.
  unfold value, or_.
  destruct (truthy (degree d)) eqn:Ed; cbv iota; [by rewrite Ed|].
  destruct (truthy (k d)) eqn:Ek; reflexivity.
Qed.

Lemma insertSorted_Permutation (a : KNode) (l : list KNode) :
  Permutation (a :: l) (insertSorted compareNodes a l).
Proof.
  induction l as [|b l IH]; cbn; [reflexivity|].
  destruct (Qle_bool (compareNodes a b) 0); [reflexivity|].
  rewrite <- IH. apply perm_swap.
Qed.

Lemma sort_Permutation (l : list KNode) : Permutation l (sort compareNodes l).
Proof.
  induction l as [|a l IH]; cbn; [reflexivity|].
  rewrite <- insertSorted_Permutation. by constructor.
Qed.

Lemma insertSorted_StronglySorted (a : KNode) (l : list KNode) :
  StronglySorted byValue l → StronglySorted byValue (insertSorted compareNodes a l).
Proof.
  induction 1 as [|b l Hl IH Hb]; cbn.
  - repeat constructor.
  - destruct (Qle_bool (compareNodes a b) 0) eqn:E.
    + apply compareNodes_le in E. constructor; [by constructor|].
      constructor; [exact E|].
      eapply Forall_impl; [exact Hb|]. unfold byValue. intros c Hc. lra.
    + assert (Hba : value b <= value a).
      { destruct (Qlt_le_dec (value a) (value b)) as [Hlt|Hle]; [|exact Hle].
        assert (Qle_bool (compareNodes a b) 0 = true)
          by (apply compareNodes_le; lra).
        congruence. }
      constructor; [exact IH|].
      rewrite <- insertSorted_Permutation. by constructor.
Qed.

Lemma sort_StronglySorted (l : list KNode) : StronglySorted byValue (sort compareNodes l).
Proof.
  induction l as [|a l IH]; cbn; [constructor|].
  by apply insertSorted_StronglySorted.
Qed.

(** In a strongly sorted list, position order is value order. *)
Lemma StronglySorted_lookup (l : list KNode) (i j : nat) (a b : KNode) :
  StronglySorted byValue l → (i <= j)%nat →
  l !! i = Some a → l !! j = Some b → value a <= value b.
Proof.
  intros Hs. revert i j. induction Hs as [|c l Hl IH Hc]; intros i j Hij Hi Hj.
  - by rewrite lookup_nil in Hi.
  - destruct i as [|i], j as [|j]; cbn in Hi, Hj.
    + injection Hi as <-. injection Hj as <-. lra.
    + injection Hi as <-. rewrite Forall_forall in Hc.
      apply Hc. by eapply list_elem_of_lookup_2.
    + lia.
    + apply (IH i j); [lia | done | done].
Qed.

(** The x scale does not decrease when the plot is at least two
    paddings wide. *)
Lemma xScale_mono (rect : Rect) (ns : list KNode) (v1 v2 : Q) :
  (1 <= length ns)%nat → 2 * nodePadding <= plotSize rect →
  v1 <= v2 → xScale rect ns v1 <= xScale rect ns v2.
Proof.
  intros Hn Hw Hv. unfold xScale, D3Scale.scaleLinear.
  set (d1 := inject_Z (Z.of_nat (length ns)) - 1).
  assert (Hd1 : 0 <= d1).
  { unfold d1. assert (1 <= inject_Z (Z.of_nat (length ns))).
    { change 1 with (inject_Z 1). rewrite <- Zle_Qle. lia. }
    lra. }
  apply Qle_bool_iff in Hd1 as Hb. rewrite Hb. cbn [negb].
  unfold D3Scale.normalize, D3Scale.interpolate.
  destruct (Qeq_bool (d1 - 0) 0) eqn:E; [lra|].
  apply Qeq_bool_neq in E.
  assert (Hpos : 0 < d1 - 0) by lra.
  assert (Hinv : 0 <= / (d1 - 0)) by (apply Qinv_le_0_compat; lra).
  assert (Ht : (v1 - 0) / (d1 - 0) <= (v2 - 0) / (d1 - 0)).
  { unfold Qdiv. apply Qmult_le_compat_r; lra. }
  set (t1 := (v1 - 0) / (d1 - 0)) in *. set (t2 := (v2 - 0) / (d1 - 0)) in *.
  unfold nodePadding in *.
  assert (Hprod : 0 <= (plotSize rect - 40) * (t2 - t1))
    by (apply Qmult_le_0_compat; lra).
  assert (Hexp : (plotSize rect - 40) * (t2 - t1)
                 == (20 * (1 - t2) + (plotSize rect - 20) * t2)
                    - (20 * (1 - t1) + (plotSize rect - 20) * t1)) by ring.
  lra.
Qed.

Lemma snakeNodes_lookup (rect : Rect) (ns : list KNode) (i : nat) (c : Circle) :
  snakeNodes rect ns !! i = Some c →
  sortedNodes ns !! i = Some (datum c)
  ∧ data_node_idx c = node_idx (datum c)
  ∧ cx c = xScale rect ns (inject_Z (Z.of_nat i))
  ∧ cy c = yScale rect ns (value (datum c)).
Proof.
  unfold snakeNodes. rewrite list_lookup_imap.
  destruct (sortedNodes ns !! i) as [d|]; [|discriminate].
  intros [= <-]. by cbn.
Qed.

Lemma snakeNodes_ascending (rect : Rect) (ns : list KNode) :
  2 * nodePadding <= plotSize rect → ascendingAlongX (snakeNodes rect ns).
Proof.
  intros Hw c1 c2 H1 H2 Hlt.
  apply list_elem_of_lookup in H1 as [i Hi]. apply list_elem_of_lookup in H2 as [j Hj].
  apply snakeNodes_lookup in Hi as (Hdi & _ & Hxi & _).
  apply snakeNodes_lookup in Hj as (Hdj & _ & Hxj & _).
  destruct (Nat.le_gt_cases i j) as [Hij|Hji].
  - eapply StronglySorted_lookup; [apply sort_StronglySorted | exact Hij | exact Hdi | exact Hdj].
  - exfalso. rewrite Hxi, Hxj in Hlt.
    assert (Hlen : (1 <= length ns)%nat).
    { apply lookup_lt_Some in Hdi. unfold sortedNodes in Hdi.
      rewrite <- (Permutation_length (sort_Permutation ns)) in Hdi. lia. }
    assert (Hle : xScale rect ns (inject_Z (Z.of_nat j)) <= xScale rect ns (inject_Z (Z.of_nat i))).
    { apply xScale_mono; [exact Hlen | exact Hw |]. rewrite <- Zle_Qle. lia. }
    lra.
Qed.

End KSnakesFacts.

(** C10 (as the code has it): a node's value, for sorting and for the
    y coordinate alike, is [degree || k || 0]: the degree when it is
    truthy, otherwise k when that is truthy, otherwise 0; so a node
    whose degree is 0 takes its value from k.  The circles are joined
    to the nodes sorted by ascending value, the i-th circle getting
    [cx = xScale(i)] and [cy = yScale(value)].  Provided the square
    plot is at least 40 units wide (twice the node padding), the
    circles are in ascending order of value along the x axis: of two
    circles, the one further left never has the larger value. *)
Theorem ksnakes_value_chain_and_x_order
    (rect : KSnakesPane.Rect) (ns : list KSnakesPane.KNode) :
  (∀ d, KSnakesPane.value d
        = if KSnakesPane.truthy (KSnakesPane.degree d)
          then KSnakesPane.toNumber (KSnakesPane.degree d)
          else if KSnakesPane.truthy (KSnakesPane.k d)
               then KSnakesPane.toNumber (KSnakesPane.k d)
               else 0%Q)
  ∧ (∀ d q, KSnakesPane.degree d = Some q → (q == 0)%Q →
        KSnakesPane.value d
        = if KSnakesPane.truthy (KSnakesPane.k d)
          then KSnakesPane.toNumber (KSnakesPane.k d) else 0%Q)
  ∧ Permutation ns (KSnakesPane.sortedNodes ns)
  ∧ StronglySorted KSnakesPane.byValue (KSnakesPane.sortedNodes ns)
  ∧ KSnakesPane.datum <$> KSnakesPane.snakeNodes rect ns = KSnakesPane.sortedNodes ns
  ∧ (∀ i c, KSnakesPane.snakeNodes rect ns !! i = Some c →
        KSnakesPane.data_node_idx c = KSnakesPane.node_idx (KSnakesPane.datum c)
        ∧ KSnakesPane.cx c = KSnakesPane.xScale rect ns (inject_Z (Z.of_nat i))
        ∧ KSnakesPane.cy c
          = KSnakesPane.yScale rect ns (KSnakesPane.value (KSnakesPane.datum c)))
  ∧ ((2 * KSnakesPane.nodePadding <= KSnakesPane.plotSize rect)%Q →
        KSnakesPane.ascendingAlongX (KSnakesPane.snakeNodes rect ns)).
Proof.
  split_and!.
  - intros d. apply value_chain.
  - intros d q Hd Hq. rewrite value_chain, Hd.
    unfold KSnakesPane.truthy at 1. apply Qeq_bool_iff in Hq. by rewrite Hq.
  - apply sort_Permutation.
  - apply sort_StronglySorted.
  - apply list_eq. intros i. unfold KSnakesPane.snakeNodes.
    rewrite list_lookup_fmap, list_lookup_imap.
    by destruct (KSnakesPane.sortedNodes ns !! i).
  - intros i c Hc. by apply snakeNodes_lookup in Hc as (_ & ? & ? & ?).
  - apply snakeNodes_ascending.
Qed.

(** C10 in a 400 x 300 container with three nodes: degree 3; degree 0
    and k 2; neither attribute.  They are drawn in the order 12 (value
    0), 11 (value 2, taken from k), 10 (value 3), ascending along x. *)
Lemma ksnakes_value_chain_and_x_order_witness :
  let ns := [KSnakesPane.mkKNode 10 (Some 3%Q) (Some 1%Q);
             KSnakesPane.mkKNode 11 (Some 0%Q) (Some 2%Q);
             KSnakesPane.mkKNode 12 None None] in
  let circles := KSnakesPane.render (Some (KSnakesPane.mkRect 400 300)) (Some ns) in
  KSnakesPane.data_node_idx <$> circles = [12; 11; 10]
  ∧ KSnakesPane.ascendingAlongX circles.
Proof.
  intros ns circles. split; [reflexivity|].
  apply (ksnakes_value_chain_and_x_order (KSnakesPane.mkRect 400 300) ns).
  vm_compute. discriminate.
Defined.

(** C10, as stated, fails in a narrow container: at 100 x 200 the plot
    is 30 wide, the x range runs from 20 down to 10, and of the nodes
    with values 1 and 2 the larger one is drawn to the left. *)
Lemma ksnakes_descending_in_narrow_container :
  let ns := [KSnakesPane.mkKNode 1 (Some 1%Q) None;
             KSnakesPane.mkKNode 2 (Some 2%Q) None] in
  ¬ KSnakesPane.ascendingAlongX
      (KSnakesPane.render (Some (KSnakesPane.mkRect 100 200)) (Some ns)).
Proof.
  intros ns Hasc.
  set (circles := KSnakesPane.render (Some (KSnakesPane.mkRect 100 200)) (Some ns)) in *.
  destruct (circles !! 0%nat) as [c1|] eqn:E1; [|discriminate E1].
  destruct (circles !! 1%nat) as [c2|] eqn:E2; [|discriminate E2].
  assert (H1 : c1 ∈ circles) by (by eapply list_elem_of_lookup_2).
  assert (H2 : c2 ∈ circles) by (by eapply list_elem_of_lookup_2).
  specialize (Hasc c2 c1 H2 H1).
  vm_compute in E1, E2. injection E1 as <-. injection E2 as <-.
  vm_compute in Hasc. apply Hasc; reflexivity.
Qed.

(* ===================================================================== *)
(** * Further properties: selection store and pointer wiring *)
(* ===================================================================== *)

Section BulkSelectionFacts.
Import SelectionContext.

Lemma addAll_union (a : list Z) (s : gset Z) : addAll a s = s ∪ list_to_set a.
Proof.
  apply set_eq. intros j. rewrite addAll_elem_of, elem_of_union, elem_of_list_to_set.
  reflexivity.
Qed.

Lemma deleteAll_difference (a : list Z) (s : gset Z) : deleteAll a s = s ∖ list_to_set a.
Proof.
  apply set_eq. intros j.
  rewrite deleteAll_elem_of, elem_of_difference, elem_of_list_to_set. reflexivity.
Qed.

Lemma toggle_comm (i j : Z) (s : gset Z) : toggle i (toggle j s) = toggle j (toggle i s).
Proof.
  apply set_eq. intros x. rewrite !toggle_elem_of.
  destruct (decide (x = i)); destruct (decide (x = j));
    destruct (decide (i ∈ s)); destruct (decide (j ∈ s)); naive_solver.
Qed.

End BulkSelectionFacts.

(** X1: [selectNodes] adds exactly the listed identifiers to the
    selected-node set; it is idempotent, and only the set of listed
    identifiers matters, not their order or repetition.  [selectEdges]
    behaves the same on the selected-edge set. *)
Theorem select_adds_exactly_the_listed_ids :
  (∀ a s, SelectionContext.selectedNodes (SelectionContext.selectNodes a s)
          = SelectionContext.selectedNodes s ∪ list_to_set a)
  ∧ (∀ a s, SelectionContext.selectNodes a (SelectionContext.selectNodes a s)
            = SelectionContext.selectNodes a s)
  ∧ (∀ a b s, (list_to_set a : gset Z) = list_to_set b →
              SelectionContext.selectNodes a s = SelectionContext.selectNodes b s)
  ∧ (∀ a s, SelectionContext.selectedEdges (SelectionContext.selectEdges a s)
            = SelectionContext.selectedEdges s ∪ list_to_set a)
  ∧ (∀ a s, SelectionContext.selectEdges a (SelectionContext.selectEdges a s)
            = SelectionContext.selectEdges a s)
  ∧ (∀ a b s, (list_to_set a : gset Z) = list_to_set b →
              SelectionContext.selectEdges a s = SelectionContext.selectEdges b s).
Proof.
  split_and!; intros; destruct s as [hn he sn se];
    unfold SelectionContext.selectNodes, SelectionContext.selectEdges,
           SelectionContext.setSelectedNodes, SelectionContext.setSelectedEdges;
    cbn; rewrite ?addAll_union; try reflexivity; f_equal; set_solver.
Qed.

(** X2: [deselectNodes] removes exactly the listed identifiers; it is
    idempotent; deselecting what was just selected leaves the earlier
    selection without the listed identifiers, and selecting what was
    just deselected leaves the earlier selection with them.
    [deselectEdges] behaves the same on the selected-edge set. *)
Theorem deselect_removes_exactly_the_listed_ids :
  (∀ a s, SelectionContext.selectedNodes (SelectionContext.deselectNodes a s)
          = SelectionContext.selectedNodes s ∖ list_to_set a)
  ∧ (∀ a s, SelectionContext.deselectNodes a (SelectionContext.deselectNodes a s)
            = SelectionContext.deselectNodes a s)
  ∧ (∀ a s, SelectionContext.deselectNodes a (SelectionContext.selectNodes a s)
            = SelectionContext.deselectNodes a s)
  ∧ (∀ a s, SelectionContext.selectNodes a (SelectionContext.deselectNodes a s)
            = SelectionContext.selectNodes a s)
  ∧ (∀ a s, SelectionContext.selectedEdges (SelectionContext.deselectEdges a s)
            = SelectionContext.selectedEdges s ∖ list_to_set a)
  ∧ (∀ a s, SelectionContext.deselectEdges a (SelectionContext.deselectEdges a s)
            = SelectionContext.deselectEdges a s)
  ∧ (∀ a s, SelectionContext.deselectEdges a (SelectionContext.selectEdges a s)
            = SelectionContext.deselectEdges a s)
  ∧ (∀ a s, SelectionContext.selectEdges a (SelectionContext.deselectEdges a s)
            = SelectionContext.selectEdges a s).
Proof.
  split_and!; intros a [hn he sn se];
    unfold SelectionContext.selectNodes, SelectionContext.selectEdges,
           SelectionContext.deselectNodes, SelectionContext.deselectEdges,
           SelectionContext.setSelectedNodes, SelectionContext.setSelectedEdges;
    cbn [SelectionContext.selectedNodes SelectionContext.selectedEdges
         SelectionContext.hoveredNodes SelectionContext.hoveredEdges];
    rewrite ?addAll_union, ?deleteAll_difference; try reflexivity;
    f_equal; apply set_eq; intros x;
    destruct (decide (x ∈ (list_to_set a : gset Z))); set_solver.
Qed.

Section ClickFacts.
Import SelectionContext PaneEvents.

Lemma handle_hovered_after_click (s : state) (ev : PointerEvent) :
  isClick ev = true →
  hoveredNodes (handle s ev) = hoveredNodes s ∧ hoveredEdges (handle s ev) = hoveredEdges s.
Proof. destruct ev; intros H; try discriminate H; by split. Qed.

Lemma handle_selected_after_hover (s : state) (ev : PointerEvent) :
  isClick ev = false →
  selectedNodes (handle s ev) = selectedNodes s ∧ selectedEdges (handle s ev) = selectedEdges s.
Proof. destruct ev; intros H; try discriminate H; by split. Qed.

(** A step only looks at the cells it writes. *)
Lemma handle_selected_ext (s s' : state) (ev : PointerEvent) :
  selectedNodes s = selectedNodes s' → selectedEdges s = selectedEdges s' →
  selectedNodes (handle s ev) = selectedNodes (handle s' ev)
  ∧ selectedEdges (handle s ev) = selectedEdges (handle s' ev).
Proof. intros Hn He. destruct ev; cbn; rewrite ?Hn, ?He; by split. Qed.

Lemma handle_hovered_ext (s s' : state) (ev : PointerEvent) :
  hoveredNodes s = hoveredNodes s' → hoveredEdges s = hoveredEdges s' →
  hoveredNodes (handle s ev) = hoveredNodes (handle s' ev)
  ∧ hoveredEdges (handle s ev) = hoveredEdges (handle s' ev).
Proof. intros Hn He. destruct ev; cbn; rewrite ?Hn, ?He; by split. Qed.

Lemma handleAll_selected_clicks (evs : list PointerEvent) (s s' : state) :
  selectedNodes s = selectedNodes s' → selectedEdges s = selectedEdges s' →
  selectedNodes (handleAll evs s) = selectedNodes (handleAll (List.filter isClick evs) s')
  ∧ selectedEdges (handleAll evs s) = selectedEdges (handleAll (List.filter isClick evs) s').
Proof.
  revert s s'. induction evs as [|ev evs IH]; intros s s' Hn He; [by split|].
  cbn. destruct (isClick ev) eqn:E; cbn.
  - destruct (handle_selected_ext s s' ev Hn He). by apply IH.
  - destruct (handle_selected_after_hover s ev E). apply IH; congruence.
Qed.

Lemma handleAll_hovered_moves (evs : list PointerEvent) (s s' : state) :
  hoveredNodes s = hoveredNodes s' → hoveredEdges s = hoveredEdges s' →
  hoveredNodes (handleAll evs s)
  = hoveredNodes (handleAll (List.filter (λ ev, negb (isClick ev)) evs) s')
  ∧ hoveredEdges (handleAll evs s)
    = hoveredEdges (handleAll (List.filter (λ ev, negb (isClick ev)) evs) s').
Proof.
  revert s s'. induction evs as [|ev evs IH]; intros s s' Hn He; [by split|].
  cbn. destruct (isClick ev) eqn:E; cbn.
  - destruct (handle_hovered_after_click s ev E). apply IH; congruence.
  - destruct (handle_hovered_ext s s' ev Hn He). by apply IH.
Qed.

Lemma size_newSet_single (i : Z) : size (newSet [i]) = 1%nat.
Proof.
  unfold newSet. cbn. rewrite (right_id_L ∅ (∪)). apply size_singleton.
Qed.

Lemma handle_hover_size (s : state) (ev : PointerEvent) :
  (size (hoveredNodes s) ≤ 1)%nat → (size (hoveredEdges s) ≤ 1)%nat →
  (size (hoveredNodes (handle s ev)) ≤ 1)%nat ∧ (size (hoveredEdges (handle s ev)) ≤ 1)%nat.
Proof.
  intros Hn He.
  assert (H0 : size (newSet []) = 0%nat) by apply size_empty.
  destruct ev; cbn [handle];
    unfold hoverNode, hoverEdge, clearHover, toggleNodeSelection, toggleEdgeSelection,
           setHoveredNodes, setHoveredEdges, setSelectedNodes, setSelectedEdges;
    cbn [hoveredNodes hoveredEdges];
    rewrite ?size_newSet_single, ?H0; split; lia.
Qed.

(** Clicking [i] flips its membership; clicking anything else does not. *)
Lemma toggle_mem (i j : Z) (s : gset Z) :
  bool_decide (j ∈ toggle i s) = xorb (bool_decide (j ∈ s)) (bool_decide (i = j)).
Proof.
  pose proof (toggle_elem_of i j s) as H.
  destruct (decide (j ∈ s)), (decide (i = j)) as [->|];
    rewrite ?(bool_decide_eq_true_2 (_ ∈ s)), ?(bool_decide_eq_false_2 (_ ∈ s)),
            ?(bool_decide_eq_true_2 (_ = _)), ?(bool_decide_eq_false_2 (_ = _)) by done;
    cbn; [apply bool_decide_eq_false_2 | apply bool_decide_eq_true_2
          | apply bool_decide_eq_true_2 | apply bool_decide_eq_false_2]; naive_solver.
Qed.

End ClickFacts.

(** X3: a toggle is a single-element select when the identifier is not
    selected and a single-element deselect when it is; toggles of any
    two identifiers commute, and a node toggle commutes with an edge
    toggle, so the order of clicks does not matter. *)
Theorem toggle_is_select_or_deselect_and_commutes :
  (∀ i s, i ∉ SelectionContext.selectedNodes s →
          SelectionContext.toggleNodeSelection i s = SelectionContext.selectNodes [i] s)
  ∧ (∀ i s, i ∈ SelectionContext.selectedNodes s →
          SelectionContext.toggleNodeSelection i s = SelectionContext.deselectNodes [i] s)
  ∧ (∀ i s, i ∉ SelectionContext.selectedEdges s →
          SelectionContext.toggleEdgeSelection i s = SelectionContext.selectEdges [i] s)
  ∧ (∀ i s, i ∈ SelectionContext.selectedEdges s →
          SelectionContext.toggleEdgeSelection i s = SelectionContext.deselectEdges [i] s)
  ∧ (∀ i j s, SelectionContext.toggleNodeSelection i (SelectionContext.toggleNodeSelection j s)
              = SelectionContext.toggleNodeSelection j (SelectionContext.toggleNodeSelection i s))
  ∧ (∀ i j s, SelectionContext.toggleEdgeSelection i (SelectionContext.toggleEdgeSelection j s)
              = SelectionContext.toggleEdgeSelection j (SelectionContext.toggleEdgeSelection i s))
  ∧ (∀ i j s, SelectionContext.toggleNodeSelection i (SelectionContext.toggleEdgeSelection j s)
              = SelectionContext.toggleEdgeSelection j (SelectionContext.toggleNodeSelection i s)).
Proof.
  split_and!.
  - intros i [hn he sn se] Hi. cbn in Hi.
    unfold SelectionContext.toggleNodeSelection, SelectionContext.selectNodes,
           SelectionContext.setSelectedNodes. cbn. by rewrite toggle_absent.
  - intros i [hn he sn se] Hi. cbn in Hi.
    unfold SelectionContext.toggleNodeSelection, SelectionContext.deselectNodes,
           SelectionContext.setSelectedNodes. cbn. by rewrite toggle_present.
  - intros i [hn he sn se] Hi. cbn in Hi.
    unfold SelectionContext.toggleEdgeSelection, SelectionContext.selectEdges,
           SelectionContext.setSelectedEdges. cbn. by rewrite toggle_absent.
  - intros i [hn he sn se] Hi. cbn in Hi.
    unfold SelectionContext.toggleEdgeSelection, SelectionContext.deselectEdges,
           SelectionContext.setSelectedEdges. cbn. by rewrite toggle_present.
  - intros i j [hn he sn se].
    unfold SelectionContext.toggleNodeSelection, SelectionContext.setSelectedNodes. cbn.
    by rewrite toggle_comm.
  - intros i j [hn he sn se].
    unfold SelectionContext.toggleEdgeSelection, SelectionContext.setSelectedEdges. cbn.
    by rewrite toggle_comm.
  - intros i j s. reflexivity.
Qed.

(** X4: after any sequence of clicks on nodes, a node is selected
    exactly when its earlier membership and the parity of the number of
    clicks on it differ: from an empty selection, the selected nodes
    are those clicked an odd number of times.  The same holds for
    clicks on edges. *)
Theorem clicks_select_ids_clicked_an_odd_number_of_times
    (clicks : list Z) (s : SelectionContext.state) (i : Z) :
  bool_decide (i ∈ SelectionContext.selectedNodes
                     (PaneEvents.handleAll (PaneEvents.NodeClick <$> clicks) s))
  = xorb (bool_decide (i ∈ SelectionContext.selectedNodes s))
         (Nat.odd (count_occ Z.eq_dec clicks i))
  ∧ bool_decide (i ∈ SelectionContext.selectedEdges
                       (PaneEvents.handleAll (PaneEvents.EdgeClick <$> clicks) s))
    = xorb (bool_decide (i ∈ SelectionContext.selectedEdges s))
           (Nat.odd (count_occ Z.eq_dec clicks i)).
Proof.
  revert s. induction clicks as [|c clicks IH]; intros s.
  - cbn. by rewrite !xorb_false_r.
  - destruct (IH (SelectionContext.toggleNodeSelection c s)) as [IHn _].
    destruct (IH (SelectionContext.toggleEdgeSelection c s)) as [_ IHe].
    change (PaneEvents.handleAll (PaneEvents.NodeClick <$> c :: clicks) s)
      with (PaneEvents.handleAll (PaneEvents.NodeClick <$> clicks)
              (SelectionContext.toggleNodeSelection c s)).
    change (PaneEvents.handleAll (PaneEvents.EdgeClick <$> c :: clicks) s)
      with (PaneEvents.handleAll (PaneEvents.EdgeClick <$> clicks)
              (SelectionContext.toggleEdgeSelection c s)).
    rewrite IHn, IHe. clear IH IHn IHe. destruct s as [hn he sn se].
    unfold SelectionContext.toggleNodeSelection, SelectionContext.toggleEdgeSelection,
           SelectionContext.setSelectedNodes, SelectionContext.setSelectedEdges.
    cbn [SelectionContext.selectedNodes SelectionContext.selectedEdges].
    rewrite !toggle_mem. cbn [count_occ].
    destruct (Z.eq_dec c i) as [Heq|Hne].
    + rewrite (bool_decide_eq_true_2 _ Heq), Nat.odd_succ, <- Nat.negb_odd.
      split; (destruct (bool_decide (i ∈ _)); destruct (Nat.odd _); reflexivity).
    + rewrite (bool_decide_eq_false_2 _ Hne).
      split; (destruct (bool_decide (i ∈ _)); destruct (Nat.odd _); reflexivity).
Qed.

(** X5: under any sequence of pointer events the selected sets are
    those the clicks alone would produce, and the hovered sets are
    those the enter and leave events alone would produce: hovering
    never disturbs the selection and clicking never disturbs the
    hover. *)
Theorem pointer_events_split_into_clicks_and_moves
    (evs : list PaneEvents.PointerEvent) (s : SelectionContext.state) :
  let clicks := List.filter PaneEvents.isClick evs in
  let moves := List.filter (λ ev, negb (PaneEvents.isClick ev)) evs in
  SelectionContext.selectedNodes (PaneEvents.handleAll evs s)
  = SelectionContext.selectedNodes (PaneEvents.handleAll clicks s)
  ∧ SelectionContext.selectedEdges (PaneEvents.handleAll evs s)
    = SelectionContext.selectedEdges (PaneEvents.handleAll clicks s)
  ∧ SelectionContext.hoveredNodes (PaneEvents.handleAll evs s)
    = SelectionContext.hoveredNodes (PaneEvents.handleAll moves s)
  ∧ SelectionContext.hoveredEdges (PaneEvents.handleAll evs s)
    = SelectionContext.hoveredEdges (PaneEvents.handleAll moves s).
Proof.
  intros clicks moves.
  destruct (handleAll_selected_clicks evs s s eq_refl eq_refl).
  destruct (handleAll_hovered_moves evs s s eq_refl eq_refl).
  by split_and!.
Qed.

(** X6: whatever pointer events arrive after mount, each hovered set
    holds at most one identifier; right after a leave event both
    hovered sets are empty; and an enter followed by a leave leaves the
    store as a leave alone would. *)
Theorem hovered_sets_hold_at_most_one_id :
  (∀ evs,
      (size (SelectionContext.hoveredNodes
               (PaneEvents.handleAll evs SelectionContext.initial)) ≤ 1)%nat
      ∧ (size (SelectionContext.hoveredEdges
                 (PaneEvents.handleAll evs SelectionContext.initial)) ≤ 1)%nat)
  ∧ (∀ evs s,
      SelectionContext.hoveredNodes
        (PaneEvents.handleAll (evs ++ [PaneEvents.NodeLeave]) s) = ∅
      ∧ SelectionContext.hoveredEdges
          (PaneEvents.handleAll (evs ++ [PaneEvents.NodeLeave]) s) = ∅
      ∧ SelectionContext.hoveredNodes
          (PaneEvents.handleAll (evs ++ [PaneEvents.EdgeLeave]) s) = ∅
      ∧ SelectionContext.hoveredEdges
          (PaneEvents.handleAll (evs ++ [PaneEvents.EdgeLeave]) s) = ∅)
  ∧ (∀ i s,
      PaneEvents.handleAll [PaneEvents.NodeEnter i; PaneEvents.NodeLeave] s
      = SelectionContext.clearHover s
      ∧ PaneEvents.handleAll [PaneEvents.EdgeEnter i; PaneEvents.EdgeLeave] s
        = SelectionContext.clearHover s).
Proof.
  split_and!.
  - intros evs.
    assert (Hgen : ∀ s,
               (size (SelectionContext.hoveredNodes s) ≤ 1)%nat →
               (size (SelectionContext.hoveredEdges s) ≤ 1)%nat →
               (size (SelectionContext.hoveredNodes (PaneEvents.handleAll evs s)) ≤ 1)%nat
               ∧ (size (SelectionContext.hoveredEdges (PaneEvents.handleAll evs s)) ≤ 1)%nat).
    { induction evs as [|ev evs IH]; intros s Hn He; [by split|].
      cbn. destruct (handle_hover_size s ev Hn He). by apply IH. }
    apply Hgen; cbn; rewrite size_empty; lia.
  - intros evs s. unfold PaneEvents.handleAll. rewrite !fold_left_app. by cbn.
  - intros i s. by split.
Qed.



Section SnakeHighlightFacts.
Import KSnakesPane PaneEvents.
Local Open Scope Q_scope.

Lemma filter_split_Permutation {A} (p : A → bool) (l : list A) :
  Permutation (List.filter (λ a, negb (p a)) l ++ List.filter p l) l.
Proof.
  induction l as [|a l IH]; [constructor|]. cbn.
  destruct (p a); cbn.
  - symmetry. apply Permutation_cons_app. by symmetry.
  - by constructor.
Qed.

Lemma filter_all {A} (p : A → bool) (l : list A) :
  (∀ a, In a l → p a = true) → List.filter p l = l.
Proof.
  induction l as [|a l IH]; intros Hall; [reflexivity|]. cbn.
  rewrite (Hall a (or_introl eq_refl)). f_equal. apply IH.
  intros b Hb. apply Hall. by right.
Qed.

Lemma filter_none {A} (p : A → bool) (l : list A) :
  (∀ a, In a l → p a = false) → List.filter p l = [].
Proof.
  induction l as [|a l IH]; intros Hall; [reflexivity|]. cbn.
  rewrite (Hall a (or_introl eq_refl)). apply IH.
  intros b Hb. apply Hall. by right.
Qed.

(** The circles of one run before [raise()] reorders them. *)
Lemma highlightSnakes_Permutation (s : SelectionContext.state) (circles : list Circle) :
  Permutation
    (highlightSnakes s circles)
    (map (λ c, setRadius (if snakeRaised s (data_node_idx c)
                          then snakeBaseRadius circles * (15 # 10)
                          else snakeBaseRadius circles) c) circles).
Proof. unfold highlightSnakes. apply filter_split_Permutation. Qed.

Lemma highlightSnakes_ids (s : SelectionContext.state) (circles : list Circle) :
  Permutation (map data_node_idx (highlightSnakes s circles)) (map data_node_idx circles).
Proof.
  rewrite (highlightSnakes_Permutation s circles), map_map. cbn.
  by rewrite (map_ext _ data_node_idx).
Qed.

(** With a circle left unhighlighted the next run reads the same base
    radius. *)
Lemma highlightSnakes_base_stable (s : SelectionContext.state) (circles : list Circle) :
  (∃ i, In i (map data_node_idx circles) ∧ snakeRaised s i = false) →
  snakeBaseRadius (highlightSnakes s circles) = snakeBaseRadius circles.
Proof.
  intros (i & Hi & Hni). apply in_map_iff in Hi as (c0 & <- & Hc0).
  unfold highlightSnakes.
  set (f := λ c, setRadius (if snakeRaised s (data_node_idx c)
                            then snakeBaseRadius circles * (15 # 10)
                            else snakeBaseRadius circles) c).
  destruct (List.filter (λ c, negb (snakeRaised s (data_node_idx c))) (map f circles))
    as [|c1 rest] eqn:E.
  - assert (Hin : In (f c0) (List.filter (λ c, negb (snakeRaised s (data_node_idx c)))
                               (map f circles))).
    { apply filter_In. split; [by apply in_map|]. cbn. by rewrite Hni. }
    rewrite E in Hin. destruct Hin.
  - assert (Hin : In c1 (List.filter (λ c, negb (snakeRaised s (data_node_idx c)))
                           (map f circles)))
      by (rewrite E; by left).
    apply filter_In in Hin as [Hin Hn]. apply in_map_iff in Hin as (c & <- & _).
    cbn in Hn. apply negb_true_iff in Hn. cbn. by rewrite Hn.
Qed.

Lemma highlightRuns_base_stable (stores : list SelectionContext.state) (circles : list Circle) :
  Forall (λ s, ∃ i, In i (map data_node_idx circles) ∧ snakeRaised s i = false) stores →
  snakeBaseRadius (highlightRuns stores circles) = snakeBaseRadius circles
  ∧ Permutation (map data_node_idx (highlightRuns stores circles)) (map data_node_idx circles).
Proof.
  revert circles. induction stores as [|s stores IH]; intros circles Hall; [by split|].
  apply Forall_cons in Hall as [Hs Hall]. cbn.
  destruct (IH (highlightSnakes s circles)) as [Hb Hp].
  - eapply Forall_impl; [exact Hall|]. intros s' (i & Hi & Hni). exists i. split; [|exact Hni].
    eapply Permutation_in; [|exact Hi]. symmetry. apply highlightSnakes_ids.
  - unfold highlightRuns in Hb, Hp. split.
    + rewrite Hb. by apply highlightSnakes_base_stable.
    + rewrite Hp. apply highlightSnakes_ids.
Qed.

End SnakeHighlightFacts.

(** X28: the radius of the k-snakes circles follows the first circle of
    the svg, not the store alone.  One run of the highlight effect
    gives every circle 1.5 times the radius read off the first circle
    when the store highlights it and that radius otherwise, and leaves
    nothing else changed but the stacking.  While every run leaves some
    circle unhighlighted the radius read stays the one the circles were
    drawn with, over any number of runs.  A run that highlights all
    circles raises the radius the next run reads by the factor 1.5: on
    a plot with a single circle, hovering it and leaving it again ends
    with the circle unhighlighted at 1.5 times its drawn radius. *)
Theorem ksnakes_radius_follows_the_first_circle
    (s : SelectionContext.state) (circles : list KSnakesPane.Circle) :
  let base := PaneEvents.snakeBaseRadius circles in
  let raised c := PaneEvents.snakeRaised s (KSnakesPane.data_node_idx c) in
  Permutation
    (PaneEvents.highlightSnakes s circles)
    (map (λ c, PaneEvents.setRadius (if raised c then base * (15 # 10) else base)%Q c) circles)
  ∧ (∀ stores,
       Forall (λ s', ∃ c, c ∈ circles
                          ∧ PaneEvents.snakeRaised s' (KSnakesPane.data_node_idx c) = false)
              stores →
       PaneEvents.snakeBaseRadius (PaneEvents.highlightRuns stores circles) = base)
  ∧ (circles ≠ [] → (∀ c, c ∈ circles → raised c = true) →
     PaneEvents.snakeBaseRadius (PaneEvents.highlightSnakes s circles)
     = (base * (15 # 10))%Q)
  ∧ (∀ c s',
       raised c = true →
       PaneEvents.snakeRaised s' (KSnakesPane.data_node_idx c) = false →
       PaneEvents.highlightRuns [s; s'] [c]
       = [PaneEvents.setRadius (KSnakesPane.r c * (15 # 10))%Q c]).
Proof.
  intros base raised. split_and!.
  - apply highlightSnakes_Permutation.
  - intros stores Hall. apply highlightRuns_base_stable.
    eapply Forall_impl; [exact Hall|]. intros s' (c & Hc & Hn).
    exists (KSnakesPane.data_node_idx c). split; [|exact Hn].
    apply in_map. by apply list_elem_of_In.
  - intros Hne Hall. unfold PaneEvents.highlightSnakes.
    rewrite filter_none, filter_all.
    + destruct circles as [|c0 rest]; [done|]. cbn.
      fold (raised c0). rewrite (Hall c0); [reflexivity | by left].
    + intros c1 Hc1. apply in_map_iff in Hc1 as (c & <- & Hc). cbn.
      apply Hall. by apply list_elem_of_In.
    + intros c1 Hc1. apply in_map_iff in Hc1 as (c & <- & Hc). cbn.
      apply negb_false_iff. apply Hall. by apply list_elem_of_In.
  - intros c s' Hr Hn. unfold raised in Hr. cbn.
    unfold PaneEvents.highlightSnakes. cbn. rewrite !Hr. cbn. rewrite !Hn. reflexivity.
Qed.

(* ===================================================================== *)
(** * Further properties: network context and control panel *)
(* ===================================================================== *)

Section NetworkFacts.
Import NetworkContext.
Variable Json : Type.

Lemma errorMessage_nonempty (m : option String.string) : errorMessage m ≠ String.EmptyString.
Proof.
  destruct m as [m|]; cbn; [|discriminate].
  destruct (String.eqb m String.EmptyString) eqn:E; [discriminate|].
  by apply String.eqb_neq in E.
Qed.

Lemma alreadyLoaded_spec (networkId : String.string) (s : state Json) :
  alreadyLoaded Json networkId s = true
  ↔ currentNetworkId Json s = Some networkId ∧ is_Some (networkData Json s).
Proof.
  unfold alreadyLoaded.
  destruct (currentNetworkId Json s) as [i|], (networkData Json s) as [d|]; cbn.
  - rewrite String.eqb_eq. split.
    + intros ->. split; [reflexivity | by eexists].
    + by intros [[= ->] _].
  - split; [discriminate|]. by intros [_ [? ?]].
  - split; [discriminate|]. by intros [? _].
  - split; [discriminate|]. by intros [? _].
Qed.

Lemma findNetwork_Some (table : list NetworkMeta) (i : option String.string) (n : NetworkMeta) :
  findNetwork table i = Some n → In n table ∧ i = Some (id n).
Proof.
  destruct i as [i|]; cbn; [|discriminate].
  intros H. apply find_some in H as [Hin Heq].
  apply String.eqb_eq in Heq. by subst.
Qed.

Lemma findNetwork_None (table : list NetworkMeta) (i : String.string) :
  findNetwork table (Some i) = None ↔ ¬ In i (map id table).
Proof.
  cbn. split.
  - intros H Hin. apply in_map_iff in Hin as (n & Hid & Hn).
    pose proof (find_none _ _ H n Hn) as Hf. cbn in Hf.
    rewrite Hid, String.eqb_refl in Hf. discriminate.
  - intros Hnot. destruct (List.find _ table) as [n|] eqn:E; [|reflexivity].
    apply find_some in E as [Hin Heq]. apply String.eqb_eq in Heq.
    exfalso. apply Hnot. rewrite <- Heq. by apply in_map.
Qed.

End NetworkFacts.

(** X8: [loadNetwork] skips the fetch exactly when the requested
    network is the current one and its data is present.  Otherwise a
    fulfilled fetch makes the network current with its data, not
    loading and without error, after which loading the same network
    again changes nothing whatever the fetch would give; a rejected
    fetch drops the data and records a non-empty error message but
    keeps the previous network identifier, and after it no network
    counts as loaded, so the next request fetches again. *)
Theorem loadNetwork_caches_success_and_refetches_after_failure
    (Json : Type) (networkId : String.string) (s : NetworkContext.state Json) :
  (NetworkContext.alreadyLoaded Json networkId s = true
   ↔ NetworkContext.currentNetworkId Json s = Some networkId
     ∧ is_Some (NetworkContext.networkData Json s))
  ∧ (NetworkContext.alreadyLoaded Json networkId s = true →
     ∀ settled, NetworkContext.loadNetwork Json networkId settled s = s)
  ∧ (NetworkContext.alreadyLoaded Json networkId s = false →
     ∀ nl hc ks,
       let s' := NetworkContext.loadNetwork Json networkId
                   (NetworkContext.Fulfilled Json nl hc ks) s in
       NetworkContext.currentNetworkId Json s' = Some networkId
       ∧ NetworkContext.networkData Json s' = Some (NetworkContext.mkNetworkData Json nl ks)
       ∧ NetworkContext.isLoading Json s' = false
       ∧ NetworkContext.error Json s' = None
       ∧ ∀ settled, NetworkContext.loadNetwork Json networkId settled s' = s')
  ∧ (NetworkContext.alreadyLoaded Json networkId s = false →
     ∀ message,
       let s' := NetworkContext.loadNetwork Json networkId
                   (NetworkContext.Rejected Json message) s in
       NetworkContext.currentNetworkId Json s' = NetworkContext.currentNetworkId Json s
       ∧ NetworkContext.networkData Json s' = None
       ∧ NetworkContext.isLoading Json s' = false
       ∧ (∃ m, NetworkContext.error Json s' = Some m ∧ m ≠ String.EmptyString)
       ∧ ∀ other, NetworkContext.alreadyLoaded Json other s' = false).
Proof.
  split_and!.
  - apply alreadyLoaded_spec.
  - intros H settled. unfold NetworkContext.loadNetwork. by rewrite H.
  - intros H nl hc ks. unfold NetworkContext.loadNetwork, NetworkContext.loadNetwork_begin.
    rewrite H. cbn. split_and!; try reflexivity.
    intros settled. by rewrite String.eqb_refl.
  - intros H message. unfold NetworkContext.loadNetwork, NetworkContext.loadNetwork_begin.
    rewrite H. cbn. split_and!; try reflexivity.
    + eexists. split; [reflexivity | apply errorMessage_nonempty].
    + intros other. unfold NetworkContext.alreadyLoaded. cbn.
      by destruct (NetworkContext.currentNetworkId Json s).
Qed.

(** X9: [currentNetwork] is the table entry whose id is the current
    network identifier: a result is listed and carries that id, there
    is no result exactly when no listed network has that id (or none is
    current), and since the listed ids are pairwise distinct every
    listed network is found by its own id. *)
Theorem currentNetwork_is_the_entry_with_the_current_id
    (Json : Type) (s : NetworkContext.state Json) :
  (∀ n, NetworkContext.currentNetwork Json s = Some n →
        In n NetworkContext.AVAILABLE_NETWORKS
        ∧ NetworkContext.currentNetworkId Json s = Some (NetworkContext.id n))
  ∧ (∀ i, NetworkContext.currentNetworkId Json s = Some i →
        (NetworkContext.currentNetwork Json s = None
         ↔ ¬ In i (map NetworkContext.id NetworkContext.AVAILABLE_NETWORKS)))
  ∧ (NetworkContext.currentNetworkId Json s = None →
        NetworkContext.currentNetwork Json s = None)
  ∧ (∀ n, In n NetworkContext.AVAILABLE_NETWORKS →
        NetworkContext.findNetwork NetworkContext.AVAILABLE_NETWORKS
          (Some (NetworkContext.id n)) = Some n).
Proof.
  unfold NetworkContext.currentNetwork. split_and!.
  - intros n H. by apply findNetwork_Some in H.
  - intros i ->. apply findNetwork_None.
  - by intros ->.
  - intros n Hin. cbn in Hin.
    repeat (destruct Hin as [<-|Hin]; [reflexivity|]). destruct Hin.
Qed.

(** X10: choosing a network in the control panel empties all four
    selection sets, whatever the fetch gives and even when the chosen
    network is already loaded, so afterwards nothing is highlighted and
    [hasSelections] is false; choosing the empty option changes
    nothing.  [hasSelections] is false exactly when both selected sets
    are empty.  The mount effect loads ['karate-club'] when no network
    is current, never touches the selection, and does nothing once a
    network is current. *)
Theorem handleNetworkChange_clears_the_selection
    (Json : Type) (settled : NetworkContext.Settled Json) (app : ControlPanel.App Json) :
  (∀ value, value ≠ String.EmptyString →
     let app' := ControlPanel.handleNetworkChange Json value settled app in
     ControlPanel.selection Json app' = SelectionContext.initial
     ∧ ControlPanel.hasSelections (ControlPanel.selection Json app') = false
     ∧ (∀ i, SelectionContext.isNodeHighlighted i (ControlPanel.selection Json app') = false
             ∧ SelectionContext.isEdgeHighlighted i (ControlPanel.selection Json app') = false)
     ∧ ControlPanel.network Json app'
       = NetworkContext.loadNetwork Json value settled (ControlPanel.network Json app))
  ∧ ControlPanel.handleNetworkChange Json String.EmptyString settled app = app
  ∧ (∀ s, ControlPanel.hasSelections s = false
          ↔ SelectionContext.selectedNodes s = ∅ ∧ SelectionContext.selectedEdges s = ∅)
  ∧ ControlPanel.selection Json (ControlPanel.autoLoad Json settled app)
    = ControlPanel.selection Json app
  ∧ (∀ i, NetworkContext.currentNetworkId Json (ControlPanel.network Json app) = Some i →
          i ≠ String.EmptyString → ControlPanel.autoLoad Json settled app = app)
  ∧ (NetworkContext.currentNetworkId Json (ControlPanel.network Json app) = None →
     ControlPanel.network Json (ControlPanel.autoLoad Json settled app)
     = NetworkContext.loadNetwork Json ControlPanel.defaultNetworkId settled (ControlPanel.network Json app)).
Proof.
  split_and!.
  - intros value Hne app'. unfold app', ControlPanel.handleNetworkChange.
    apply String.eqb_neq in Hne. rewrite Hne. cbn. by split_and!.
  - reflexivity.
  - intros s. unfold ControlPanel.hasSelections.
    rewrite orb_false_iff, !Nat.ltb_ge, !Nat.le_0_r.
    by rewrite !size_empty_iff, !leibniz_equiv_iff.
  - unfold ControlPanel.autoLoad.
    destruct (NetworkContext.currentNetworkId Json _) as [i|]; [|reflexivity].
    by destruct (String.eqb i _).
  - intros i Hi Hne. unfold ControlPanel.autoLoad. rewrite Hi.
    apply String.eqb_neq in Hne. by rewrite Hne.
  - intros Hi. unfold ControlPanel.autoLoad. by rewrite Hi.
Qed.

(* ===================================================================== *)
(** * Further properties: viewport controller *)
(* ===================================================================== *)

Section ViewportFacts.
Import D3Zoom UseZoomPan.
Local Open Scope Q_scope.

Lemma step_svgRef (h : Hook) (o : Op) : svgRef (step h o) = svgRef h.
Proof.
  destruct o; cbn;
    unfold zoomIn, zoomOut, resetZoom, fitToContent, setZoomTransform, gesture, gestureOn,
      setFilter;
    repeat case_match; cbn; congruence.
Qed.

Lemma run_svgRef (ops : list Op) (h : Hook) : svgRef (run ops h) = svgRef h.
Proof.
  revert h. induction ops as [|o ops IH]; intros h; [reflexivity|].
  cbn. unfold run in IH. rewrite IH. apply step_svgRef.
Qed.

Lemma translate_xy (t : Transform) (p0 p1 : Point) :
  x (translate t p0 p1) == fst p0 - fst p1 * k t
  ∧ y (translate t p0 p1) == snd p0 - snd p1 * k t.
Proof.
  unfold translate.
  destruct (Qeq_bool (fst p0 - fst p1 * k t) (x t)
            && Qeq_bool (snd p0 - snd p1 * k t) (y t)) eqn:E; cbn.
  - apply andb_true_iff in E as [Ex Ey].
    apply Qeq_bool_iff in Ex, Ey. split; by symmetry.
  - split; reflexivity.
Qed.

(** The transform [scaleBy] ends in, with no translate extent set. *)
Lemma scaleBy_components (se : Q * Q) (e : Extent) (t : Transform) (f : Q) :
  let t' := scaleBy se None e t f in
  let c := centroid e in
  k t' == Qmax (fst se) (Qmin (snd se) (k t * f))
  ∧ x t' == fst c - invertX t (fst c) * k t'
  ∧ y t' == snd c - invertY t (snd c) * k t'.
Proof.
  intros t' c. unfold t', scaleBy, scaleTo, constrain.
  rewrite translate_k.
  destruct (translate_xy (scale se t (k t * f)) (centroid e) (Transform_invert t (centroid e)))
    as [Hx Hy].
  split_and!; [apply scale_k_eq | exact Hx | exact Hy].
Qed.

(** What [fitToContent] installs when it does not return early. *)
Lemma fitToContent_components (h : Hook) (r : Rect) (b : Bounds) (p : Q) :
  svgRef h = Some r →
  ¬ width r == 0 → ¬ height r == 0 → ¬ bwidth b == 0 → ¬ bheight b == 0 →
  let s := min3 ((width r - p * 2) / bwidth b) ((height r - p * 2) / bheight b)
                (snd (scaleExtent (config h))) in
  let t := transform (fitToContent h (Some b) p) in
  k t == s
  ∧ x t == width r / 2 - s * (bx b + bwidth b / 2)
  ∧ y t == height r / 2 - s * (by_ b + bheight b / 2).
Proof.
  intros Hsvg HW HH Hbw Hbh s t. unfold t, fitToContent. rewrite Hsvg.
  rewrite (Qeq_bool_false_ne _ _ HW), (Qeq_bool_false_ne _ _ HH),
          (Qeq_bool_false_ne _ _ Hbw), (Qeq_bool_false_ne _ _ Hbh).
  cbn [orb]. unfold setTransform, D3Zoom.transform. cbn [transform].
  match goal with
  | |- k (Transform_scale (Transform_translate _ ?tx ?ty) ?s') == _ ∧ _ =>
      destruct (identity_translate_scale tx ty s') as (-> & -> & ->)
  end.
  by split_and!.
Qed.

End ViewportFacts.

Section TransitionFacts.
Import D3Zoom UseZoomPan ZoomTransitions.
Local Open Scope Q_scope.

Lemma positive_spec (v : Q) : positive v = true ↔ 0 < v.
Proof.
  unfold positive. rewrite negb_true_iff. split.
  - intros H. apply Qnot_le_lt. intros Hle. apply Qle_bool_iff in Hle. congruence.
  - intros H. destruct (Qle_bool v 0) eqn:E; [|reflexivity].
    apply Qle_bool_iff in E. lra.
Qed.

Lemma gestureOn_extent (g : Gesture) (onNode ctrl : bool) (btn : Z) (h : Hook) :
  extent (gestureOn g onNode ctrl btn h) = extent h.
Proof. destruct (gestureOn_cases g onNode ctrl btn h) as [-> | ->]; reflexivity. Qed.

Lemma step_hook (s s' : State) (ev : Event) :
  step s ev = Some s' →
  config (hook s') = config (hook s) ∧ extent (hook s') = extent (hook s).
Proof.
  destruct ev; cbn; intros Hstep;
    repeat (case_match; try discriminate);
    injection Hstep as <-; cbn;
    rewrite ?gestureOn_config, ?gestureOn_extent;
    unfold setZoomTransform, resized; repeat case_match; by cbn.
Qed.

(** A frame of a transition that joins two positive scales. *)
Lemma isFrame_bounds (w : Q) (tr : Transition) (t : Transform) :
  0 < w → 0 < k (source tr) → 0 < k (target tr) →
  isFrame w tr t = true →
  0 < k t ∧ k t <= Qmax (k (source tr)) (k (target tr))
  ∧ (anchored tr = true → Qmin (k (source tr)) (k (target tr)) <= k t).
Proof.
  intros Hw Ha Hb. unfold isFrame.
  rewrite (proj2 (positive_spec _) Hw), (proj2 (positive_spec _) Ha),
          (proj2 (positive_spec _) Hb). cbn [andb].
  destruct (anchored tr); intros H; apply andb_true_iff in H as [H1 H2].
  - apply Qle_bool_iff in H1, H2. split_and!; [|exact H2|by intros _].
    eapply Qlt_le_trans; [|exact H1]. by apply Q.min_glb_lt.
  - apply positive_spec in H1. apply Qle_bool_iff in H2. by split_and!.
Qed.

Lemma within_gesture (se : Q * Q) (g : Gesture) (onNode ctrl : bool) (btn : Z) (h : Hook) :
  scaleExtent (config h) = se → fst se <= snd se →
  within se (transform h) → within se (transform (gestureOn g onNode ctrl btn h)).
Proof.
  intros <- Hle [Hl Hu].
  destruct (gestureOn_cases g onNode ctrl btn h) as [-> | ->]; [by split|].
  cbn [transform setTransform].
  destruct (gesture_k_bounds (scaleExtent (config h)) (translateExtent (config h))
              (extent h) (transform h) g Hle) as [H1 H2].
  split; [by apply H1 | by apply H2].
Qed.

Lemma steady_step (se : Q * Q) (s s' : State) (ev : Event) :
  scaleExtent (config (hook s)) = se →
  translateExtent (config (hook s)) = None →
  0 < fst se → fst se <= snd se →
  0 < viewSize (extent (hook s)) →
  isZoomStepOrInput ev = true →
  step s ev = Some s' → steady se s → steady se s'.
Proof.
  intros Hse Hte Hlo Hle Hw Hev Hstep (Hk & Hsch & Hact).
  destruct ev; try discriminate Hev; cbn in Hstep.
  - (* zoomIn *)
    destruct (svgRef (hook s)); injection Hstep as <-; [|by split_and!].
    split_and!; cbn; [done | | done].
    apply Forall_app. split; [done | by constructor].
  - destruct (svgRef (hook s)); injection Hstep as <-; [|by split_and!].
    split_and!; cbn; [done | | done].
    apply Forall_app. split; [done | by constructor].
  - (* start *)
    destruct (scheduled s) as [|q rest] eqn:Eq; [discriminate|].
    injection Hstep as <-. apply Forall_cons in Hsch as [Hq Hrest].
    destruct q as [f|t]; [|done].
    split_and!; cbn; [done | done |]. rewrite Hte. split_and!; [done | done |].
    unfold within. rewrite <- Hse. by apply scaleBy_k_bounds; rewrite Hse.
  - (* frame *)
    destruct (active s) as [tr|] eqn:Ea; [|discriminate].
    destruct (isFrame _ tr t) eqn:Ef; [|discriminate].
    injection Hstep as <-. destruct Hact as (Han & [Hal Hau] & [Hbl Hbu]).
    apply isFrame_bounds in Ef as (_ & Hu & Hl); [|exact Hw|lra|lra].
    specialize (Hl Han).
    split_and!; cbn; [|done|done].
    split.
    + eapply Qle_trans; [|exact Hl]. by apply Q.min_glb.
    + eapply Qle_trans; [exact Hu|]. by apply Q.max_lub.
  - (* end *)
    destruct (active s) as [tr|] eqn:Ea; [|discriminate].
    injection Hstep as <-. destruct Hact as (_ & _ & Hb).
    by split_and!.
  - (* input *)
    injection Hstep as <-.
    destruct (handled _ _ _ _ _); [|by split_and!].
    pose proof (within_gesture se g onNode ctrl btn (hook s) Hse Hle Hk) as Hg.
    destruct g; try discriminate Hev; destruct first; by split_and!.
  - injection Hstep as <-. by split_and!.
  - injection Hstep as <-. split_and!; cbn; [|done|done].
    unfold resized. by destruct (svgRef (hook s)).
Qed.

Lemma bounded_step (se : Q * Q) (s s' : State) (ev : Event) :
  scaleExtent (config (hook s)) = se →
  0 < fst se → fst se <= snd se → 1 <= snd se →
  0 < viewSize (extent (hook s)) →
  isClamping ev = true →
  step s ev = Some s' → bounded se s → bounded se s'.
Proof.
  intros Hse Hlo Hle Hhi Hw Hev Hstep (Hk & Hsch & Hact).
  assert (Hcap : ∀ t, within se t → capped se t).
  { intros t [Hl Hu]. split; [lra | exact Hu]. }
  destruct ev; try discriminate Hev; cbn in Hstep.
  - destruct (svgRef (hook s)); injection Hstep as <-; [|by split_and!].
    split_and!; cbn; [done | | done].
    apply Forall_app. split; [done | by constructor].
  - destruct (svgRef (hook s)); injection Hstep as <-; [|by split_and!].
    split_and!; cbn; [done | | done].
    apply Forall_app. split; [done | by constructor].
  - (* reset *)
    destruct (svgRef (hook s)); injection Hstep as <-; [|by split_and!].
    split_and!; cbn; [done | | done].
    apply Forall_app. split; [done|]. constructor; [|done].
    split; cbn; [reflexivity | exact Hhi].
  - (* start *)
    destruct (scheduled s) as [|q rest] eqn:Eq; [discriminate|].
    injection Hstep as <-. apply Forall_cons in Hsch as [Hq Hrest].
    split_and!; cbn; [done | done |]. split; [by destruct q|].
    destruct q as [f|t]; cbn; [|exact Hq].
    apply Hcap. unfold within. rewrite <- Hse. by apply scaleBy_k_bounds; rewrite Hse.
  - (* frame *)
    destruct (active s) as [tr|] eqn:Ea; [|discriminate].
    destruct (isFrame _ tr t) eqn:Ef; [|discriminate].
    injection Hstep as <-. destruct Hact as ([Hal Hau] & [Hbl Hbu]).
    apply isFrame_bounds in Ef as (Hpos & Hu & _); [|exact Hw|exact Hal|exact Hbl].
    split_and!; cbn; [|done|done].
    split; [exact Hpos|]. eapply Qle_trans; [exact Hu|]. by apply Q.max_lub.
  - (* end *)
    destruct (active s) as [tr|] eqn:Ea; [|discriminate].
    injection Hstep as <-. destruct Hact as (_ & Hb).
    by split_and!.
  - (* input *)
    injection Hstep as <-.
    destruct (handled _ _ _ _ _); [|by split_and!].
    assert (Hg : capped se (transform (gestureOn g onNode ctrl btn (hook s)))).
    { destruct (gestureOn_cases g onNode ctrl btn (hook s)) as [-> | ->]; [exact Hk|].
      cbn [transform setTransform]. destruct Hk as [Hk0 Hku].
      destruct g; unfold wheeled, mousemoved, dblclicked, touchmoved;
        unfold capped; rewrite constrain_k, translate_k;
        try (rewrite <- Hse; rewrite scale_k_eq; rewrite Hse; split;
             [eapply Qlt_le_trans; [exact Hlo | apply clamp_lower] | by apply clamp_upper]);
        by split. }
    destruct g; destruct first; split_and!; cbn; try done.
    all: apply Forall_app; split; [done | by constructor].
  - injection Hstep as <-. by split_and!.
  - injection Hstep as <-. split_and!; cbn; [|done|done].
    unfold resized. by destruct (svgRef (hook s)).
Qed.

Lemma steady_run (se : Q * Q) (evs : list Event) (s s' : State) :
  scaleExtent (config (hook s)) = se →
  translateExtent (config (hook s)) = None →
  0 < fst se → fst se <= snd se →
  0 < viewSize (extent (hook s)) →
  forallb isZoomStepOrInput evs = true →
  run evs s = Some s' → steady se s → steady se s'.
Proof.
  revert s. induction evs as [|ev evs IH]; intros s Hse Hte Hlo Hle Hw Hall Hrun Hinv.
  - injection Hrun as <-. exact Hinv.
  - cbn in Hall, Hrun. apply andb_true_iff in Hall as [Hev Hall].
    destruct (step s ev) as [s1|] eqn:Es; [|discriminate].
    destruct (step_hook _ _ _ Es) as [Hc He].
    apply (IH s1); rewrite ?Hc, ?He; try done.
    by apply (steady_step se s s1 ev).
Qed.

Lemma bounded_run (se : Q * Q) (evs : list Event) (s s' : State) :
  scaleExtent (config (hook s)) = se →
  0 < fst se → fst se <= snd se → 1 <= snd se →
  0 < viewSize (extent (hook s)) →
  forallb isClamping evs = true →
  run evs s = Some s' → bounded se s → bounded se s'.
Proof.
  revert s. induction evs as [|ev evs IH]; intros s Hse Hlo Hle Hhi Hw Hall Hrun Hinv.
  - injection Hrun as <-. exact Hinv.
  - cbn in Hall, Hrun. apply andb_true_iff in Hall as [Hev Hall].
    destruct (step s ev) as [s1|] eqn:Es; [|discriminate].
    destruct (step_hook _ _ _ Es) as [Hc He].
    apply (IH s1); rewrite ?Hc, ?He; try done.
    by apply (bounded_step se s s1 ev).
Qed.

Lemma viewSize_mount (c : Config) (r : Rect) :
  0 < width r → 0 < height r → 0 < viewSize (extent (mount c (Some r))).
Proof.
  intros HW HH. unfold viewSize. cbn.
  eapply Qlt_le_trans; [|apply Q.le_max_l]. lra.
Qed.

Lemma steady_mounted (c : Config) (svg : option Rect) :
  fst (scaleExtent c) <= 1 → 1 <= snd (scaleExtent c) →
  steady (scaleExtent c) (mounted c svg).
Proof. intros Hlo Hhi. by split_and!. Qed.

Lemma bounded_mounted (c : Config) (svg : option Rect) :
  1 <= snd (scaleExtent c) → bounded (scaleExtent c) (mounted c svg).
Proof. intros Hhi. by split_and!. Qed.

End TransitionFacts.

(** X27: the scale stays within the extent on every transform the
    viewport shows, the frames of running transitions included, on any
    course of zoomIn and zoomOut calls, transition ticks, wheel, drag
    and pinch input, filter changes and panel resizes after mount,
    however the calls and the input interleave with the ticks; this for
    a controller with no translate extent, a positive scale extent
    containing 1 and an svg of positive size.  With resets and double
    clicks mixed in (translate extent or not) the scale is still
    positive and at most the upper end of the extent on every such
    transform. *)
Theorem transition_frames_respect_the_scale_extent
    (c : UseZoomPan.Config) (r : UseZoomPan.Rect) :
  let lo := fst (UseZoomPan.scaleExtent c) in
  let hi := snd (UseZoomPan.scaleExtent c) in
  (0 < lo)%Q → (lo <= 1)%Q → (1 <= hi)%Q →
  (0 < UseZoomPan.width r)%Q → (0 < UseZoomPan.height r)%Q →
  (UseZoomPan.translateExtent c = None →
   ∀ evs s,
     forallb ZoomTransitions.isZoomStepOrInput evs = true →
     ZoomTransitions.run evs (ZoomTransitions.mounted c (Some r)) = Some s →
     (lo <= D3Zoom.k (UseZoomPan.transform (ZoomTransitions.hook s)))%Q
     ∧ (D3Zoom.k (UseZoomPan.transform (ZoomTransitions.hook s)) <= hi)%Q)
  ∧ (∀ evs s,
       forallb ZoomTransitions.isClamping evs = true →
       ZoomTransitions.run evs (ZoomTransitions.mounted c (Some r)) = Some s →
       (0 < D3Zoom.k (UseZoomPan.transform (ZoomTransitions.hook s)))%Q
       ∧ (D3Zoom.k (UseZoomPan.transform (ZoomTransitions.hook s)) <= hi)%Q).
Proof.
  intros lo hi Hlo Hlo1 Hhi HW HH.
  assert (Hle : (lo <= hi)%Q) by lra.
  split.
  - intros Hte evs s Hall Hrun.
    apply (steady_run (UseZoomPan.scaleExtent c) evs (ZoomTransitions.mounted c (Some r)) s
             eq_refl Hte Hlo Hle (viewSize_mount c r HW HH) Hall Hrun).
    by apply steady_mounted.
  - intros evs s Hall Hrun.
    apply (bounded_run (UseZoomPan.scaleExtent c) evs (ZoomTransitions.mounted c (Some r)) s
             eq_refl Hlo Hle Hhi (viewSize_mount c r HW HH) Hall Hrun).
    by apply bounded_mounted.
Qed.

(** X27 on the node-link pane, 300 x 200: zoomIn is called, its
    transition starts and shows a frame of scale 1.1; a second zoomIn
    arrives, interrupts the first at that frame and runs to its end,
    the scale 1.1 * 1.25 = 1.375. *)
Lemma transition_frames_respect_the_scale_extent_witness :
  ∃ s, ZoomTransitions.run
         [ZoomTransitions.EvZoomIn; ZoomTransitions.EvStart;
          ZoomTransitions.EvFrame (D3Zoom.mkTransform (11 # 10) (-15) (-10));
          ZoomTransitions.EvZoomIn; ZoomTransitions.EvStart; ZoomTransitions.EvEnd]
         (ZoomTransitions.mounted NodeLinkViewport.options (Some (UseZoomPan.mkRect 300 200)))
       = Some s
       ∧ (D3Zoom.k (UseZoomPan.transform (ZoomTransitions.hook s)) == 1375 # 1000)%Q
       ∧ ((1 # 10) <= D3Zoom.k (UseZoomPan.transform (ZoomTransitions.hook s)))%Q
       ∧ (D3Zoom.k (UseZoomPan.transform (ZoomTransitions.hook s)) <= 4)%Q.
Proof.
  eexists. split; [vm_compute; reflexivity|]. split; [vm_compute; reflexivity|].
  refine (proj1 (transition_frames_respect_the_scale_extent NodeLinkViewport.options
                   (UseZoomPan.mkRect 300 200) _ _ _ _ _) eq_refl
            [ZoomTransitions.EvZoomIn; ZoomTransitions.EvStart;
             ZoomTransitions.EvFrame (D3Zoom.mkTransform (11 # 10) (-15) (-10));
             ZoomTransitions.EvZoomIn; ZoomTransitions.EvStart; ZoomTransitions.EvEnd]
            _ eq_refl _);
    [reflexivity | vm_compute; discriminate | vm_compute; discriminate
     | reflexivity | reflexivity | vm_compute; reflexivity].
Defined.

(** X11: the zoom percentage the panes display is 100 at mount and, on
    every transform the viewport shows on a course of zoomIn and
    zoomOut calls, transition ticks, wheel, drag and pinch input
    (frames of running transitions included), it lies between 10 and
    400 for the extent [0.1, 4] of the node-link pane and between 50
    and 400 for the extent [0.5, 4] of the k-snakes and hop-census
    panes; with resets and double clicks mixed in it still lies between
    0 and 400. *)
Theorem zoomPercent_stays_within_the_extent
    (c : UseZoomPan.Config) (r : UseZoomPan.Rect)
    (evs : list ZoomTransitions.Event) (s : ZoomTransitions.State) :
  UseZoomPan.translateExtent c = None →
  (0 < UseZoomPan.width r)%Q → (0 < UseZoomPan.height r)%Q →
  ZoomTransitions.run evs (ZoomTransitions.mounted c (Some r)) = Some s →
  let p := UseZoomPan.zoomPercent (ZoomTransitions.hook s) in
  UseZoomPan.zoomPercent (UseZoomPan.mount c (Some r)) = 100%Z
  ∧ (forallb ZoomTransitions.isZoomStepOrInput evs = true →
     UseZoomPan.scaleExtent c = ((1 # 10)%Q, 4%Q) → (10 ≤ p ≤ 400)%Z)
  ∧ (forallb ZoomTransitions.isZoomStepOrInput evs = true →
     UseZoomPan.scaleExtent c = ((1 # 2)%Q, 4%Q) → (50 ≤ p ≤ 400)%Z)
  ∧ (forallb ZoomTransitions.isClamping evs = true →
     UseZoomPan.scaleExtent c = ((1 # 10)%Q, 4%Q)
     ∨ UseZoomPan.scaleExtent c = ((1 # 2)%Q, 4%Q) →
     (0 ≤ p ≤ 400)%Z).
Proof.
  intros Hte HW HH Hrun p.
  assert (Hpercent : ∀ a b : Q,
            (a <= D3Zoom.k (UseZoomPan.transform (ZoomTransitions.hook s)))%Q →
            (D3Zoom.k (UseZoomPan.transform (ZoomTransitions.hook s)) <= b)%Q →
            (Qfloor (a * 100 + (1 # 2)) ≤ p ≤ Qfloor (b * 100 + (1 # 2)))%Z).
  { intros a b Ha Hb. unfold p, UseZoomPan.zoomPercent.
    split; apply Qfloor_resp_le; lra. }
  assert (Hsteady : ∀ lo, forallb ZoomTransitions.isZoomStepOrInput evs = true →
            UseZoomPan.scaleExtent c = (lo, 4%Q) → (0 < lo)%Q → (lo <= 1)%Q →
            (lo <= D3Zoom.k (UseZoomPan.transform (ZoomTransitions.hook s)))%Q
            ∧ (D3Zoom.k (UseZoomPan.transform (ZoomTransitions.hook s)) <= 4)%Q).
  { intros lo Hall Hse Hlo Hlo1.
    assert (Hinv : ZoomTransitions.steady (lo, 4%Q) s).
    { apply (steady_run (lo, 4%Q) evs (ZoomTransitions.mounted c (Some r)) s
               Hse Hte Hlo ltac:(cbn; lra) (viewSize_mount c r HW HH) Hall Hrun).
      rewrite <- Hse. apply steady_mounted; rewrite Hse; cbn; lra. }
    apply Hinv. }
  assert (Hbounded : ∀ lo, forallb ZoomTransitions.isClamping evs = true →
            UseZoomPan.scaleExtent c = (lo, 4%Q) → (0 < lo)%Q → (lo <= 1)%Q →
            (0 <= D3Zoom.k (UseZoomPan.transform (ZoomTransitions.hook s)))%Q
            ∧ (D3Zoom.k (UseZoomPan.transform (ZoomTransitions.hook s)) <= 4)%Q).
  { intros lo Hall Hse Hlo Hlo1.
    assert (Hinv : ZoomTransitions.bounded (lo, 4%Q) s).
    { apply (bounded_run (lo, 4%Q) evs (ZoomTransitions.mounted c (Some r)) s
               Hse Hlo ltac:(cbn; lra) ltac:(cbn; lra) (viewSize_mount c r HW HH) Hall Hrun).
      rewrite <- Hse. apply bounded_mounted; rewrite Hse; cbn; lra. }
    destruct Hinv as ([H0 Hu] & _). split; [lra | exact Hu]. }
  split_and!.
  - reflexivity.
  - intros Hall Hse.
    destruct (Hsteady _ Hall Hse ltac:(reflexivity) ltac:(vm_compute; discriminate)) as [Hl Hu].
    exact (Hpercent _ _ Hl Hu).
  - intros Hall Hse.
    destruct (Hsteady _ Hall Hse ltac:(reflexivity) ltac:(vm_compute; discriminate)) as [Hl Hu].
    exact (Hpercent _ _ Hl Hu).
  - intros Hall [Hse | Hse];
      destruct (Hbounded _ Hall Hse ltac:(reflexivity) ltac:(vm_compute; discriminate))
        as [Hl Hu];
      exact (Hpercent _ _ Hl Hu).
Qed.

(** X11 on the node-link pane, 300 x 200: while the transition of a
    zoomIn shows a frame of scale 1.1 the pane displays 110, between 10
    and 400. *)
Lemma zoomPercent_stays_within_the_extent_witness :
  ∃ s, ZoomTransitions.run
         [ZoomTransitions.EvZoomIn; ZoomTransitions.EvStart;
          ZoomTransitions.EvFrame (D3Zoom.mkTransform (11 # 10) (-15) (-10))]
         (ZoomTransitions.mounted NodeLinkViewport.options (Some (UseZoomPan.mkRect 300 200)))
       = Some s
       ∧ UseZoomPan.zoomPercent (ZoomTransitions.hook s) = 110%Z
       ∧ (10 ≤ UseZoomPan.zoomPercent (ZoomTransitions.hook s) ≤ 400)%Z.
Proof.
  eexists. split; [vm_compute; reflexivity|]. split; [vm_compute; reflexivity|].
  refine (proj1 (proj2 (zoomPercent_stays_within_the_extent NodeLinkViewport.options
                          (UseZoomPan.mkRect 300 200)
                          [ZoomTransitions.EvZoomIn; ZoomTransitions.EvStart;
                           ZoomTransitions.EvFrame (D3Zoom.mkTransform (11 # 10) (-15) (-10))]
                          _ eq_refl _ _ _)) eq_refl eq_refl);
    [reflexivity | reflexivity | vm_compute; reflexivity].
Defined.

(** X13: a zoom step is anchored at the centre of the zoom extent, that
    is of the svg as it was built (its viewBox, or its width and height
    attributes), not of the rectangle the svg fills now: the content
    point under that centre when the step starts is under it in the
    transform the step installs, clamped or not; and a panel resize
    that leaves the attributes of the svg alone changes neither the
    anchor nor the transform a step installs. *)
Theorem zoom_steps_keep_the_centre_fixed (h : UseZoomPan.Hook) (r : UseZoomPan.Rect) :
  UseZoomPan.svgRef h = Some r →
  UseZoomPan.translateExtent (UseZoomPan.config h) = None →
  ¬ (D3Zoom.k (UseZoomPan.transform h) == 0)%Q →
  let centre := D3Zoom.centroid (UseZoomPan.extent h) in
  let under := D3Zoom.Transform_invert (UseZoomPan.transform h) centre in
  D3Zoom.Point_eq
    (D3Zoom.Transform_apply (UseZoomPan.transform (UseZoomPan.zoomIn h)) under) centre
  ∧ D3Zoom.Point_eq
      (D3Zoom.Transform_apply (UseZoomPan.transform (UseZoomPan.zoomOut h)) under) centre
  ∧ D3Zoom.Point_eq (D3Zoom.Transform_apply (UseZoomPan.transform h) under) centre
  ∧ (∀ r', UseZoomPan.extent (UseZoomPan.resized r' h) = UseZoomPan.extent h
           ∧ UseZoomPan.transform (UseZoomPan.zoomIn (UseZoomPan.resized r' h))
             = UseZoomPan.transform (UseZoomPan.zoomIn h)
           ∧ UseZoomPan.transform (UseZoomPan.zoomOut (UseZoomPan.resized r' h))
             = UseZoomPan.transform (UseZoomPan.zoomOut h)).
Proof.
  intros Hsvg Hte Hk centre under.
  split_and!.
  - unfold UseZoomPan.zoomIn. rewrite Hsvg, Hte.
    cbn [UseZoomPan.transform UseZoomPan.setTransform].
    destruct (scaleBy_components (UseZoomPan.scaleExtent (UseZoomPan.config h))
                (UseZoomPan.extent h) (UseZoomPan.transform h)
                (1 + UseZoomPan.zoomStep (UseZoomPan.config h))) as (_ & Hx & Hy).
    split; cbn [D3Zoom.Transform_apply fst snd under D3Zoom.Transform_invert].
    + rewrite Hx. fold centre. ring.
    + rewrite Hy. fold centre. ring.
  - unfold UseZoomPan.zoomOut. rewrite Hsvg, Hte.
    cbn [UseZoomPan.transform UseZoomPan.setTransform].
    destruct (scaleBy_components (UseZoomPan.scaleExtent (UseZoomPan.config h))
                (UseZoomPan.extent h) (UseZoomPan.transform h)
                (1 / (1 + UseZoomPan.zoomStep (UseZoomPan.config h)))) as (_ & Hx & Hy).
    split; cbn [D3Zoom.Transform_apply fst snd under D3Zoom.Transform_invert].
    + rewrite Hx. fold centre. ring.
    + rewrite Hy. fold centre. ring.
  - split; cbn [D3Zoom.Transform_apply fst snd under D3Zoom.Transform_invert];
      unfold D3Zoom.invertX, D3Zoom.invertY; field; exact Hk.
  - intros r'. unfold UseZoomPan.zoomIn, UseZoomPan.zoomOut, UseZoomPan.resized.
    rewrite Hsvg. by cbn.
Qed.

(** X13 on the node-link pane built 200 x 200 and stretched to
    400 x 200 since: zoomIn from the identity installs scale 1.25 with
    translation (-25, -25), which keeps (100, 100), the centre of the
    viewBox, in place; the centre (200, 100) of the stretched rectangle
    moves. *)
Lemma zoom_steps_keep_the_centre_fixed_witness :
  let h := UseZoomPan.resized (UseZoomPan.mkRect 400 200)
             (UseZoomPan.mount NodeLinkViewport.options (Some (UseZoomPan.mkRect 200 200))) in
  let t := UseZoomPan.transform (UseZoomPan.zoomIn h) in
  ((D3Zoom.k t == 5 # 4)%Q ∧ (D3Zoom.x t == -25)%Q ∧ (D3Zoom.y t == -25)%Q)
  ∧ D3Zoom.Point_eq (D3Zoom.Transform_apply t (100, 100)%Q) (100, 100)%Q
  ∧ ¬ D3Zoom.Point_eq (D3Zoom.Transform_apply t (200, 100)%Q) (200, 100)%Q.
Proof.
  intros h t.
  destruct (zoom_steps_keep_the_centre_fixed h (UseZoomPan.mkRect 400 200) eq_refl eq_refl
              ltac:(vm_compute; discriminate)) as ([Hx Hy] & _).
  split; [|split].
  - split_and!; vm_compute; reflexivity.
  - split.
    + eapply Qeq_trans; [|eapply Qeq_trans; [exact Hx|]]; vm_compute; reflexivity.
    + eapply Qeq_trans; [|eapply Qeq_trans; [exact Hy|]]; vm_compute; reflexivity.
  - intros [Hx' _]. vm_compute in Hx'. discriminate Hx'.
Defined.

(** X15: the transform [fitToContent] installs depends only on the
    surface, the bounds, the padding and the configured maximal scale,
    not on the viewport's history: it is the same after any sequence
    of operations, and fitting twice is fitting once. *)
Theorem fitToContent_forgets_the_history
    (h : UseZoomPan.Hook) (r : UseZoomPan.Rect) (b : UseZoomPan.Bounds) (p : Q)
    (ops : list UseZoomPan.Op) :
  UseZoomPan.svgRef h = Some r →
  ¬ (UseZoomPan.width r == 0)%Q → ¬ (UseZoomPan.height r == 0)%Q →
  ¬ (UseZoomPan.bwidth b == 0)%Q → ¬ (UseZoomPan.bheight b == 0)%Q →
  UseZoomPan.transform (UseZoomPan.fitToContent (UseZoomPan.run ops h) (Some b) p)
  = UseZoomPan.transform (UseZoomPan.fitToContent h (Some b) p)
  ∧ UseZoomPan.fitToContent (UseZoomPan.fitToContent h (Some b) p) (Some b) p
    = UseZoomPan.fitToContent h (Some b) p.
Proof.
  intros Hsvg HW HH Hbw Hbh.
  assert (Hfit : ∀ h', UseZoomPan.svgRef h' = Some r →
            UseZoomPan.config h' = UseZoomPan.config h →
            UseZoomPan.transform (UseZoomPan.fitToContent h' (Some b) p)
            = UseZoomPan.transform (UseZoomPan.fitToContent h (Some b) p)).
  { intros h' Hs Hc. unfold UseZoomPan.fitToContent. rewrite Hs, Hsvg, Hc.
    rewrite (Qeq_bool_false_ne _ _ HW), (Qeq_bool_false_ne _ _ HH),
            (Qeq_bool_false_ne _ _ Hbw), (Qeq_bool_false_ne _ _ Hbh).
    reflexivity. }
  assert (Hset : ∀ h', UseZoomPan.svgRef h' = Some r →
            UseZoomPan.fitToContent h' (Some b) p
            = UseZoomPan.setTransform
                (UseZoomPan.transform (UseZoomPan.fitToContent h' (Some b) p)) h').
  { intros h' Hs. unfold UseZoomPan.fitToContent. rewrite Hs.
    rewrite (Qeq_bool_false_ne _ _ HW), (Qeq_bool_false_ne _ _ HH),
            (Qeq_bool_false_ne _ _ Hbw), (Qeq_bool_false_ne _ _ Hbh).
    reflexivity. }
  split.
  - apply Hfit; [by rewrite run_svgRef | apply run_config].
  - rewrite (Hset (UseZoomPan.fitToContent h (Some b) p)).
    + rewrite Hfit.
      * rewrite (Hset h Hsvg) at 2 3. reflexivity.
      * rewrite (Hset h Hsvg). exact Hsvg.
      * rewrite (Hset h Hsvg). reflexivity.
    + rewrite (Hset h Hsvg). exact Hsvg.
Qed.

(** X15 after a few zooms, a pan and a direct assignment. *)
Lemma fitToContent_forgets_the_history_witness :
  let h := UseZoomPan.mount NodeLinkViewport.options (Some (UseZoomPan.mkRect 300 200)) in
  let b := UseZoomPan.mkBounds 10 20 600 100 in
  let ops := [UseZoomPan.OpZoomIn; UseZoomPan.OpGesture (UseZoomPan.GPan (5, 5) (1, 2))%Q false;
              UseZoomPan.OpSetTransform (D3Zoom.mkTransform 3 7 9)] in
  UseZoomPan.transform (UseZoomPan.fitToContent (UseZoomPan.run ops h) (Some b) 10)
  = UseZoomPan.transform (UseZoomPan.fitToContent h (Some b) 10).
Proof.
  intros h b ops.
  apply (fitToContent_forgets_the_history h (UseZoomPan.mkRect 300 200) b 10 ops eq_refl);
    intros H; discriminate H.
Defined.

Section FitFacts.
Import D3Zoom UseZoomPan.
Local Open Scope Q_scope.

(** A coordinate of a point of the bounds, after the fit. *)
Lemma fit_axis (W p s lo w u tr : Q) :
  0 < w → 0 <= s → s <= (W - p * 2) / w → 0 <= W - p * 2 →
  tr == W / 2 - s * (lo + w / 2) →
  lo <= u → u <= lo + w →
  p <= u * s + tr ∧ u * s + tr <= W - p.
Proof.
  intros Hw Hs Hsw Hroom Htr Hl Hu.
  assert (Hfit : s * w <= W - p * 2).
  { assert (H1 : s * w <= (W - p * 2) / w * w) by (apply Qmult_le_compat_r; lra).
    assert (H2 : (W - p * 2) / w * w == W - p * 2) by (field; lra).
    lra. }
  assert (H1 : 0 <= s * (u - lo)) by (apply Qmult_le_0_compat; lra).
  assert (H2 : 0 <= s * (lo + w - u)) by (apply Qmult_le_0_compat; lra).
  assert (E1 : s * (u - lo) == u * s - s * lo) by ring.
  assert (E2 : s * (lo + w - u) == s * lo + s * w - u * s) by ring.
  assert (E3 : s * (lo + w / 2) == s * lo + s * w * (1 # 2)) by field.
  assert (E4 : W / 2 == W * (1 # 2)) by field.
  rewrite Htr, E3, E4. clear Hsw Htr.
  set (a := s * lo) in *. set (c := s * w) in *. set (d := u * s) in *.
  split; lra.
Qed.

Lemma min3_lower (a b c m : Q) : m <= a → m <= b → m <= c → m <= min3 a b c.
Proof. intros. unfold min3. repeat apply Q.min_glb; assumption. Qed.

Lemma min3_le_1 (a b c : Q) : min3 a b c <= a.
Proof. unfold min3. eapply Qle_trans; [apply Q.le_min_l | apply Q.le_min_l]. Qed.

Lemma min3_le_2 (a b c : Q) : min3 a b c <= b.
Proof. unfold min3. eapply Qle_trans; [apply Q.le_min_l | apply Q.le_min_r]. Qed.

Lemma div_nonneg (a b : Q) : 0 <= a → 0 < b → 0 <= a / b.
Proof.
  intros Ha Hb. unfold Qdiv. apply Qmult_le_0_compat; [exact Ha|].
  apply Qinv_le_0_compat. lra.
Qed.

End FitFacts.

(** Every point of the bounds lands inside the padded surface. *)
Lemma fitToContent_contains
    (h : UseZoomPan.Hook) (r : UseZoomPan.Rect) (b : UseZoomPan.Bounds) (p u v : Q) :
  UseZoomPan.svgRef h = Some r →
  (0 < UseZoomPan.width r)%Q → (0 < UseZoomPan.height r)%Q →
  (0 < UseZoomPan.bwidth b)%Q → (0 < UseZoomPan.bheight b)%Q →
  (p * 2 <= UseZoomPan.width r)%Q → (p * 2 <= UseZoomPan.height r)%Q →
  (0 <= snd (UseZoomPan.scaleExtent (UseZoomPan.config h)))%Q →
  (UseZoomPan.bx b <= u)%Q → (u <= UseZoomPan.bx b + UseZoomPan.bwidth b)%Q →
  (UseZoomPan.by_ b <= v)%Q → (v <= UseZoomPan.by_ b + UseZoomPan.bheight b)%Q →
  let t := UseZoomPan.transform (UseZoomPan.fitToContent h (Some b) p) in
  let q := D3Zoom.Transform_apply t (u, v) in
  (p <= fst q)%Q ∧ (fst q <= UseZoomPan.width r - p)%Q
  ∧ (p <= snd q)%Q ∧ (snd q <= UseZoomPan.height r - p)%Q.
Proof.
  intros Hsvg HW HH Hbw Hbh HpW HpH Hmax Hu1 Hu2 Hv1 Hv2 t q.
  destruct (fitToContent_components h r b p Hsvg) as (Hk & Hx & Hy); try lra.
  fold t in Hk, Hx, Hy.
  set (s := UseZoomPan.min3 ((UseZoomPan.width r - p * 2) / UseZoomPan.bwidth b)
              ((UseZoomPan.height r - p * 2) / UseZoomPan.bheight b)
              (snd (UseZoomPan.scaleExtent (UseZoomPan.config h)))) in *.
  assert (Hs0 : (0 <= s)%Q).
  { apply min3_lower; [apply div_nonneg; lra | apply div_nonneg; lra | exact Hmax]. }
  assert (Hs1 := min3_le_1 ((UseZoomPan.width r - p * 2) / UseZoomPan.bwidth b)
              ((UseZoomPan.height r - p * 2) / UseZoomPan.bheight b)
              (snd (UseZoomPan.scaleExtent (UseZoomPan.config h)))).
  assert (Hs2 := min3_le_2 ((UseZoomPan.width r - p * 2) / UseZoomPan.bwidth b)
              ((UseZoomPan.height r - p * 2) / UseZoomPan.bheight b)
              (snd (UseZoomPan.scaleExtent (UseZoomPan.config h)))).
  fold s in Hs1, Hs2.
  unfold q, D3Zoom.Transform_apply. cbn [fst snd]. rewrite Hk.
  assert (HrW : (0 <= UseZoomPan.width r - p * 2)%Q) by lra.
  assert (HrH : (0 <= UseZoomPan.height r - p * 2)%Q) by lra.
  destruct (fit_axis (UseZoomPan.width r) p s (UseZoomPan.bx b) (UseZoomPan.bwidth b) u
              (D3Zoom.x t) Hbw Hs0 Hs1 HrW Hx Hu1 Hu2) as [Hx1 Hx2].
  destruct (fit_axis (UseZoomPan.height r) p s (UseZoomPan.by_ b) (UseZoomPan.bheight b) v
              (D3Zoom.y t) Hbh Hs0 Hs2 HrH Hy Hv1 Hv2) as [Hy1 Hy2].
  split_and!; assumption.
Qed.


(** X16: on a surface with room for the padding (2p at most W and H),
    positive bounds and a non-negative maximal scale, the transform
    installed by [fitToContent] shows the whole bounds rectangle inside
    the padded surface: every point of the bounds lands between p and
    W - p horizontally and between p and H - p vertically. *)
Theorem fitToContent_shows_the_bounds_inside_the_padded_surface
    (h : UseZoomPan.Hook) (r : UseZoomPan.Rect) (b : UseZoomPan.Bounds) (p u v : Q) :
  UseZoomPan.svgRef h = Some r →
  (0 < UseZoomPan.width r)%Q → (0 < UseZoomPan.height r)%Q →
  (0 < UseZoomPan.bwidth b)%Q → (0 < UseZoomPan.bheight b)%Q →
  (p * 2 <= UseZoomPan.width r)%Q → (p * 2 <= UseZoomPan.height r)%Q →
  (0 <= snd (UseZoomPan.scaleExtent (UseZoomPan.config h)))%Q →
  (UseZoomPan.bx b <= u)%Q → (u <= UseZoomPan.bx b + UseZoomPan.bwidth b)%Q →
  (UseZoomPan.by_ b <= v)%Q → (v <= UseZoomPan.by_ b + UseZoomPan.bheight b)%Q →
  let t := UseZoomPan.transform (UseZoomPan.fitToContent h (Some b) p) in
  let q := D3Zoom.Transform_apply t (u, v) in
  (p <= fst q)%Q ∧ (fst q <= UseZoomPan.width r - p)%Q
  ∧ (p <= snd q)%Q ∧ (snd q <= UseZoomPan.height r - p)%Q.
Proof. apply fitToContent_contains. Qed.

(** X16 for the corner (610, 120) of the bounds [{10, 20, 600, 100}] on
    a 300 x 200 surface with padding 10. *)
Lemma fitToContent_shows_the_bounds_inside_the_padded_surface_witness :
  let h := UseZoomPan.mount NodeLinkViewport.options (Some (UseZoomPan.mkRect 300 200)) in
  let t := UseZoomPan.transform
             (UseZoomPan.fitToContent h (Some (UseZoomPan.mkBounds 10 20 600 100)) 10) in
  let q := D3Zoom.Transform_apply t (610, 120)%Q in
  (10 <= fst q)%Q ∧ (fst q <= 300 - 10)%Q ∧ (10 <= snd q)%Q ∧ (snd q <= 200 - 10)%Q.
Proof.
  intros h t q.
  apply (fitToContent_shows_the_bounds_inside_the_padded_surface h (UseZoomPan.mkRect 300 200)
           (UseZoomPan.mkBounds 10 20 600 100) 10 610 120 eq_refl);
    vm_compute; first [reflexivity | discriminate].
Defined.

(* ===================================================================== *)
(** * Further properties: node-link pane *)
(* ===================================================================== *)

Section ArrayFacts.
Local Open Scope Q_scope.





End ArrayFacts.

Section NodeBoundsFacts.
Import NodeLinkViewport.
Local Open Scope Q_scope.


End NodeBoundsFacts.



(** X18: the filter the node-link pane installs replaces d3-zoom's
    default filter.  It accepts an event exactly when it is a wheel
    event or does not start on a node, whatever the control key and the
    mouse button.  So with it installed a drag, double click or pinch
    that starts on a node leaves the viewport as it is; a gesture the
    default filter accepts that is a wheel step or starts off the nodes
    installs the same transform as with no filter installed; and a
    drag, double click or pinch off the nodes with the control key
    held or with another button than the primary one, which the
    default filter ignores, is handled like the plain gesture. *)
Theorem zoomFilter_keeps_node_gestures_from_the_viewport (h : UseZoomPan.Hook) :
  let h' := UseZoomPan.setFilter NodeLinkViewport.zoomFilter h in
  (∀ ev, NodeLinkViewport.zoomFilter ev = true
         ↔ UseZoomPan.type ev = UseZoomPan.Wheel ∨ UseZoomPan.targetIsNode ev = false)
  ∧ (∀ g ctrl btn,
       UseZoomPan.gestureType g ≠ UseZoomPan.Wheel →
       UseZoomPan.gestureOn g true ctrl btn h' = h')
  ∧ (∀ g onNode ctrl btn,
       UseZoomPan.filterFn h = None →
       UseZoomPan.defaultFilter (UseZoomPan.mkRawEvent (UseZoomPan.gestureType g) onNode ctrl btn)
       = true →
       UseZoomPan.gestureType g = UseZoomPan.Wheel ∨ onNode = false →
       UseZoomPan.transform (UseZoomPan.gestureOn g onNode ctrl btn h')
       = UseZoomPan.transform (UseZoomPan.gestureOn g onNode ctrl btn h))
  ∧ (∀ g ctrl btn,
       UseZoomPan.filterFn h = None →
       UseZoomPan.gestureType g ≠ UseZoomPan.Wheel →
       ctrl = true ∨ btn ≠ 0%Z →
       UseZoomPan.gestureOn g false ctrl btn h = h
       ∧ UseZoomPan.gestureOn g false ctrl btn h' = UseZoomPan.gesture g false h').
Proof.
  intros h'. split_and!.
  - intros [ty onNode ctrl btn]. unfold NodeLinkViewport.zoomFilter. cbn.
    destruct ty, onNode; naive_solver.
  - intros g ctrl btn Hg. unfold UseZoomPan.gestureOn, UseZoomPan.accepts. cbn.
    destruct (UseZoomPan.svgRef h); [|reflexivity].
    unfold NodeLinkViewport.zoomFilter. cbn. by destruct g.
  - intros g onNode ctrl btn Hnone Hdef Hoff.
    unfold UseZoomPan.gestureOn, UseZoomPan.accepts. cbn. rewrite Hnone, Hdef.
    destruct (UseZoomPan.svgRef h); [|reflexivity].
    unfold NodeLinkViewport.zoomFilter. cbn.
    destruct Hoff as [Hw | ->]; destruct g; try discriminate Hw; try reflexivity;
      by destruct onNode.
  - intros g ctrl btn Hnone Hg Hmod. split.
    + unfold UseZoomPan.gestureOn, UseZoomPan.accepts. rewrite Hnone.
      destruct (UseZoomPan.svgRef h); [|reflexivity].
      unfold UseZoomPan.defaultFilter. cbn.
      destruct Hmod as [-> | Hbtn].
      * by destruct g.
      * apply Z.eqb_neq in Hbtn. rewrite Hbtn. by rewrite andb_false_r.
    + unfold UseZoomPan.gesture, UseZoomPan.gestureOn, UseZoomPan.accepts. cbn.
      destruct (UseZoomPan.svgRef h); [|reflexivity].
      unfold NodeLinkViewport.zoomFilter. cbn. by destruct g.
Qed.

Section DragFacts.
Import D3Force NodeLinkPane.
Local Open Scope Q_scope.

Lemma updateSubject_other (f : SimNode → SimNode) (event : DragEvent) (sim : Simulation)
    (j : nat) :
  j ≠ subject event → nodes (updateSubject f event sim) !! j = nodes sim !! j.
Proof. intros Hj. unfold updateSubject. cbn. by apply list_lookup_alter_ne. Qed.

Lemma updateSubject_subject (f : SimNode → SimNode) (event : DragEvent) (sim : Simulation) :
  nodes (updateSubject f event sim) !! subject event = f <$> nodes sim !! subject event.
Proof. unfold updateSubject. cbn. apply list_lookup_alter_eq. Qed.

Lemma nodes_of_start (event : DragEvent) (sim : Simulation) :
  nodes (if Nat.eqb (active event) 0 then restart (set_alphaTarget (3 # 10) sim) else sim)
  = nodes sim.
Proof. by destruct (Nat.eqb _ _). Qed.

Lemma nodes_of_end (event : DragEvent) (sim : Simulation) :
  nodes (if Nat.eqb (active event) 0 then set_alphaTarget 0 sim else sim) = nodes sim.
Proof. by destruct (Nat.eqb _ _). Qed.

(** What each handler does to the node array: nothing off the subject,
    and on the subject only the pin. *)
Lemma dragstarted_nodes (event : DragEvent) (sim : Simulation) (j : nat) :
  nodes (dragstarted event sim) !! j
  = if decide (j = subject event)
    then (λ n, set_fy (Some (y n)) (set_fx (Some (x n)) n)) <$> nodes sim !! j
    else nodes sim !! j.
Proof.
  unfold dragstarted. destruct (decide (j = subject event)) as [->|Hj].
  - rewrite !updateSubject_subject, nodes_of_start. by destruct (nodes sim !! _).
  - rewrite !updateSubject_other, nodes_of_start by done. reflexivity.
Qed.

Lemma dragged_nodes (event : DragEvent) (sim : Simulation) (j : nat) :
  nodes (dragged event sim) !! j
  = if decide (j = subject event)
    then (λ n, set_fy (Some (ev_y event)) (set_fx (Some (ev_x event)) n)) <$> nodes sim !! j
    else nodes sim !! j.
Proof.
  unfold dragged. destruct (decide (j = subject event)) as [->|Hj].
  - rewrite !updateSubject_subject. by destruct (nodes sim !! _).
  - by rewrite !updateSubject_other.
Qed.

Lemma dragended_nodes (event : DragEvent) (sim : Simulation) (j : nat) :
  nodes (dragended event sim) !! j
  = if decide (j = subject event)
    then (λ n, set_fy None (set_fx None n)) <$> nodes sim !! j
    else nodes sim !! j.
Proof.
  unfold dragended. destruct (decide (j = subject event)) as [->|Hj].
  - rewrite !updateSubject_subject, nodes_of_end. by destruct (nodes sim !! _).
  - rewrite !updateSubject_other, nodes_of_end by done. reflexivity.
Qed.

Lemma drag_links (event : DragEvent) (sim : Simulation) :
  links (dragstarted event sim) = links sim
  ∧ links (dragged event sim) = links sim
  ∧ links (dragended event sim) = links sim.
Proof.
  unfold dragstarted, dragged, dragended, updateSubject.
  destruct (Nat.eqb _ _); by cbn.
Qed.

(** While the pointer moves, the array differs from the one at drag
    start at most in the pin of the subject. *)
End DragFacts.

(** X19: the three drag handlers write nothing but the pin of the
    dragged node: every other node, the number of nodes, the links,
    and the dragged node's identifier, position and velocity are as
    before; while dragging, the pin is the pointer position. *)
Theorem drag_handlers_write_only_the_pin
    (event : NodeLinkPane.DragEvent) (sim : D3Force.Simulation) :
  let handlers := [NodeLinkPane.dragstarted event; NodeLinkPane.dragged event;
                   NodeLinkPane.dragended event] in
  (∀ f, f ∈ handlers →
        (∀ j, j ≠ NodeLinkPane.subject event →
              D3Force.nodes (f sim) !! j = D3Force.nodes sim !! j)
        ∧ length (D3Force.nodes (f sim)) = length (D3Force.nodes sim)
        ∧ D3Force.links (f sim) = D3Force.links sim
        ∧ (∀ n, D3Force.nodes sim !! NodeLinkPane.subject event = Some n →
                ∃ n', D3Force.nodes (f sim) !! NodeLinkPane.subject event = Some n'
                      ∧ D3Force.node_idx n' = D3Force.node_idx n
                      ∧ D3Force.x n' = D3Force.x n ∧ D3Force.y n' = D3Force.y n
                      ∧ D3Force.vx n' = D3Force.vx n ∧ D3Force.vy n' = D3Force.vy n))
  ∧ (∀ n, D3Force.nodes sim !! NodeLinkPane.subject event = Some n →
          ∃ n', D3Force.nodes (NodeLinkPane.dragged event sim) !! NodeLinkPane.subject event
                = Some n'
                ∧ D3Force.fx n' = Some (NodeLinkPane.ev_x event)
                ∧ D3Force.fy n' = Some (NodeLinkPane.ev_y event)).
Proof.
  intros handlers. split.
  - intros f Hf.
    assert (Hlook : ∃ g, (∀ j, D3Force.nodes (f sim) !! j
                               = if decide (j = NodeLinkPane.subject event)
                                 then g <$> D3Force.nodes sim !! j
                                 else D3Force.nodes sim !! j)
                         ∧ ∀ n, NodeLinkViewport.samePlace n (g n)).
    { unfold handlers in Hf. rewrite !elem_of_cons in Hf.
      destruct Hf as [->|[->|[->|Hf]]]; [| | |by apply elem_of_nil in Hf]; eexists; split.
      - intros j. apply dragstarted_nodes.
      - intros n. by repeat split.
      - intros j. apply dragged_nodes.
      - intros n. by repeat split.
      - intros j. apply dragended_nodes.
      - intros n. by repeat split. }
    destruct Hlook as (g & Hlook & Hg). split_and!.
    + intros j Hj. rewrite Hlook. by rewrite decide_False.
    + unfold handlers in Hf. rewrite !elem_of_cons in Hf.
      destruct Hf as [->|[->|[->|Hf]]]; [| | |by apply elem_of_nil in Hf];
        unfold NodeLinkPane.dragstarted, NodeLinkPane.dragged, NodeLinkPane.dragended,
               NodeLinkPane.updateSubject; cbn;
        rewrite ?length_alter; try reflexivity;
        by destruct (Nat.eqb _ _).
    + unfold handlers in Hf. rewrite !elem_of_cons in Hf.
      destruct (drag_links event sim) as (H1 & H2 & H3).
      destruct Hf as [->|[->|[->|Hf]]]; [done|done|done|by apply elem_of_nil in Hf].
    + intros n Hn. rewrite Hlook, decide_True, Hn by done. eexists. split; [reflexivity|].
      apply Hg.
  - intros n Hn. rewrite dragged_nodes, decide_True, Hn by done.
    eexists. split; [reflexivity|]. by split.
Qed.

(** X21: the resize handler ignores a container without positive width
    and height; otherwise it re-targets the centre force at the new
    centre, sets alpha to 0.3 and restarts, and it never touches nodes,
    pins, links or the alpha target.  It commutes with every drag
    handler, so a resize in the middle of a drag releases nothing. *)
Theorem resize_commutes_with_drag
    (r : NodeLinkPane.Rect) (event : NodeLinkPane.DragEvent) (sim : D3Force.Simulation) :
  NodeLinkPane.resized r (NodeLinkPane.dragstarted event sim)
  = NodeLinkPane.dragstarted event (NodeLinkPane.resized r sim)
  ∧ NodeLinkPane.resized r (NodeLinkPane.dragged event sim)
    = NodeLinkPane.dragged event (NodeLinkPane.resized r sim)
  ∧ NodeLinkPane.resized r (NodeLinkPane.dragended event sim)
    = NodeLinkPane.dragended event (NodeLinkPane.resized r sim)
  ∧ D3Force.nodes (NodeLinkPane.resized r sim) = D3Force.nodes sim
  ∧ D3Force.links (NodeLinkPane.resized r sim) = D3Force.links sim
  ∧ D3Force.alphaTarget (NodeLinkPane.resized r sim) = D3Force.alphaTarget sim
  ∧ (¬ ((0 < NodeLinkPane.width r)%Q ∧ (0 < NodeLinkPane.height r)%Q) →
     NodeLinkPane.resized r sim = sim)
  ∧ ((0 < NodeLinkPane.width r)%Q → (0 < NodeLinkPane.height r)%Q →
     D3Force.center (NodeLinkPane.resized r sim)
     = (NodeLinkPane.width r / 2, NodeLinkPane.height r / 2)%Q
     ∧ D3Force.alpha (NodeLinkPane.resized r sim) = (3 # 10)%Q
     ∧ D3Force.running (NodeLinkPane.resized r sim) = true).
Proof.
  assert (Hpos : negb (Qle_bool (NodeLinkPane.width r) 0)
                 && negb (Qle_bool (NodeLinkPane.height r) 0) = true
                 ↔ (0 < NodeLinkPane.width r)%Q ∧ (0 < NodeLinkPane.height r)%Q).
  { rewrite andb_true_iff, !negb_true_iff. split.
    - intros [A B]. split; apply Qnot_le_lt; rewrite <- Qle_bool_iff; congruence.
    - intros [A B].
      split; (destruct (Qle_bool _ 0) eqn:E; [apply Qle_bool_iff in E; lra | reflexivity]). }
  unfold NodeLinkPane.resized, NodeLinkPane.dragstarted, NodeLinkPane.dragged,
    NodeLinkPane.dragended, NodeLinkPane.updateSubject.
  destruct (negb (Qle_bool (NodeLinkPane.width r) 0)
            && negb (Qle_bool (NodeLinkPane.height r) 0)) eqn:E.
  - split_and!; try reflexivity.
    + by destruct (Nat.eqb _ _).
    + by destruct (Nat.eqb _ _).
    + intros Hn. exfalso. apply Hn. by apply Hpos.
    + intros _ _. by split_and!.
  - split_and!; try reflexivity.
    intros Hw Hh. assert (false = true) by (by apply Hpos). discriminate.
Qed.

(** X22: when the build succeeds with random draws in [0, 1) and a
    container of positive size, the simulation has one node per dataset
    node, every node starts inside the container ([0 <= x < width],
    [0 <= y < height]) at rest and unpinned, and the simulation starts
    running with alpha 1, alpha target 0 and its centre force at the
    middle of the container. *)
Theorem build_starts_nodes_inside_the_container_unpinned
    (random : nat → Q) (r : NodeLinkPane.Rect) (d : NodeLinkPane.Data)
    (sim : D3Force.Simulation) :
  (∀ i, (0 <= random i)%Q ∧ (random i < 1)%Q) →
  (0 < NodeLinkPane.width r)%Q → (0 < NodeLinkPane.height r)%Q →
  NodeLinkPane.buildSimulation random (Some r) (Some d) = NodeLinkPane.Built sim →
  length (D3Force.nodes sim) = length (NodeLinkPane.data_nodes d)
  ∧ (∀ n, n ∈ D3Force.nodes sim →
          (0 <= D3Force.x n)%Q ∧ (D3Force.x n < NodeLinkPane.width r)%Q
          ∧ (0 <= D3Force.y n)%Q ∧ (D3Force.y n < NodeLinkPane.height r)%Q
          ∧ D3Force.vx n = 0%Q ∧ D3Force.vy n = 0%Q
          ∧ D3Force.fx n = None ∧ D3Force.fy n = None)
  ∧ D3Force.alpha sim = 1%Q ∧ D3Force.alphaTarget sim = 0%Q
  ∧ D3Force.running sim = true
  ∧ D3Force.center sim = (NodeLinkPane.width r / 2, NodeLinkPane.height r / 2)%Q.
Proof.
  intros Hrand HW HH Hbuild. unfold NodeLinkPane.buildSimulation in Hbuild.
  rewrite (Qeq_bool_false_lt _ HW), (Qeq_bool_false_lt _ HH) in Hbuild. cbn [orb] in Hbuild.
  unfold D3Force.forceSimulation in Hbuild.
  destruct (D3Force.resolveLinks _ _) as [e|ls]; [discriminate|].
  injection Hbuild as <-. cbn [D3Force.nodes D3Force.alpha D3Force.alphaTarget
    D3Force.running D3Force.center].
  split_and!; try reflexivity.
  - unfold NodeLinkPane.prepareNodes. apply length_imap.
  - intros n Hn. apply list_elem_of_lookup in Hn as [i Hi].
    unfold NodeLinkPane.prepareNodes in Hi. rewrite list_lookup_imap in Hi.
    destruct (NodeLinkPane.data_nodes d !! i) as [nr|]; [|discriminate].
    injection Hi as <-.
    cbn [D3Force.x D3Force.y D3Force.vx D3Force.vy D3Force.fx D3Force.fy].
    destruct (Hrand (2 * i)%nat) as [Ha Hb]. destruct (Hrand (2 * i + 1)%nat) as [Hc Hd].
    change (i + (i + 0))%nat with (2 * i)%nat.
    set (u := random (2 * i)%nat) in *. set (v := random (2 * i + 1)%nat) in *.
    split_and!; try reflexivity.
    + apply Qmult_le_0_compat; [exact Ha | by apply Qlt_le_weak].
    + assert (u * NodeLinkPane.width r < 1 * NodeLinkPane.width r)%Q
        by (apply Qmult_lt_compat_r; assumption).
      lra.
    + apply Qmult_le_0_compat; [exact Hc | by apply Qlt_le_weak].
    + assert (v * NodeLinkPane.height r < 1 * NodeLinkPane.height r)%Q
        by (apply Qmult_lt_compat_r; assumption).
      lra.
Qed.

(** X22 on a triangle in a 200 x 100 container with all draws 1/2:
    three nodes, each at (100, 50). *)
Lemma build_starts_nodes_inside_the_container_unpinned_witness :
  let d := NodeLinkPane.mkData
             [NodeLinkPane.mkNodeRef 0; NodeLinkPane.mkNodeRef 1; NodeLinkPane.mkNodeRef 2]
             [NodeLinkPane.mkEdgeRef 0 0 1; NodeLinkPane.mkEdgeRef 1 1 2;
              NodeLinkPane.mkEdgeRef 2 2 0] in
  ∃ sim, NodeLinkPane.buildSimulation (λ _, (1 # 2)%Q)
           (Some (NodeLinkPane.mkRect 200 100)) (Some d) = NodeLinkPane.Built sim
         ∧ length (D3Force.nodes sim) = 3%nat
         ∧ D3Force.running sim = true.
Proof.
  intros d. eexists. split; [vm_compute; reflexivity|].
  match goal with
  | |- length (D3Force.nodes ?s) = _ ∧ _ =>
      destruct (build_starts_nodes_inside_the_container_unpinned (λ _, (1 # 2)%Q)
                  (NodeLinkPane.mkRect 200 100) d s
                  ltac:(intros; split; [discriminate | reflexivity])
                  ltac:(reflexivity) ltac:(reflexivity) ltac:(vm_compute; reflexivity))
        as (Hlen & _ & _ & _ & Hrun & _)
  end.
  split; [exact Hlen | exact Hrun].
Defined.

(* ===================================================================== *)
(** * Further properties: k-snakes pane *)
(* ===================================================================== *)

(** X23: the k-snakes plot is a square centred in the container: its
    side is the smaller of the width and height left by the base
    margins, the final margins and the side add up to the container's
    width and height, the slack is split evenly between opposite
    margins, no margin is smaller than its base value, and the
    rectangle handed to fit-to-content is exactly this square. *)
Theorem ksnakes_plot_is_a_centred_square (rect : KSnakesPane.Rect) :
  let m := KSnakesLayout.margin rect in
  let base := KSnakesLayout.baseMargin in
  let side := KSnakesPane.plotSize rect in
  (KSnakesLayout.left m + side + KSnakesLayout.right m == KSnakesPane.width rect)%Q
  ∧ (KSnakesLayout.top m + side + KSnakesLayout.bottom m == KSnakesPane.height rect)%Q
  ∧ (KSnakesLayout.left m - KSnakesLayout.left base
     == KSnakesLayout.right m - KSnakesLayout.right base)%Q
  ∧ (KSnakesLayout.top m - KSnakesLayout.top base
     == KSnakesLayout.bottom m - KSnakesLayout.bottom base)%Q
  ∧ (KSnakesLayout.left base <= KSnakesLayout.left m)%Q
  ∧ (KSnakesLayout.top base <= KSnakesLayout.top m)%Q
  ∧ (side <= KSnakesLayout.availableWidth rect)%Q
  ∧ (side <= KSnakesLayout.availableHeight rect)%Q
  ∧ ((side == KSnakesLayout.availableWidth rect)%Q
     ∨ (side == KSnakesLayout.availableHeight rect)%Q)
  ∧ KSnakesLayout.bounds rect
    = UseZoomPan.mkBounds (KSnakesLayout.left m) (KSnakesLayout.top m) side side.
Proof.
  intros m base side.
  assert (Hw : (side <= KSnakesLayout.availableWidth rect)%Q) by apply Q.le_min_l.
  assert (Hh : (side <= KSnakesLayout.availableHeight rect)%Q) by apply Q.le_min_r.
  assert (Hor : (side == KSnakesLayout.availableWidth rect)%Q
                ∨ (side == KSnakesLayout.availableHeight rect)%Q).
  { destruct (Q.min_spec (KSnakesLayout.availableWidth rect)
                (KSnakesLayout.availableHeight rect)) as [[_ H]|[_ H]]; [by left | by right]. }
  unfold m, base, KSnakesLayout.margin. cbn [KSnakesLayout.left KSnakesLayout.right
    KSnakesLayout.top KSnakesLayout.bottom KSnakesLayout.baseMargin].
  fold side.
  unfold KSnakesLayout.availableWidth, KSnakesLayout.availableHeight in *.
  cbn [KSnakesLayout.left KSnakesLayout.right KSnakesLayout.top KSnakesLayout.bottom
       KSnakesLayout.baseMargin] in *.
  assert (Hb : KSnakesLayout.bounds rect
               = UseZoomPan.mkBounds
                   (50 + (KSnakesPane.width rect - 50 - 20 - side) / 2)
                   (20 + (KSnakesPane.height rect - 20 - 40 - side) / 2) side side)
    by reflexivity.
  clearbody side.
  split_and!; try assumption; clear Hor;
    unfold Qdiv; change (/ 2)%Q with (1 # 2)%Q; lra.
Qed.

Section KSnakesDrawFacts.
Import KSnakesPane.
Local Open Scope Q_scope.

Lemma snakeNodes_ids (rect : Rect) (ns : list KNode) :
  data_node_idx <$> snakeNodes rect ns = node_idx <$> sortedNodes ns.
Proof.
  apply list_eq. intros i. unfold snakeNodes.
  rewrite !list_lookup_fmap, list_lookup_imap. by destruct (sortedNodes ns !! i).
Qed.

Lemma render_snakeNodes (rect : Rect) (ns : list KNode) :
  ¬ width rect == 0 → ¬ height rect == 0 →
  render (Some rect) (Some ns) = snakeNodes rect ns.
Proof.
  intros HW HH. unfold render.
  rewrite (Qeq_bool_false_ne _ _ HW), (Qeq_bool_false_ne _ _ HH). cbn [orb].
  by destruct ns.
Qed.

End KSnakesDrawFacts.

(** X24: in a container of non-zero size the k-snakes pane draws every
    node of the dataset exactly once: the identifiers on the circles
    are a rearrangement of the dataset's identifiers, and every circle
    has the radius [plotSize / 200].  Without a container, without
    data, in a container of zero width or height, or for an empty node
    list, nothing is drawn. *)
Theorem ksnakes_draws_each_node_exactly_once
    (rect : KSnakesPane.Rect) (ns : list KSnakesPane.KNode) :
  (¬ (KSnakesPane.width rect == 0)%Q → ¬ (KSnakesPane.height rect == 0)%Q →
   Permutation (KSnakesPane.node_idx <$> ns)
               (KSnakesPane.data_node_idx <$> KSnakesPane.render (Some rect) (Some ns))
   ∧ length (KSnakesPane.render (Some rect) (Some ns)) = length ns
   ∧ ∀ c, c ∈ KSnakesPane.render (Some rect) (Some ns) →
          KSnakesPane.r c = (KSnakesPane.plotSize rect / 200)%Q)
  ∧ KSnakesPane.render None (Some ns) = []
  ∧ KSnakesPane.render (Some rect) None = []
  ∧ KSnakesPane.render (Some rect) (Some []) = []
  ∧ ((KSnakesPane.width rect == 0)%Q ∨ (KSnakesPane.height rect == 0)%Q →
     KSnakesPane.render (Some rect) (Some ns) = []).
Proof.
  split_and!.
  - intros HW HH. rewrite render_snakeNodes by assumption. split_and!.
    + rewrite snakeNodes_ids. apply fmap_Permutation. apply sort_Permutation.
    + unfold KSnakesPane.snakeNodes. rewrite length_imap.
      symmetry. apply Permutation_length, sort_Permutation.
    + intros c Hc. apply list_elem_of_lookup in Hc as [i Hi].
      unfold KSnakesPane.snakeNodes in Hi. rewrite list_lookup_imap in Hi.
      destruct (KSnakesPane.sortedNodes ns !! i); [|discriminate].
      by injection Hi as <-.
  - reflexivity.
  - reflexivity.
  - unfold KSnakesPane.render. by destruct (_ || _).
  - intros Hz. unfold KSnakesPane.render.
    assert (Qeq_bool (KSnakesPane.width rect) 0 || Qeq_bool (KSnakesPane.height rect) 0 = true)
      as -> by (rewrite orb_true_iff, !Qeq_bool_iff; exact Hz).
    reflexivity.
Qed.

Section ScaleFacts.
Local Open Scope Q_scope.

Lemma interpolate_ascending (a b t : Q) :
  a <= b → 0 <= t → t <= 1 →
  a <= D3Scale.interpolate a b t ∧ D3Scale.interpolate a b t <= b.
Proof.
  intros Hab H0 H1. unfold D3Scale.interpolate.
  assert (P1 : 0 <= (b - a) * t) by (apply Qmult_le_0_compat; lra).
  assert (P2 : 0 <= (b - a) * (1 - t)) by (apply Qmult_le_0_compat; lra).
  assert (E1 : (b - a) * t == b * t - a * t) by ring.
  assert (E2 : (b - a) * (1 - t) == b - a - b * t + a * t) by ring.
  assert (E3 : a * (1 - t) + b * t == a - a * t + b * t) by ring.
  rewrite E3. rewrite E1 in P1. rewrite E2 in P2.
  set (u := a * t) in *. set (v := b * t) in *. split; lra.
Qed.

Lemma interpolate_descending (a b t : Q) :
  b <= a → 0 <= t → t <= 1 →
  b <= D3Scale.interpolate a b t ∧ D3Scale.interpolate a b t <= a.
Proof.
  intros Hab H0 H1. unfold D3Scale.interpolate.
  assert (P1 : 0 <= (a - b) * t) by (apply Qmult_le_0_compat; lra).
  assert (P2 : 0 <= (a - b) * (1 - t)) by (apply Qmult_le_0_compat; lra).
  assert (E1 : (a - b) * t == a * t - b * t) by ring.
  assert (E2 : (a - b) * (1 - t) == a - b - a * t + b * t) by ring.
  assert (E3 : a * (1 - t) + b * t == a - a * t + b * t) by ring.
  rewrite E3. rewrite E1 in P1. rewrite E2 in P2.
  set (u := a * t) in *. set (v := b * t) in *. split; lra.
Qed.

Lemma normalize_unit (d0 d1 v : Q) :
  d0 <= v → v <= d1 →
  0 <= D3Scale.normalize d0 d1 v ∧ D3Scale.normalize d0 d1 v <= 1.
Proof.
  intros H0 H1. unfold D3Scale.normalize.
  destruct (Qeq_bool (d1 - d0) 0) eqn:E; [split; discriminate|].
  apply Qeq_bool_neq in E. assert (Hpos : 0 < d1 - d0) by lra. split.
  - apply div_nonneg; lra.
  - apply Qle_shift_div_r; [exact Hpos | lra].
Qed.

Lemma max_f_upper {A} (f : A → Q) (l : list A) (a : A) :
  a ∈ l → ∃ m, D3Scale.max f l = Some m ∧ f a <= m.
Proof.
  assert (Hfold : ∀ l' m0,
            let m := fold_left (λ m b, if negb (Qle_bool (f b) m) then f b else m) l' m0 in
            m0 <= m ∧ ∀ b, b ∈ l' → f b <= m).
  { induction l' as [|b l' IH]; intros m0; cbn.
    - split; [lra|]. intros b Hb. by apply elem_of_nil in Hb.
    - set (m1 := if negb (Qle_bool (f b) m0) then f b else m0).
      assert (Hm1 : m0 <= m1 ∧ f b <= m1).
      { unfold m1. destruct (Qle_bool (f b) m0) eqn:E; cbn.
        - apply Qle_bool_iff in E. lra.
        - assert (¬ f b <= m0) by (intros H; apply Qle_bool_iff in H; congruence).
          apply Qnot_le_lt in H. lra. }
      destruct (IH m1) as [H1 H2]. split; [lra|].
      intros c Hc. apply elem_of_cons in Hc as [->|Hc]; [lra | by apply H2]. }
  destruct l as [|a0 l]; intros Ha; [by apply elem_of_nil in Ha|].
  eexists. split; [reflexivity|]. destruct (Hfold l (f a0)) as [H1 H2].
  apply elem_of_cons in Ha as [->|Ha]; [exact H1 | by apply H2].
Qed.

End ScaleFacts.

Section KSnakesRangeFacts.
Import KSnakesPane.
Local Open Scope Q_scope.

Lemma value1_chain (d : KNode) :
  value1 d = if truthy (degree d) then toNumber (degree d)
             else if truthy (k d) then toNumber (k d) else 1.
Proof.
  unfold value1, or_.
  destruct (truthy (degree d)) eqn:Ed; cbv iota; [by rewrite Ed|].
  destruct (truthy (k d)) eqn:Ek; reflexivity.
Qed.

Lemma truthy_nonzero (v : option Q) : truthy v = true → ¬ toNumber v == 0.
Proof.
  destruct v as [q|]; cbn; [|discriminate].
  intros H. apply negb_true_iff in H. by apply Qeq_bool_neq in H.
Qed.

Lemma value_le_value1 (d : KNode) : value d <= value1 d.
Proof.
  rewrite value_chain, value1_chain.
  destruct (truthy (degree d)); [lra|]. destruct (truthy (k d)); [lra | discriminate].
Qed.

Lemma value1_positive (d : KNode) : 0 <= value d → 0 < value1 d.
Proof.
  rewrite value_chain, value1_chain.
  destruct (truthy (degree d)) eqn:Ed.
  - apply truthy_nonzero in Ed. intros H. lra.
  - destruct (truthy (k d)) eqn:Ek; [|reflexivity].
    apply truthy_nonzero in Ek. intros H. lra.
Qed.

Lemma xScale_in_range (rect : Rect) (ns : list KNode) (i : nat) :
  (i < length ns)%nat → 2 * nodePadding <= plotSize rect →
  nodePadding <= xScale rect ns (inject_Z (Z.of_nat i))
  ∧ xScale rect ns (inject_Z (Z.of_nat i)) <= plotSize rect - nodePadding.
Proof.
  intros Hi Hw. unfold xScale, D3Scale.scaleLinear.
  set (d1 := inject_Z (Z.of_nat (length ns)) - 1).
  assert (Hv : 0 <= inject_Z (Z.of_nat i) ∧ inject_Z (Z.of_nat i) <= d1).
  { unfold d1. split.
    - change 0 with (inject_Z 0). rewrite <- Zle_Qle. lia.
    - assert (inject_Z (Z.of_nat i) + 1 <= inject_Z (Z.of_nat (length ns))).
      { change 1 with (inject_Z 1). rewrite <- inject_Z_plus, <- Zle_Qle. lia. }
      lra. }
  assert (Hd1 : 0 <= d1) by lra.
  apply Qle_bool_iff in Hd1 as Hb. rewrite Hb. cbn [negb].
  destruct (normalize_unit 0 d1 (inject_Z (Z.of_nat i))) as [H0 H1]; [lra | lra |].
  apply interpolate_ascending; [unfold nodePadding in *; lra | exact H0 | exact H1].
Qed.

Lemma yScale_in_range (rect : Rect) (ns : list KNode) (d : KNode) :
  d ∈ ns → (∀ d', d' ∈ ns → 0 <= value d') → 2 * nodePadding <= plotSize rect →
  ∃ maxK, D3Scale.max value1 ns = Some maxK ∧ 0 < maxK ∧ value d <= maxK
          ∧ yScale rect ns (value d)
            = D3Scale.interpolate (plotSize rect - nodePadding) nodePadding
                (D3Scale.normalize 0 maxK (value d))
          ∧ nodePadding <= yScale rect ns (value d)
          ∧ yScale rect ns (value d) <= plotSize rect - nodePadding.
Proof.
  intros Hd Hnn Hw.
  destruct (max_f_upper value1 ns d Hd) as (maxK & Emax & Hmax).
  pose proof (value_le_value1 d) as Hle.
  pose proof (value1_positive d (Hnn d Hd)) as Hpos.
  assert (HmaxK : 0 < maxK) by lra.
  exists maxK. split; [exact Emax|]. split; [exact HmaxK|]. split; [lra|].
  assert (Hy : yScale rect ns (value d)
               = D3Scale.interpolate (plotSize rect - nodePadding) nodePadding
                   (D3Scale.normalize 0 maxK (value d))).
  { unfold yScale, D3Scale.scaleLinear. rewrite Emax. cbn [toNumber].
    assert (Hb : Qle_bool 0 maxK = true) by (apply Qle_bool_iff; lra).
    by rewrite Hb. }
  split; [exact Hy|]. rewrite Hy.
  destruct (normalize_unit 0 maxK (value d)) as [H0 H1]; [by apply Hnn | lra |].
  apply interpolate_descending; [unfold nodePadding in *; lra | exact H0 | exact H1].
Qed.

End KSnakesRangeFacts.

(** X25: in a container of non-zero size whose square plot is at least
    40 wide, and for a dataset whose node values are not negative,
    every circle lies inside the plot at least one node padding away
    from its border, horizontally and vertically; a node of value 0 is
    drawn on the lower padding line. *)
Theorem ksnakes_circles_lie_inside_the_plot
    (rect : KSnakesPane.Rect) (ns : list KSnakesPane.KNode) (c : KSnakesPane.Circle) :
  ¬ (KSnakesPane.width rect == 0)%Q → ¬ (KSnakesPane.height rect == 0)%Q →
  (2 * KSnakesPane.nodePadding <= KSnakesPane.plotSize rect)%Q →
  (∀ d, d ∈ ns → (0 <= KSnakesPane.value d)%Q) →
  c ∈ KSnakesPane.render (Some rect) (Some ns) →
  (KSnakesPane.nodePadding <= KSnakesPane.cx c)%Q
  ∧ (KSnakesPane.cx c <= KSnakesPane.plotSize rect - KSnakesPane.nodePadding)%Q
  ∧ (KSnakesPane.nodePadding <= KSnakesPane.cy c)%Q
  ∧ (KSnakesPane.cy c <= KSnakesPane.plotSize rect - KSnakesPane.nodePadding)%Q
  ∧ ((KSnakesPane.value (KSnakesPane.datum c) == 0)%Q →
     (KSnakesPane.cy c == KSnakesPane.plotSize rect - KSnakesPane.nodePadding)%Q).
Proof.
  intros HW HH Hw Hnn Hc. rewrite render_snakeNodes in Hc by assumption.
  apply list_elem_of_lookup in Hc as [i Hi].
  pose proof (lookup_lt_Some _ _ _ Hi) as Hlt.
  apply snakeNodes_lookup in Hi as (Hd & _ & Hcx & Hcy).
  assert (Hlen : length (KSnakesPane.snakeNodes rect ns) = length ns).
  { unfold KSnakesPane.snakeNodes. rewrite length_imap.
    symmetry. apply Permutation_length, sort_Permutation. }
  assert (Hin : KSnakesPane.datum c ∈ ns).
  { apply list_elem_of_lookup_2 in Hd. unfold KSnakesPane.sortedNodes in Hd.
    by rewrite <- (sort_Permutation ns) in Hd. }
  destruct (xScale_in_range rect ns i) as [Hx0 Hx1]; [lia | exact Hw |].
  destruct (yScale_in_range rect ns (KSnakesPane.datum c) Hin Hnn Hw)
    as (maxK & _ & HmaxK & _ & Hy & Hy0 & Hy1).
  rewrite Hcx, Hcy. split_and!; try assumption.
  intros Hv. rewrite Hy. unfold D3Scale.interpolate, D3Scale.normalize.
  assert (E : Qeq_bool (maxK - 0) 0 = false) by (apply Qeq_bool_false_ne; lra).
  rewrite E, Hv. field. lra.
Qed.

(** X25 in a 400 x 300 container (plot 240 wide): the node of value 0
    is drawn at x = 20 on the lower padding line y = 220. *)
Lemma ksnakes_circles_lie_inside_the_plot_witness :
  let ns := [KSnakesPane.mkKNode 10 (Some 3%Q) (Some 1%Q);
             KSnakesPane.mkKNode 11 (Some 0%Q) (Some 2%Q);
             KSnakesPane.mkKNode 12 None None] in
  let rect := KSnakesPane.mkRect 400 300 in
  ∃ c, KSnakesPane.render (Some rect) (Some ns) !! 0%nat = Some c
       ∧ KSnakesPane.data_node_idx c = 12
       ∧ (20 <= KSnakesPane.cx c)%Q ∧ (KSnakesPane.cx c <= 240 - 20)%Q
       ∧ (20 <= KSnakesPane.cy c)%Q ∧ (KSnakesPane.cy c <= 240 - 20)%Q.
Proof.
  intros ns rect.
  destruct (KSnakesPane.render (Some rect) (Some ns) !! 0%nat) as [c|] eqn:E;
    [|vm_compute in E; discriminate E].
  exists c. split; [reflexivity|].
  destruct (ksnakes_circles_lie_inside_the_plot rect ns c
              ltac:(intros H; discriminate H) ltac:(intros H; discriminate H)
              ltac:(vm_compute; discriminate)) as (H1 & H2 & H3 & H4 & _).
  - intros d Hd. unfold ns in Hd. rewrite !elem_of_cons in Hd.
    destruct Hd as [->|[->|[->|Hd]]]; [| | |by apply elem_of_nil in Hd];
      vm_compute; discriminate.
  - by eapply list_elem_of_lookup_2.
  - split; [|split_and!; assumption].
    vm_compute in E. by injection E as <-.
Defined.

Section VectorPaneFit.
Import D3Zoom UseZoomPan.
Local Open Scope Q_scope.

(** Fitting bounds that are strictly smaller than the surface zooms
    in, and never beyond the maximal scale. *)
Lemma fit_smaller_bounds (h : Hook) (r : Rect) (b : Bounds) :
  svgRef h = Some r →
  0 < bwidth b → bwidth b < width r → 0 < bheight b → bheight b < height r →
  1 < snd (scaleExtent (config h)) →
  let t := transform (fitToContent h (Some b) 0) in
  1 < k t ∧ k t <= snd (scaleExtent (config h)).
Proof.
  intros Hsvg Hbw HbW Hbh HbH Hmax t.
  destruct (fitToContent_components h r b 0 Hsvg) as (Hk & _ & _); try lra.
  fold t in Hk. rewrite Hk. split; [|apply min3_le_r].
  unfold min3. repeat apply Q.min_glb_lt; try assumption.
  - apply Qlt_shift_div_l; lra.
  - apply Qlt_shift_div_l; lra.
Qed.

(** Fitting bounds of negative width installs a negative scale. *)
Lemma fit_negative_width (h : Hook) (r : Rect) (b : Bounds) :
  svgRef h = Some r →
  0 < width r → 0 < height r → bwidth b < 0 → ¬ bheight b == 0 →
  k (transform (fitToContent h (Some b) 0)) < 0.
Proof.
  intros Hsvg HW HH Hbw Hbh.
  destruct (fitToContent_components h r b 0 Hsvg) as (Hk & _ & _); try lra.
  rewrite Hk. eapply Qle_lt_trans; [apply min3_le_1|].
  assert (Hneg : (width r - 0 * 2) / bwidth b == - ((width r - 0 * 2) / - bwidth b))
    by (field; lra).
  rewrite Hneg.
  assert (0 < (width r - 0 * 2) / - bwidth b) by (apply Qlt_shift_div_l; lra).
  lra.
Qed.

End VectorPaneFit.

(** X26: fit-to-content on the k-snakes and hop-census panes, whose
    scale extent is [0.5, 4], fits the plot rectangle the pane stored
    when it was laid out.  When that rectangle has positive sides (the
    container is larger than the fixed margins, 70 across and 60 down)
    it is smaller than the surface by the margins, so the installed
    scale is above 1 and at most 4, within the extent.  When the
    container is narrower than the margins the stored width is negative
    (the guards only test for zero) and the installed scale is
    negative, outside the extent.  Before the plot has been laid out
    ([boundsRef.current] unset) the handler does nothing. *)
Theorem vector_panes_fit_within_the_scale_extent
    (h : UseZoomPan.Hook) (r : UseZoomPan.Rect) (rect : KSnakesPane.Rect) :
  UseZoomPan.svgRef h = Some r →
  UseZoomPan.width r = KSnakesPane.width rect →
  UseZoomPan.height r = KSnakesPane.height rect →
  UseZoomPan.scaleExtent (UseZoomPan.config h)
  = UseZoomPan.scaleExtent KSnakesLayout.options →
  ((0 < KSnakesPane.plotSize rect)%Q →
   let h' := KSnakesLayout.handleFitContent h (Some (KSnakesLayout.bounds rect)) in
   (1 < D3Zoom.k (UseZoomPan.transform h'))%Q ∧ UseZoomPan.scaleWithinExtent h')
  ∧ ((0 < HopCensusLayout.innerWidth rect)%Q → (0 < HopCensusLayout.innerHeight rect)%Q →
     let h' := KSnakesLayout.handleFitContent h (Some (HopCensusLayout.bounds rect)) in
     (1 < D3Zoom.k (UseZoomPan.transform h'))%Q ∧ UseZoomPan.scaleWithinExtent h')
  ∧ ((0 < KSnakesPane.width rect)%Q → (0 < KSnakesPane.height rect)%Q →
     (KSnakesPane.plotSize rect < 0)%Q →
     let h' := KSnakesLayout.handleFitContent h (Some (KSnakesLayout.bounds rect)) in
     (D3Zoom.k (UseZoomPan.transform h') < 0)%Q ∧ ¬ UseZoomPan.scaleWithinExtent h')
  ∧ ((0 < KSnakesPane.width rect)%Q → (0 < KSnakesPane.height rect)%Q →
     (HopCensusLayout.innerWidth rect < 0)%Q → ¬ (HopCensusLayout.innerHeight rect == 0)%Q →
     let h' := KSnakesLayout.handleFitContent h (Some (HopCensusLayout.bounds rect)) in
     (D3Zoom.k (UseZoomPan.transform h') < 0)%Q ∧ ¬ UseZoomPan.scaleWithinExtent h')
  ∧ KSnakesLayout.handleFitContent h None = h.
Proof.
  intros Hsvg HW HH Hext.
  assert (Hcfg : ∀ b, UseZoomPan.config (UseZoomPan.fitToContent h (Some b) 0)
                      = UseZoomPan.config h)
    by (intros b; apply (step_config h (UseZoomPan.OpFit (Some b) 0))).
  split_and!; [| | | |reflexivity].
  - intros Hside h'.
    assert (Hw : (KSnakesPane.plotSize rect <= KSnakesPane.width rect - 50 - 20)%Q)
      by apply Q.le_min_l.
    assert (Hh : (KSnakesPane.plotSize rect <= KSnakesPane.height rect - 20 - 40)%Q)
      by apply Q.le_min_r.
    destruct (fit_smaller_bounds h r (KSnakesLayout.bounds rect) Hsvg) as [H1 H2];
      cbn [KSnakesLayout.bounds UseZoomPan.bwidth UseZoomPan.bheight];
      rewrite ?HW, ?HH, ?Hext; cbn; try lra.
    split; [exact H1|]. unfold UseZoomPan.scaleWithinExtent, h', KSnakesLayout.handleFitContent.
    rewrite Hcfg, Hext in *. cbn in *. split; lra.
  - intros Hiw Hih h'.
    unfold HopCensusLayout.innerWidth, HopCensusLayout.innerHeight in Hiw, Hih. cbn in Hiw, Hih.
    destruct (fit_smaller_bounds h r (HopCensusLayout.bounds rect) Hsvg) as [H1 H2];
      cbn [HopCensusLayout.bounds UseZoomPan.bwidth UseZoomPan.bheight];
      unfold HopCensusLayout.innerWidth, HopCensusLayout.innerHeight;
      rewrite ?HW, ?HH, ?Hext; cbn; try lra.
    split; [exact H1|]. unfold UseZoomPan.scaleWithinExtent, h', KSnakesLayout.handleFitContent.
    rewrite Hcfg, Hext in *. cbn in *. split; lra.
  - intros Hw Hh Hside h'.
    assert (Hk : (D3Zoom.k (UseZoomPan.transform h') < 0)%Q).
    { apply (fit_negative_width h r (KSnakesLayout.bounds rect) Hsvg);
        rewrite ?HW, ?HH; cbn [KSnakesLayout.bounds UseZoomPan.bwidth UseZoomPan.bheight];
        lra. }
    split; [exact Hk|]. intros [Hl _]. unfold h', KSnakesLayout.handleFitContent in Hl.
    rewrite Hcfg, Hext in Hl. cbn in Hl. unfold h', KSnakesLayout.handleFitContent in Hk. lra.
  - intros Hw Hh Hside Hother h'.
    assert (Hk : (D3Zoom.k (UseZoomPan.transform h') < 0)%Q).
    { apply (fit_negative_width h r (HopCensusLayout.bounds rect) Hsvg);
        rewrite ?HW, ?HH; cbn [HopCensusLayout.bounds UseZoomPan.bwidth UseZoomPan.bheight];
        try lra; exact Hother. }
    split; [exact Hk|]. intros [Hl _]. unfold h', KSnakesLayout.handleFitContent in Hl.
    rewrite Hcfg, Hext in Hl. cbn in Hl. unfold h', KSnakesLayout.handleFitContent in Hk. lra.
Qed.

(** X26 in a 400 x 300 container: the k-snakes plot is 240 wide and
    the installed scale is 300/240 = 1.25; in a 60 x 200 container the
    stored plot is -10 wide and the installed scale is -20. *)
Lemma vector_panes_fit_within_the_scale_extent_witness :
  (let rect := KSnakesPane.mkRect 400 300 in
   let h := UseZoomPan.mount KSnakesLayout.options (Some (UseZoomPan.mkRect 400 300)) in
   UseZoomPan.scaleWithinExtent
     (KSnakesLayout.handleFitContent h (Some (KSnakesLayout.bounds rect))))
  ∧ (let rect := KSnakesPane.mkRect 60 200 in
     let h := UseZoomPan.mount KSnakesLayout.options (Some (UseZoomPan.mkRect 60 200)) in
     let h' := KSnakesLayout.handleFitContent h (Some (KSnakesLayout.bounds rect)) in
     (D3Zoom.k (UseZoomPan.transform h') == -20)%Q ∧ ¬ UseZoomPan.scaleWithinExtent h').
Proof.
  split.
  - intros rect h.
    destruct (vector_panes_fit_within_the_scale_extent h (UseZoomPan.mkRect 400 300) rect
                eq_refl eq_refl eq_refl eq_refl) as (Hk & _ & _).
    apply Hk. vm_compute. reflexivity.
  - intros rect h h'.
    destruct (vector_panes_fit_within_the_scale_extent h (UseZoomPan.mkRect 60 200) rect
                eq_refl eq_refl eq_refl eq_refl) as (_ & _ & Hneg & _).
    split; [vm_compute; reflexivity|].
    apply Hneg; vm_compute; reflexivity.
Defined.
